(** * Assistive vision: perception-to-decision pipeline

    A shallow embedding of the risk classifier ([distance_checker.py]),
    the zone navigation engine ([navigation_guide.py]), the multi-object
    tracker ([object_tracker.py]) and the alert producer
    ([voice_alert.py]), with the properties of the specification stated
    over it.

    Numbers.  Pixel coordinates, areas and counters are integers and are
    modelled by [Z] (the detector emits 64-bit numpy integers; pixel
    values stay far from their wrap-around, which is not modelled).
    Python floats (ratios, densities, scores,
    timestamps, metres) are modelled by exact rationals [Q]: every
    comparison below is the comparison of the exact values, rounding is
    not modelled.  True division [a / b] of Python numbers raises
    [ZeroDivisionError] when [b] is zero; it is modelled by [true_div],
    which returns an error there (the rational inverse of zero would
    silently be zero).

    Time.  [time.time()] is an oracle: the n-th call made by the program
    returns [clock n].  Methods that read the clock once take the value
    read as the argument [now]; the methods of the tracker, which read it
    a data-dependent number of times, live in the small state monad
    [Clk] that counts the reads. *)

From Stdlib Require Import ZArith QArith Qround Qminmax.
From Stdlib Require Import List String Bool Lia Lqa Permutation Sorted.
Import ListNotations.

Set Implicit Arguments.

(* ================================================================= *)
(** ** Python values shared by the modules *)

Module Py.

Inductive exn : Type :=
| ZeroDivisionError.

Inductive result (A : Type) : Type :=
| Ok (a : A)
| Raise (e : exn).

Arguments Ok {A} a.
Arguments Raise {A} e.

Definition bind {A B} (r : result A) (k : A -> result B) : result B :=
  match r with
  | Ok a => k a
  | Raise e => Raise e
  end.

(** [a / b] on Python integers: a float, or [ZeroDivisionError].  (On
    numpy scalars the division by zero gives [inf] or [nan] with a
    warning instead; the model follows the Python numbers of the type
    annotations.) *)
Definition true_div (a b : Z) : result Q :=
  if (b =? 0)%Z then Raise ZeroDivisionError
  else Ok (inject_Z a / inject_Z b)%Q.

(** Comparisons of floats as booleans. *)
Definition Qleb (x y : Q) : bool := Qle_bool x y.
Definition Qltb (x y : Q) : bool := negb (Qle_bool y x).
Definition Qgeb (x y : Q) : bool := Qleb y x.
Definition Qgtb (x y : Q) : bool := Qltb y x.

(** [sum(l)] and [sum(l) / len(l)] for a list the caller knows to be
    non-empty. *)
Definition Qsum (l : list Q) : Q := fold_left Qplus l 0%Q.
Definition Zsum (l : list Z) : Z := fold_left Z.add l 0%Z.
Definition len {A} (l : list A) : Z := Z.of_nat (List.length l).
Definition Qmean (l : list Q) : Q := (Qsum l / inject_Z (len l))%Q.
Definition Zmean (l : list Z) : Q := (inject_Z (Zsum l) / inject_Z (len l))%Q.

(** [max(l)] of a non-empty list of integers ([0] stands for the
    [ValueError] of the empty list, which no caller reaches). *)
Definition Zmaximum (l : list Z) : Z :=
  match l with
  | [] => 0%Z
  | x :: r => fold_left Z.max r x
  end.

(** [l[-1]] with a default for the empty list. *)
Definition last_or {A} (l : list A) (d : A) : A := List.last l d.

(** Truthiness of an optional integer: [None] and [0] are false. *)
Definition truthyZ (o : option Z) : bool :=
  match o with
  | Some z => negb (z =? 0)%Z
  | None => false
  end.

End Py.

Import Py.

Module PyNotations.
Notation "x <- c1 ;; c2" := (Py.bind c1 (fun x => c2))
  (at level 61, c1 at next level, right associativity).
End PyNotations.

(* ================================================================= *)
(** ** Detections *)

(** The four distance levels, strings in the source. *)
Inductive DistanceLevel : Type :=
| far | medium | close | very_close.

Definition level_name (l : DistanceLevel) : string :=
  match l with
  | far => "far"
  | medium => "medium"
  | close => "close"
  | very_close => "very_close"
  end.

(** [(x1, y1, x2, y2)] in pixels. *)
Definition BBox : Type := (Z * Z * Z * Z)%type.

(** A detection is a Python dict.  The record lists the keys the
    modelled functions read or write; keys that may be absent are
    options.  [distance_meters] absent and [distance_meters] holding
    Python's [None] are both [None] here: the voice alert reads the key
    with [get] and treats them alike, and the tracker is fed dicts in
    which the key, when present, holds a number. *)
Module Detection.

Record t : Type := mk {
  class_id : Z;
  class_name : string;
  confidence : Q;
  bbox : BBox;
  center : Z * Z;
  area : Z;
  urgency : option Z;
  distance_level : option DistanceLevel;
  distance_meters : option Q;
  track_id : option Z;
  should_alert_flag : option bool;
  should_distance_alert_flag : option bool;
  is_stable_flag : option bool;
  age : option Q;
  consecutive_detections_key : option Z;
  alert_count_key : option Z
}.

(** What the detector emits for a box: the geometry keys only. *)
Definition raw (cid : Z) (name : string) (conf : Q) (b : BBox) : t :=
  let '(x1, y1, x2, y2) := b in
  {| class_id := cid; class_name := name; confidence := conf;
     bbox := b;
     center := (((x1 + x2) / 2)%Z, ((y1 + y2) / 2)%Z);
     area := ((x2 - x1) * (y2 - y1))%Z;
     urgency := None; distance_level := None;
     distance_meters := None;
     track_id := None; should_alert_flag := None;
     should_distance_alert_flag := None;
     is_stable_flag := None; age := None;
     consecutive_detections_key := None; alert_count_key := None |}.

End Detection.

Import Detection.

(* ================================================================= *)
(** ** Risk classifier: [distance_checker.py] *)

Module DistanceChecker.

Record Thresholds : Type := mkThresholds {
  th_very_close : Q;
  th_close : Q;
  th_medium : Q
}.

Definition default_thresholds : Thresholds :=
  mkThresholds 0.12 0.06 0.03.

(** [self.distance_thresholds], a dict in the source. *)
Definition distance_thresholds : list (string * Thresholds) :=
  [ ("person",     mkThresholds 0.15 0.08 0.04);
    ("car",        mkThresholds 0.25 0.15 0.08);
    ("bicycle",    mkThresholds 0.12 0.06 0.03);
    ("motorcycle", mkThresholds 0.12 0.06 0.03);
    ("bus",        mkThresholds 0.35 0.25 0.15);
    ("truck",      mkThresholds 0.35 0.25 0.15);
    ("default",    default_thresholds) ]%string.

Fixpoint dict_get {V} (k : string) (d : list (string * V)) : option V :=
  match d with
  | [] => None
  | (k', v) :: r => if String.eqb k k' then Some v else dict_get k r
  end.

(** [self.distance_thresholds.get(class_name, self.distance_thresholds['default'])] *)
Definition thresholds_for (name : string) : Thresholds :=
  match dict_get name distance_thresholds with
  | Some t => t
  | None => default_thresholds
  end.

Record DistanceInfo : Type := mkDistanceInfo {
  relative_size : Q;
  info_level : DistanceLevel;
  is_close : bool;
  info_urgency : Z;
  size_percentage : Q
}.

(** The ladder applied to an already computed [relative_size]. *)
Definition classify (th : Thresholds) (relative_size : Q) : DistanceInfo :=
  if Qgeb relative_size (th_very_close th) then
    mkDistanceInfo relative_size very_close true 3 (relative_size * 100)
  else if Qgeb relative_size (th_close th) then
    mkDistanceInfo relative_size close true 2 (relative_size * 100)
  else if Qgeb relative_size (th_medium th) then
    mkDistanceInfo relative_size medium true 1 (relative_size * 100)
  else
    mkDistanceInfo relative_size far false 0 (relative_size * 100).

Import PyNotations.

Definition calculate_distance_info (detection : Detection.t) (frame_area : Z)
  : result DistanceInfo :=
  let class_name := class_name detection in
  let object_area := area detection in
  relative_size <- true_div object_area frame_area ;;
  let thresholds := thresholds_for class_name in
  Ok (classify thresholds relative_size).

End DistanceChecker.

(* ================================================================= *)
(** ** Configuration: the fields of [config.py] the core reads *)

Record Config : Type := mkConfig {
  ALERT_INTERVAL : Q;
  DIRECTION_ALERT_INTERVAL : Q;
  GENERAL_ANNOUNCE_INTERVAL : Q;
  MAX_ALERT_QUEUE_SIZE : Z;
  MAX_OBJECTS_PER_ZONE : Z;
  DEBUG_MODE : bool
}.

(** The values [Config.__init__] sets. *)
Definition default_config : Config :=
  {| ALERT_INTERVAL := 10.0;
     DIRECTION_ALERT_INTERVAL := 10.0;
     GENERAL_ANNOUNCE_INTERVAL := 10.0;
     MAX_ALERT_QUEUE_SIZE := 10;
     MAX_OBJECTS_PER_ZONE := 3;
     DEBUG_MODE := false |}.

(** [int(x)] of a float: truncation toward zero. *)
Definition py_int (x : Q) : Z := Z.quot (Qnum x) (Z.pos (Qden x)).

(* ================================================================= *)
(** ** Zone navigation engine: [navigation_guide.py] *)

Module NavigationGuide.

Import PyNotations.

Inductive RiskLevel : Type :=
| risk_safe | risk_low | risk_medium | risk_high.

Inductive Direction : Type :=
| forward | left | right | stop.

Inductive ZoneName : Type :=
| zone_left | zone_center | zone_right.

(** [self.density_thresholds] *)
Definition density_low : Q := 0.1.
Definition density_medium : Q := 0.2.
Definition density_high : Q := 0.4.

Record ZoneBounds : Type := mkZoneBounds {
  x_min : Z;
  x_max : Z;
  y_min : Z;
  y_max : Z;
  center_x : Z
}.

(** The dict with the keys ['left'], ['center'], ['right'], in that
    order. *)
Record Zones (A : Type) : Type := mkZones {
  at_left : A;
  at_center : A;
  at_right : A
}.

Definition zone_get {A} (z : Zones A) (n : ZoneName) : A :=
  match n with
  | zone_left => at_left z
  | zone_center => at_center z
  | zone_right => at_right z
  end.

Definition _calculate_zone_boundaries (width height : Z) : Zones ZoneBounds :=
  let left_boundary := py_int (inject_Z width * 0.33) in
  let right_boundary := py_int (inject_Z width * 0.67) in
  {| at_left :=
       {| x_min := 0; x_max := left_boundary;
          y_min := 0; y_max := height;
          center_x := left_boundary / 2 |};
     at_center :=
       {| x_min := left_boundary; x_max := right_boundary;
          y_min := 0; y_max := height;
          center_x := (left_boundary + right_boundary) / 2 |};
     at_right :=
       {| x_min := right_boundary; x_max := width;
          y_min := 0; y_max := height;
          center_x := (right_boundary + width) / 2 |} |}%Z.

(** The first rule of [_is_object_in_zone]: the centre point lies within
    the (closed) bounds of the zone. *)
Definition center_in_bounds (c : Z * Z) (zone_bounds : ZoneBounds) : bool :=
  let '(center_x, center_y) := c in
  ((x_min zone_bounds <=? center_x) && (center_x <=? x_max zone_bounds) &&
   (y_min zone_bounds <=? center_y) && (center_y <=? y_max zone_bounds))%Z.

Definition _is_object_in_zone (detection : Detection.t) (zone_bounds : ZoneBounds)
  : bool :=
  let '(x1, y1, x2, y2) := bbox detection in
  if center_in_bounds (center detection) zone_bounds then true
  else
    let overlap_x :=
      Z.max 0 (Z.min x2 (x_max zone_bounds) - Z.max x1 (x_min zone_bounds)) in
    let overlap_y :=
      Z.max 0 (Z.min y2 (y_max zone_bounds) - Z.max y1 (y_min zone_bounds)) in
    let overlap_area := (overlap_x * overlap_y)%Z in
    let object_area := ((x2 - x1) * (y2 - y1))%Z in
    if (0 <? object_area)%Z
    then Qgtb (inject_Z overlap_area / inject_Z object_area) 0.5
    else false.

Definition _is_zone_blocked (config : Config) (zone_objects : list Detection.t)
  (density : Q) (risk_scores : list Z) : bool :=
  match zone_objects with
  | [] => false
  | _ :: _ =>
    if Qgtb density density_high then true
    else if match risk_scores with
            | [] => false
            | _ :: _ => (3 <=? Zmaximum risk_scores)%Z
            end then true
    else if (MAX_OBJECTS_PER_ZONE config <=? len zone_objects)%Z then true
    else if Qgtb density density_medium &&
            match risk_scores with
            | [] => false
            | _ :: _ => Qgeb (Zmean risk_scores) 2
            end then true
    else false
  end.

Record ZoneAnalysis : Type := mkZoneAnalysis {
  object_count : Z;
  objects : list Detection.t;
  total_area : Z;
  density : Q;
  blocked : bool;
  risk_level : RiskLevel;
  avg_risk_score : Q;
  passable : bool
}.

(** Frame shape [(height, width, channels)]; only the first two are
    read. *)
Definition FrameShape : Type := (Z * Z)%type.

(** The risk score appended for one member of the zone. *)
Definition risk_score_of (detection : Detection.t) (frame_shape : FrameShape)
  : result Z :=
  match urgency detection with
  | Some u => Ok u
  | None =>
    relative_size <-
      true_div (area detection) (fst frame_shape * snd frame_shape) ;;
    if Qgtb relative_size 0.15 then Ok 3%Z
    else if Qgtb relative_size 0.08 then Ok 2%Z
    else Ok 1%Z
  end.

(** The loop of [_analyze_zone] over the detections: the members, their
    total area and their risk scores, in detection order. *)
Fixpoint collect_zone (detections : list Detection.t) (zone_bounds : ZoneBounds)
  (frame_shape : FrameShape)
  (acc : list Detection.t * Z * list Z) : result (list Detection.t * Z * list Z) :=
  match detections with
  | [] => Ok acc
  | detection :: rest =>
    let '(zone_objects, total_area, risk_scores) := acc in
    if _is_object_in_zone detection zone_bounds then
      score <- risk_score_of detection frame_shape ;;
      collect_zone rest zone_bounds frame_shape
        (zone_objects ++ [detection],
         (total_area + area detection)%Z,
         risk_scores ++ [score])
    else collect_zone rest zone_bounds frame_shape acc
  end.

Definition risk_level_of (avg_risk density : Q) : RiskLevel :=
  if Qgeb avg_risk 2.5 || Qgtb density density_high then risk_high
  else if Qgeb avg_risk 1.5 || Qgtb density density_medium then risk_medium
  else if Qgeb avg_risk 0.5 || Qgtb density density_low then risk_low
  else risk_safe.

Definition is_safe_or_low (r : RiskLevel) : bool :=
  match r with
  | risk_safe | risk_low => true
  | _ => false
  end.

Definition _analyze_zone (config : Config) (detections : list Detection.t)
  (zone_bounds : ZoneBounds) (frame_shape : FrameShape) : result ZoneAnalysis :=
  let zone_area :=
    ((x_max zone_bounds - x_min zone_bounds) *
     (y_max zone_bounds - y_min zone_bounds))%Z in
  members <- collect_zone detections zone_bounds frame_shape ([], 0%Z, []) ;;
  let '(zone_objects, total_area, risk_scores) := members in
  let density :=
    if (0 <? zone_area)%Z then inject_Z total_area / inject_Z zone_area
    else 0 in
  let blocked := _is_zone_blocked config zone_objects density risk_scores in
  let avg_risk :=
    match risk_scores with
    | [] => 0
    | _ :: _ => Zmean risk_scores
    end in
  let risk_level := risk_level_of avg_risk density in
  Ok {| object_count := len zone_objects;
        objects := zone_objects;
        total_area := total_area;
        density := density;
        blocked := blocked;
        risk_level := risk_level;
        avg_risk_score := avg_risk;
        passable := negb blocked && is_safe_or_low risk_level |}.

Definition risk_penalty (r : RiskLevel) : Q :=
  match r with
  | risk_safe => 0.0
  | risk_low => 0.1
  | risk_medium => 0.3
  | risk_high => 0.6
  end.

(** The score of a zone.  The code subtracts doubles where the model
    subtracts exact rationals: [1.0 - 0.1 - 0.05 - 0.05] is
    0.7999999999999999 in the code and 0.8 here, so that two scores that
    are equal here may differ by a rounding error there. *)
Definition _calculate_zone_score (zone_data : ZoneAnalysis) : Q :=
  if blocked zone_data then 0.0
  else
    let base_score := 1.0 in
    let base_score := base_score - risk_penalty (risk_level zone_data) in
    let object_penalty := Qmin 0.2 (inject_Z (object_count zone_data) * 0.05) in
    let base_score := base_score - object_penalty in
    let density_penalty := Qmin 0.3 (density zone_data * 0.5) in
    let base_score := base_score - density_penalty in
    Qmax 0.0 base_score.

Record NavigationDecision : Type := mkNavigationDecision {
  direction : option Direction;
  nav_confidence : Q;
  safe_zones : list ZoneName;
  overall_risk : RiskLevel
}.

Definition risk_eqb (a b : RiskLevel) : bool :=
  match a, b with
  | risk_safe, risk_safe | risk_low, risk_low
  | risk_medium, risk_medium | risk_high, risk_high => true
  | _, _ => false
  end.

Definition _make_navigation_decision (zone_analysis : Zones ZoneAnalysis)
  : NavigationDecision :=
  let left_zone := at_left zone_analysis in
  let center_zone := at_center zone_analysis in
  let right_zone := at_right zone_analysis in
  let safe_zones :=
    (if passable left_zone then [zone_left] else []) ++
    (if passable center_zone then [zone_center] else []) ++
    (if passable right_zone then [zone_right] else []) in
  let risk_levels :=
    [risk_level left_zone; risk_level center_zone; risk_level right_zone] in
  let overall_risk :=
    if existsb (risk_eqb risk_high) risk_levels then risk_high
    else if existsb (risk_eqb risk_medium) risk_levels then risk_medium
    else if existsb (risk_eqb risk_low) risk_levels then risk_low
    else risk_safe in
  let '(direction, confidence) :=
    if passable center_zone then (Some forward, 0.9)
    else if blocked center_zone then
      let left_score := _calculate_zone_score left_zone in
      let right_score := _calculate_zone_score right_zone in
      if Qgtb left_score right_score && passable left_zone then
        (Some left, Qmin 0.8 left_score)
      else if Qgtb right_score left_score && passable right_zone then
        (Some right, Qmin 0.8 right_score)
      else if passable left_zone then (Some left, 0.6)
      else if passable right_zone then (Some right, 0.6)
      else (Some stop, 0.9)
    else (None, 0.0) in
  {| direction := direction;
     nav_confidence := confidence;
     safe_zones := safe_zones;
     overall_risk := overall_risk |}.

Record Analysis : Type := mkAnalysis {
  zones : Zones ZoneAnalysis;
  center_blocked : bool;
  recommended_direction : option Direction;
  analysis_confidence : Q;
  analysis_safe_zones : list ZoneName;
  analysis_risk_level : RiskLevel;
  total_objects : Z
}.

Definition empty_zone : ZoneAnalysis :=
  {| object_count := 0; objects := []; total_area := 0; density := 0.0;
     blocked := false; risk_level := risk_safe; avg_risk_score := 0.0;
     passable := true |}.

Definition _get_empty_analysis (frame_shape : FrameShape) : Analysis :=
  {| zones := mkZones empty_zone empty_zone empty_zone;
     center_blocked := false;
     recommended_direction := Some forward;
     analysis_confidence := 1.0;
     analysis_safe_zones := [zone_left; zone_center; zone_right];
     analysis_risk_level := risk_safe;
     total_objects := 0 |}.

Definition analyze_regions (config : Config) (detections : list Detection.t)
  (frame_shape : FrameShape) : result Analysis :=
  match detections with
  | [] => Ok (_get_empty_analysis frame_shape)
  | _ :: _ =>
    let '(height, width) := frame_shape in
    let zones := _calculate_zone_boundaries width height in
    l <- _analyze_zone config detections (at_left zones) frame_shape ;;
    c <- _analyze_zone config detections (at_center zones) frame_shape ;;
    r <- _analyze_zone config detections (at_right zones) frame_shape ;;
    let zone_analysis := mkZones l c r in
    let navigation_decision := _make_navigation_decision zone_analysis in
    Ok {| zones := zone_analysis;
          center_blocked := blocked c;
          recommended_direction := direction navigation_decision;
          analysis_confidence := nav_confidence navigation_decision;
          analysis_safe_zones := safe_zones navigation_decision;
          analysis_risk_level := overall_risk navigation_decision;
          total_objects := len detections |}
  end.

End NavigationGuide.

(* ================================================================= *)
(** ** Tracks: class [TrackedObject] of [object_tracker.py] *)

Module TrackedObject.

Record t : Type := mk {
  track_id : Z;
  class_id : Z;
  class_name : string;
  positions : list (Z * Z);
  bboxes : list BBox;
  areas : list Z;
  confidences : list Q;
  first_seen : Q;
  last_seen : Q;
  last_alert_time : Q;
  consecutive_detections : Z;
  missed_frames : Z;
  is_stable : bool;
  min_stable_frames : Z;
  distances : list Q;
  distance_history : list Q;
  alert_count : Z;
  last_distance_alert : Q
}.

(** [l.append(x)] followed by [if len(l) > n: l.pop(0)]. *)
Definition append_bounded {A} (n : Z) (l : list A) (x : A) : list A :=
  let l' := l ++ [x] in
  if (n <? len l')%Z then List.tl l' else l'.

(** [TrackedObject(detection, track_id)]: [now1] and [now2] are the two
    clock readings of the constructor. *)
Definition __init__ (detection : Detection.t) (track_id : Z) (now1 now2 : Q) : t :=
  {| track_id := track_id;
     class_id := Detection.class_id detection;
     class_name := Detection.class_name detection;
     positions := [center detection];
     bboxes := [bbox detection];
     areas := [area detection];
     confidences := [confidence detection];
     first_seen := now1;
     last_seen := now2;
     last_alert_time := 0;
     consecutive_detections := 1;
     missed_frames := 0;
     is_stable := false;
     min_stable_frames := 3;
     distances := [];
     distance_history := [];
     alert_count := 0;
     last_distance_alert := 0 |}.

Definition update (self : t) (detection : Detection.t) (now : Q) : t :=
  let current_time := now in
  let consecutive := (consecutive_detections self + 1)%Z in
  {| track_id := track_id self;
     class_id := class_id self;
     class_name := class_name self;
     positions := append_bounded 10 (positions self) (center detection);
     bboxes := append_bounded 10 (bboxes self) (bbox detection);
     areas := append_bounded 10 (areas self) (area detection);
     confidences := append_bounded 10 (confidences self) (confidence detection);
     first_seen := first_seen self;
     last_seen := current_time;
     last_alert_time := last_alert_time self;
     consecutive_detections := consecutive;
     missed_frames := 0;
     is_stable :=
       if (min_stable_frames self <=? consecutive)%Z then true
       else is_stable self;
     min_stable_frames := min_stable_frames self;
     distances :=
       match distance_meters detection with
       | Some d => append_bounded 5 (distances self) d
       | None => distances self
       end;
     distance_history := distance_history self;
     alert_count := alert_count self;
     last_distance_alert := last_distance_alert self |}.

Definition miss_frame (self : t) : t :=
  {| track_id := track_id self;
     class_id := class_id self;
     class_name := class_name self;
     positions := positions self;
     bboxes := bboxes self;
     areas := areas self;
     confidences := confidences self;
     first_seen := first_seen self;
     last_seen := last_seen self;
     last_alert_time := last_alert_time self;
     consecutive_detections := 0;
     missed_frames := (missed_frames self + 1)%Z;
     is_stable := is_stable self;
     min_stable_frames := min_stable_frames self;
     distances := distances self;
     distance_history := distance_history self;
     alert_count := alert_count self;
     last_distance_alert := last_distance_alert self |}.

(** The dict [get_current_detection] builds, [None] when the track has no
    position.  The four histories are appended to together, so the
    [\[-1\]] reads succeed whenever [positions] is non-empty. *)
Definition get_current_detection (self : t) (now : Q) : option Detection.t :=
  match positions self with
  | [] => None
  | p0 :: _ =>
    let avg_confidence := Qmean (confidences self) in
    let current_bbox := last_or (bboxes self) (0, 0, 0, 0)%Z in
    let current_center := last_or (positions self) p0 in
    let current_area := last_or (areas self) 0%Z in
    let avg_distance :=
      match distances self with
      | [] => None
      | _ :: _ => Some (Qmean (distances self))
      end in
    Some {| Detection.class_id := class_id self;
            Detection.class_name := class_name self;
            confidence := avg_confidence;
            bbox := current_bbox;
            center := current_center;
            area := current_area;
            urgency := None;
            distance_level := None;
            distance_meters := avg_distance;
            Detection.track_id := Some (track_id self);
            should_alert_flag := None;
            should_distance_alert_flag := None;
            is_stable_flag := Some (is_stable self);
            age := Some (now - first_seen self);
            consecutive_detections_key := Some (consecutive_detections self);
            alert_count_key := Some (alert_count self) |}
  end.

Definition set_last_alert (self : t) (now : Q) : t :=
  {| track_id := track_id self;
     class_id := class_id self;
     class_name := class_name self;
     positions := positions self;
     bboxes := bboxes self;
     areas := areas self;
     confidences := confidences self;
     first_seen := first_seen self;
     last_seen := last_seen self;
     last_alert_time := now;
     consecutive_detections := consecutive_detections self;
     missed_frames := missed_frames self;
     is_stable := is_stable self;
     min_stable_frames := min_stable_frames self;
     distances := distances self;
     distance_history := distance_history self;
     alert_count := (alert_count self + 1)%Z;
     last_distance_alert := last_distance_alert self |}.

Definition set_last_distance_alert (self : t) (now : Q) : t :=
  {| track_id := track_id self;
     class_id := class_id self;
     class_name := class_name self;
     positions := positions self;
     bboxes := bboxes self;
     areas := areas self;
     confidences := confidences self;
     first_seen := first_seen self;
     last_seen := last_seen self;
     last_alert_time := last_alert_time self;
     consecutive_detections := consecutive_detections self;
     missed_frames := missed_frames self;
     is_stable := is_stable self;
     min_stable_frames := min_stable_frames self;
     distances := distances self;
     distance_history := distance_history self;
     alert_count := alert_count self;
     last_distance_alert := now |}.

(** [should_alert(alert_interval)]: the answer and the track after the
    call. *)
Definition should_alert (self : t) (alert_interval : Q) (now : Q) : bool * t :=
  let current_time := now in
  if negb (is_stable self) then (false, self)
  else if Qgeb (current_time - last_alert_time self) alert_interval then
    (true, set_last_alert self current_time)
  else (false, self).

(** The interval [should_distance_alert] picks for an average
    distance. *)
Definition distance_interval (distance_alert_interval avg_distance : Q) : Q :=
  if Qltb avg_distance 3 then distance_alert_interval / 2
  else if Qltb avg_distance 6 then distance_alert_interval
  else distance_alert_interval * 2.

Definition should_distance_alert (self : t) (distance_alert_interval : Q)
  (now : Q) : bool * t :=
  let current_time := now in
  if negb (is_stable self) ||
     match distances self with [] => true | _ :: _ => false end
  then (false, self)
  else
    let avg_distance := Qmean (distances self) in
    let interval := distance_interval distance_alert_interval avg_distance in
    if Qgeb (current_time - last_distance_alert self) interval then
      (true, set_last_distance_alert self current_time)
    else (false, self).

(** The default of the parameter [distance_alert_interval]. *)
Definition default_distance_alert_interval : Q := 5.0.

Definition is_expired (self : t) (max_age : Q) (max_missed : Z) (now : Q)
  : bool :=
  let current_time := now in
  let age_expired := Qgtb (current_time - last_seen self) max_age in
  let missed_expired := (max_missed <? missed_frames self)%Z in
  age_expired || missed_expired.

(** The defaults of [is_expired]. *)
Definition default_max_age : Q := 5.0.
Definition default_max_missed : Z := 10.

End TrackedObject.

(* ================================================================= *)
(** ** The clock *)

(** A computation that may call [time.time()]: it receives the number of
    calls made so far and returns its result with the new count. *)
Definition Clk (A : Type) : Type := nat -> A * nat.

Module ClkMonad.

Definition ret {A} (a : A) : Clk A := fun n => (a, n).

Definition bind {A B} (c : Clk A) (k : A -> Clk B) : Clk B :=
  fun n => let '(a, n') := c n in k a n'.

(** [time.time()] against the oracle [clock]. *)
Definition time_time (clock : nat -> Q) : Clk Q :=
  fun n => (clock n, S n).

Fixpoint mapM {A B} (f : A -> Clk B) (l : list A) : Clk (list B) :=
  match l with
  | [] => ret []
  | a :: r =>
    bind (f a) (fun b => bind (mapM f r) (fun bs => ret (b :: bs)))
  end.

Fixpoint foldM {A S} (f : S -> A -> Clk S) (l : list A) (s : S) : Clk S :=
  match l with
  | [] => ret s
  | a :: r => bind (f s a) (fun s' => foldM f r s')
  end.

End ClkMonad.

Module ClkNotations.
Notation "x <~ c1 ;; c2" := (ClkMonad.bind c1 (fun x => c2))
  (at level 61, c1 at next level, right associativity).
Notation "' p <~ c1 ;; c2" := (ClkMonad.bind c1 (fun p => c2))
  (at level 61, p pattern, c1 at next level, right associativity).
End ClkNotations.

(* ================================================================= *)
(** ** Insertion-ordered dicts keyed by track id *)

Module Dict.

Definition t (V : Type) : Type := list (Z * V).

Definition keys {V} (d : t V) : list Z := map fst d.
Definition values {V} (d : t V) : list V := map snd d.

Fixpoint get {V} (k : Z) (d : t V) : option V :=
  match d with
  | [] => None
  | (k', v) :: r => if (k =? k')%Z then Some v else get k r
  end.

(** [d[k] = f(d[k])] for a key that is present; nothing for another. *)
Fixpoint modify {V} (k : Z) (f : V -> V) (d : t V) : t V :=
  match d with
  | [] => []
  | (k', v) :: r =>
    if (k =? k')%Z then (k', f v) :: r else (k', v) :: modify k f r
  end.

(** [d[k] = v]: in place for a present key, at the end for a new one. *)
Fixpoint set {V} (k : Z) (v : V) (d : t V) : t V :=
  match d with
  | [] => [(k, v)]
  | (k', v') :: r =>
    if (k =? k')%Z then (k', v) :: r else (k', v') :: set k v r
  end.

(** [del d[k]] for a key that is present. *)
Fixpoint del {V} (k : Z) (d : t V) : t V :=
  match d with
  | [] => []
  | (k', v) :: r => if (k =? k')%Z then r else (k', v) :: del k r
  end.

End Dict.

(* ================================================================= *)
(** ** The tracker: class [ObjectTracker] of [object_tracker.py] *)

Module ObjectTracker.

Import ClkMonad ClkNotations.

Record t : Type := mk {
  config : Config;
  tracked_objects : Dict.t TrackedObject.t;
  next_track_id : Z;
  max_distance_threshold : Q
}.

Definition __init__ (config : Config) : t :=
  {| config := config;
     tracked_objects := [];
     next_track_id := 1;
     max_distance_threshold := 100 |}.

Definition with_objects (self : t) (objs : Dict.t TrackedObject.t) : t :=
  {| config := config self;
     tracked_objects := objs;
     next_track_id := next_track_id self;
     max_distance_threshold := max_distance_threshold self |}.

Definition calculate_iou (box1 box2 : BBox) : Q :=
  let '(x1_1, y1_1, x2_1, y2_1) := box1 in
  let '(x1_2, y1_2, x2_2, y2_2) := box2 in
  let x1_i := Z.max x1_1 x1_2 in
  let y1_i := Z.max y1_1 y1_2 in
  let x2_i := Z.min x2_1 x2_2 in
  let y2_i := Z.min y2_1 y2_2 in
  if ((x2_i <=? x1_i) || (y2_i <=? y1_i))%Z then 0.0
  else
    let intersection := ((x2_i - x1_i) * (y2_i - y1_i))%Z in
    let area1 := ((x2_1 - x1_1) * (y2_1 - y1_1))%Z in
    let area2 := ((x2_2 - x1_2) * (y2_2 - y1_2))%Z in
    let union := (area1 + area2 - intersection)%Z in
    if (0 <? union)%Z then inject_Z intersection / inject_Z union else 0.0.

(** [typical_areas] of [estimate_distance]. *)
Definition typical_areas : list (string * Z) :=
  [ ("person", 50000); ("car", 80000); ("bicycle", 25000);
    ("motorcycle", 30000); ("bus", 120000); ("truck", 100000) ]%string%Z.

Record MatchResult : Type := mkMatchResult {
  matches : list (nat * Z);
  unmatched_detections : list nat;
  unmatched_tracks : list Z
}.

(** [l.remove(x)]: the first occurrence. *)
Fixpoint list_remove (x : Z) (l : list Z) : list Z :=
  match l with
  | [] => []
  | y :: r => if (x =? y)%Z then r else y :: list_remove x r
  end.

Definition mem (x : Z) (l : list Z) : bool := existsb (Z.eqb x) l.

Section WithOracles.

(** [clock n] is what the n-th call of [time.time()] returns; [sqrt] is
    [math.sqrt]. *)
Variable clock : nat -> Q.
Variable sqrt : Q -> Q.

Definition calculate_distance (center1 center2 : Z * Z) : Q :=
  sqrt (inject_Z ((fst center1 - fst center2) ^ 2 +
                  (snd center1 - snd center2) ^ 2)).

Definition estimate_distance (detection : Detection.t) : Q :=
  let class_name := Detection.class_name detection in
  let area := Detection.area detection in
  match DistanceChecker.dict_get class_name typical_areas with
  | Some typical_area =>
    let estimated_distance :=
      sqrt (inject_Z typical_area / inject_Z (Z.max area 1000)) * 3 in
    Qmax 1.0 (Qmin 50.0 estimated_distance)
  | None => 5.0
  end.

(** One entry of the similarity matrix. *)
Definition similarity (self : t) (detection : Detection.t)
  (last_detection : option Detection.t) : Q :=
  match last_detection with
  | Some last_detection =>
    if (Detection.class_id detection =? Detection.class_id last_detection)%Z
    then
      let iou := calculate_iou (bbox detection) (bbox last_detection) in
      let distance :=
        calculate_distance (center detection) (center last_detection) in
      let distance_similarity :=
        Qmax 0 (1 - distance / max_distance_threshold self) in
      iou * 0.7 + distance_similarity * 0.3
    else 0.0
  | None => 0.0
  end.

Definition similarity_row (self : t) (detection : Detection.t)
  : Clk (list Q) :=
  mapM (fun entry : Z * TrackedObject.t =>
          now <~ time_time clock ;;
          ret (similarity self detection
                 (TrackedObject.get_current_detection (snd entry) now)))
       (tracked_objects self).

(** The inner loop of the greedy assignment: the best unused track of a
    row, as [(best_similarity, best_track_idx)] with [None] for [-1]. *)
Fixpoint best_track (ids : list Z) (row : list Q) (used_tracks : list Z)
  (j : nat) (best : Q * option nat) : Q * option nat :=
  match ids, row with
  | track_id :: ids', s :: row' =>
    let best' :=
      if negb (mem track_id used_tracks) && Qgtb s (fst best)
      then (s, Some j) else best in
    best_track ids' row' used_tracks (S j) best'
  | _, _ => best
  end.

Record Greedy : Type := mkGreedy {
  g_matches : list (nat * Z);
  g_unmatched_detections : list nat;
  g_unmatched_tracks : list Z;
  g_used_tracks : list Z
}.

(** The outer loop of the greedy assignment, over the rows of the
    similarity matrix, [i] being the index of the detection. *)
Fixpoint greedy (ids : list Z) (matrix : list (list Q)) (i : nat) (g : Greedy)
  : Greedy :=
  match matrix with
  | [] => g
  | row :: rest =>
    let best := best_track ids row (g_used_tracks g) 0 (0.3, None) in
    let g' :=
      match snd best with
      | Some best_track_idx =>
        let track_id := nth best_track_idx ids 0%Z in
        {| g_matches := g_matches g ++ [(i, track_id)];
           g_unmatched_detections := g_unmatched_detections g;
           g_unmatched_tracks := list_remove track_id (g_unmatched_tracks g);
           g_used_tracks := track_id :: g_used_tracks g |}
      | None =>
        {| g_matches := g_matches g;
           g_unmatched_detections := g_unmatched_detections g ++ [i];
           g_unmatched_tracks := g_unmatched_tracks g;
           g_used_tracks := g_used_tracks g |}
      end in
    greedy ids rest (S i) g'
  end.

Definition match_detections (self : t) (detections : list Detection.t)
  : Clk MatchResult :=
  let unmatched_tracks := Dict.keys (tracked_objects self) in
  match detections with
  | [] => ret (mkMatchResult [] [] unmatched_tracks)
  | _ :: _ =>
    similarity_matrix <~ mapM (similarity_row self) detections ;;
    let g := greedy (Dict.keys (tracked_objects self)) similarity_matrix 0
               (mkGreedy [] [] unmatched_tracks []) in
    ret (mkMatchResult (g_matches g) (g_unmatched_detections g)
           (g_unmatched_tracks g))
  end.

(** The first loop of [update]: fill in the missing distance. *)
Definition with_distance (detection : Detection.t) : Detection.t :=
  match distance_meters detection with
  | Some _ => detection
  | None =>
    {| Detection.class_id := Detection.class_id detection;
       Detection.class_name := Detection.class_name detection;
       confidence := confidence detection;
       bbox := bbox detection;
       center := center detection;
       area := area detection;
       urgency := urgency detection;
       distance_level := distance_level detection;
       distance_meters := Some (estimate_distance detection);
       Detection.track_id := Detection.track_id detection;
       should_alert_flag := should_alert_flag detection;
       should_distance_alert_flag := should_distance_alert_flag detection;
       is_stable_flag := is_stable_flag detection;
       age := age detection;
       consecutive_detections_key := consecutive_detections_key detection;
       alert_count_key := alert_count_key detection |}
  end.

(** "Update matched tracks". *)
Definition update_matched (detections : list Detection.t)
  (objs : Dict.t TrackedObject.t) (m : nat * Z) : Clk (Dict.t TrackedObject.t) :=
  let '(det_idx, track_id) := m in
  match nth_error detections det_idx with
  | Some detection =>
    now <~ time_time clock ;;
    ret (Dict.modify track_id
           (fun o => TrackedObject.update o detection now) objs)
  | None => ret objs
  end.

(** "Create new tracks for unmatched detections". *)
Definition create_track (detections : list Detection.t) (self : t)
  (det_idx : nat) : Clk t :=
  match nth_error detections det_idx with
  | Some detection =>
    now1 <~ time_time clock ;;
    now2 <~ time_time clock ;;
    let new_track :=
      TrackedObject.__init__ detection (next_track_id self) now1 now2 in
    ret {| config := config self;
           tracked_objects :=
             Dict.set (next_track_id self) new_track (tracked_objects self);
           next_track_id := (next_track_id self + 1)%Z;
           max_distance_threshold := max_distance_threshold self |}
  | None => ret self
  end.

(** "Mark unmatched tracks as missed". *)
Definition mark_missed (objs : Dict.t TrackedObject.t) (ids : list Z)
  : Dict.t TrackedObject.t :=
  fold_left (fun d track_id => Dict.modify track_id TrackedObject.miss_frame d)
            ids objs.

(** The part of [update] before the expiry: distances, matching, matched
    tracks, new tracks, missed tracks. *)
Definition update_tracks (self : t) (detections : list Detection.t) : Clk t :=
  let detections := map with_distance detections in
  matching_result <~ match_detections self detections ;;
  objs <~ foldM (update_matched detections) (matches matching_result)
                (tracked_objects self) ;;
  self1 <~ foldM (create_track detections)
                 (unmatched_detections matching_result)
                 (with_objects self objs) ;;
  ret (with_objects self1
         (mark_missed (tracked_objects self1)
                      (unmatched_tracks matching_result))).

(** "Remove expired tracks": the ids collected by the first loop, one
    clock reading per track, in dict order. *)
Definition expired_tracks (objs : Dict.t TrackedObject.t) : Clk (list Z) :=
  foldM (fun (acc : list Z) (entry : Z * TrackedObject.t) =>
           now <~ time_time clock ;;
           if TrackedObject.is_expired (snd entry)
                TrackedObject.default_max_age
                TrackedObject.default_max_missed now
           then ret (acc ++ [fst entry]) else ret acc)
        objs [].

Definition remove_expired (self : t) : Clk t :=
  expired <~ expired_tracks (tracked_objects self) ;;
  ret (with_objects self
         (fold_left (fun d track_id => Dict.del track_id d)
                    expired (tracked_objects self))).

(** "Return stable tracked objects". *)
Definition stable_objects (self : t) : Clk (list Detection.t) :=
  foldM (fun (acc : list Detection.t) (tracked_obj : TrackedObject.t) =>
           if TrackedObject.is_stable tracked_obj then
             now <~ time_time clock ;;
             match TrackedObject.get_current_detection tracked_obj now with
             | Some detection => ret (acc ++ [detection])
             | None => ret acc
             end
           else ret acc)
        (Dict.values (tracked_objects self)) [].

Definition update (self : t) (detections : list Detection.t)
  : Clk (list Detection.t * t) :=
  self1 <~ update_tracks self detections ;;
  self2 <~ remove_expired self1 ;;
  stable <~ stable_objects self2 ;;
  ret (stable, self2).

(** One iteration of [get_objects_for_alerts]. *)
Definition alert_step (cfg : Config)
  (acc : list Detection.t * Dict.t TrackedObject.t)
  (entry : Z * TrackedObject.t) : Clk (list Detection.t * Dict.t TrackedObject.t) :=
  let '(alert_objects, done) := acc in
  let '(track_id, tracked_obj) := entry in
  now <~ time_time clock ;;
  let '(ok, tracked_obj) :=
    TrackedObject.should_alert tracked_obj (ALERT_INTERVAL cfg) now in
  if ok then
    now <~ time_time clock ;;
    match TrackedObject.get_current_detection tracked_obj now with
    | Some detection =>
      now <~ time_time clock ;;
      let '(dist_ok, tracked_obj) :=
        TrackedObject.should_distance_alert tracked_obj
          TrackedObject.default_distance_alert_interval now in
      let detection :=
        {| Detection.class_id := Detection.class_id detection;
           Detection.class_name := Detection.class_name detection;
           confidence := confidence detection;
           bbox := bbox detection;
           center := center detection;
           area := area detection;
           urgency := urgency detection;
           distance_level := distance_level detection;
           distance_meters := distance_meters detection;
           Detection.track_id := Detection.track_id detection;
           should_alert_flag := Some true;
           should_distance_alert_flag := Some dist_ok;
           is_stable_flag := is_stable_flag detection;
           age := age detection;
           consecutive_detections_key := consecutive_detections_key detection;
           alert_count_key := alert_count_key detection |} in
      ret (alert_objects ++ [detection], done ++ [(track_id, tracked_obj)])
    | None => ret (alert_objects, done ++ [(track_id, tracked_obj)])
    end
  else ret (alert_objects, done ++ [(track_id, tracked_obj)]).

Definition get_objects_for_alerts (self : t) : Clk (list Detection.t * t) :=
  ' (alert_objects, objs) <~
     foldM (alert_step (config self)) (tracked_objects self) ([], []) ;;
  ret (alert_objects, with_objects self objs).

End WithOracles.

End ObjectTracker.

(* ================================================================= *)
(** ** The alert producer: class [VoiceAlert] of [voice_alert.py] *)

Module VoiceAlert.

Local Open Scope string_scope.

Record AlertMessage : Type := mkAlertMessage {
  text : string;
  priority : Z;
  type : string;
  msg_track_id : option Z
}.

(** [queue.Queue()], built without a [maxsize]: a FIFO of unbounded
    depth.  [put] appends, whatever the depth. *)
Definition Queue : Type := list AlertMessage.

Definition put (q : Queue) (m : AlertMessage) : Queue := (q ++ [m])%list.
Definition qsize (q : Queue) : Z := len q.

Definition messages_en : list (string * string) :=
  [ ("person", "Person ahead");
    ("cat", "Cat ahead");
    ("dog", "Dog ahead");
    ("horse", "Horse ahead");
    ("sheep", "Sheep ahead");
    ("cow", "Cow ahead");
    ("elephant", "Elephant ahead");
    ("bear", "Bear ahead");
    ("zebra", "Zebra ahead");
    ("giraffe", "Giraffe ahead");
    ("bicycle", "Bicycle ahead");
    ("car", "Car ahead");
    ("motorcycle", "Motorcycle ahead");
    ("airplane", "Airplane ahead");
    ("bus", "Bus ahead");
    ("train", "Train ahead");
    ("truck", "Truck ahead");
    ("boat", "Boat ahead");
    ("traffic_light", "Traffic light ahead");
    ("fire_hydrant", "Fire hydrant ahead");
    ("stop_sign", "Stop sign ahead");
    ("parking_meter", "Parking meter ahead");
    ("bench", "Bench ahead");
    ("chair", "Chair ahead");
    ("couch", "Couch ahead");
    ("potted_plant", "Plant ahead");
    ("bed", "Bed ahead");
    ("dining_table", "Table ahead");
    ("toilet", "Toilet ahead");
    ("tv", "Television ahead");
    ("sports_ball", "Ball ahead");
    ("skateboard", "Skateboard ahead");
    ("surfboard", "Surfboard ahead");
    ("tennis_racket", "Tennis racket ahead");
    ("very_close", "Warning! Very close obstacle");
    ("close", "Close obstacle");
    ("medium", "Obstacle detected");
    ("turn_left", "Turn left");
    ("turn_right", "Turn right");
    ("stop", "Stop");
    ("clear_ahead", "Path is clear");
    ("system_ready", "System ready");
    ("sound_on", "Sound on");
    ("sound_off", "Sound off");
    ("multiple_objects", "Multiple obstacles detected") ]%string.

Definition messages_tr : list (string * string) :=
  [ ("person", "Önünüzde insan");
    ("cat", "Önünüzde kedi");
    ("dog", "Önünüzde köpek");
    ("horse", "Önünüzde at");
    ("sheep", "Önünüzde koyun");
    ("cow", "Önünüzde inek");
    ("elephant", "Önünüzde fil");
    ("bear", "Önünüzde ayı");
    ("zebra", "Önünüzde zebra");
    ("giraffe", "Önünüzde zürafa");
    ("bicycle", "Önünüzde bisiklet");
    ("car", "Önünüzde araba");
    ("motorcycle", "Önünüzde motosiklet");
    ("airplane", "Önünüzde uçak");
    ("bus", "Önünüzde otobüs");
    ("train", "Önünüzde tren");
    ("truck", "Önünüzde kamyon");
    ("boat", "Önünüzde tekne");
    ("traffic_light", "Önünüzde trafik ışığı");
    ("fire_hydrant", "Önünüzde yangın musluğu");
    ("stop_sign", "Önünüzde dur işareti");
    ("parking_meter", "Önünüzde parkometre");
    ("bench", "Önünüzde bank");
    ("chair", "Önünüzde sandalye");
    ("couch", "Önünüzde koltuk");
    ("potted_plant", "Önünüzde saksı");
    ("bed", "Önünüzde yatak");
    ("dining_table", "Önünüzde masa");
    ("toilet", "Önünüzde tuvalet");
    ("tv", "Önünüzde televizyon");
    ("sports_ball", "Önünüzde top");
    ("skateboard", "Önünüzde kaykay");
    ("surfboard", "Önünüzde sörf tahtası");
    ("tennis_racket", "Önünüzde tenis raketi");
    ("very_close", "Dikkat! Çok yakın engel");
    ("close", "Yakın engel");
    ("medium", "Engel tespit edildi");
    ("turn_left", "Sola dönün");
    ("turn_right", "Sağa dönün");
    ("stop", "Durun");
    ("clear_ahead", "Yol açık");
    ("system_ready", "Sistem hazır");
    ("sound_on", "Ses açık");
    ("sound_off", "Ses kapalı");
    ("multiple_objects", "Birden fazla engel tespit edildi") ]%string.

Record t : Type := mk {
  config : Config;
  is_enabled : bool;
  is_speaking : bool;
  alert_queue : Queue;
  stop_thread : bool;
  last_alerts : list (string * Q);
  last_direction_alert : Q;
  language : string;
  messages : list (string * list (string * string))
}.

(** The state [__init__] builds, before the speech engine and the worker
    thread are started; [TTS_LANGUAGE] is the language of the
    configuration when it has one. *)
Definition __init__ (config : Config) (TTS_LANGUAGE : option string) : t :=
  {| config := config;
     is_enabled := true;
     is_speaking := false;
     alert_queue := [];
     stop_thread := false;
     last_alerts := [];
     last_direction_alert := 0;
     language := match TTS_LANGUAGE with Some l => l | None => "en" end;
     messages := [("en", messages_en); ("tr", messages_tr)] |}.

Definition with_queue (self : t) (q : Queue) (alerts : list (string * Q)) : t :=
  {| config := config self;
     is_enabled := is_enabled self;
     is_speaking := is_speaking self;
     alert_queue := q;
     stop_thread := stop_thread self;
     last_alerts := alerts;
     last_direction_alert := last_direction_alert self;
     language := language self;
     messages := messages self |}.

(** [d[k] = v] on a dict keyed by strings. *)
Fixpoint dict_set {V} (k : string) (v : V) (d : list (string * V))
  : list (string * V) :=
  match d with
  | [] => [(k, v)]
  | (k', v') :: r =>
    if String.eqb k k' then (k', v) :: r else (k', v') :: dict_set k v r
  end.

(** [round(x)] of a float: to the nearest integer, ties to the even
    one. *)
Definition py_round (x : Q) : Z :=
  let f := Qfloor x in
  let r := x - inject_Z f in
  if Qltb r 0.5 then f
  else if Qgtb r 0.5 then (f + 1)%Z
  else if Z.even f then f else (f + 1)%Z.

Section WithFormat.

(** [float_str x] is the text an f-string gives the float [x]. *)
Variable float_str : Q -> string.

(** The message and its urgency when the distance in metres is known. *)
Definition distance_message (lang base_message : string) (distance_meters : Q)
  : string * Z :=
  let rounded_distance := inject_Z (py_round (distance_meters * 2)) / 2 in
  let r := float_str rounded_distance in
  if String.eqb lang "tr" then
    if Qltb distance_meters 1 then
      ("Tehlike! " ++ base_message ++ ", " ++ "çok yakın, bir metreden az", 3%Z)
    else if Qltb distance_meters 2 then
      ("Dikkat! " ++ base_message ++ ", " ++ "çok yakın, " ++ r ++ " metre", 3%Z)
    else if Qltb distance_meters 4 then
      ("Uyarı! " ++ base_message ++ ", " ++ "yakın, " ++ r ++ " metre", 2%Z)
    else if Qltb distance_meters 8 then
      (base_message ++ ", " ++ r ++ " metre uzaklıkta", 1%Z)
    else
      (base_message ++ ", " ++ "uzak, " ++ r ++ " metre", 1%Z)
  else
    if Qltb distance_meters 1 then
      ("Danger! " ++ base_message ++ ", " ++ "very close, less than one meter",
       3%Z)
    else if Qltb distance_meters 2 then
      ("Warning! " ++ base_message ++ ", " ++ "very close, " ++ r ++ " meters",
       3%Z)
    else if Qltb distance_meters 4 then
      ("Caution! " ++ base_message ++ ", " ++ "close, " ++ r ++ " meters", 2%Z)
    else if Qltb distance_meters 8 then
      (base_message ++ ", " ++ r ++ " meters away", 1%Z)
    else
      (base_message ++ ", " ++ "far, " ++ r ++ " meters away", 1%Z).

(** The message and its urgency from the distance level alone. *)
Definition level_message (base_message : string) (distance_level : DistanceLevel)
  : string * Z :=
  match distance_level with
  | very_close => ("Warning! " ++ base_message ++ ", very close", 3%Z)
  | close => ("Caution! " ++ base_message, 2%Z)
  | _ => (base_message, 1%Z)
  end.

(** What [alert_close_object] did with the detection. *)
Inductive Outcome : Type :=
| Muted          (* sound is off *)
| NotMarked      (* a tracked object not marked for an alert *)
| Throttled      (* an untracked object alerted too recently *)
| Enqueued.

Definition alert_close_object (self : t) (detection : Detection.t) (now : Q)
  : Outcome * t :=
  if negb (is_enabled self) then (Muted, self)
  else
    let class_name := Detection.class_name detection in
    let distance_level :=
      match Detection.distance_level detection with
      | Some l => l
      | None => medium
      end in
    let urgency :=
      match Detection.urgency detection with Some u => u | None => 1%Z end in
    let distance_meters := Detection.distance_meters detection in
    let current_time := now in
    let track_id := Detection.track_id detection in
    let should_alert :=
      match should_alert_flag detection with Some b => b | None => false end in
    let should_distance_alert :=
      match should_distance_alert_flag detection with
      | Some b => b
      | None => false
      end in
    if truthyZ track_id && negb should_alert && negb should_distance_alert
    then (NotMarked, self)
    else
      let last_alert_key := class_name ++ "_" ++ level_name distance_level in
      let throttled :=
        if negb (truthyZ track_id) then
          match DistanceChecker.dict_get last_alert_key (last_alerts self) with
          | Some last =>
            let time_since_last := current_time - last in
            let min_interval :=
              ALERT_INTERVAL (config self) / inject_Z (Z.max urgency 1) in
            Qltb time_since_last min_interval
          | None => false
          end
        else false in
      if throttled then (Throttled, self)
      else
        let alerts :=
          if negb (truthyZ track_id)
          then dict_set last_alert_key current_time (last_alerts self)
          else last_alerts self in
        let lang_messages :=
          match DistanceChecker.dict_get (language self) (messages self) with
          | Some m => m
          | None =>
            match DistanceChecker.dict_get "en" (messages self) with
            | Some m => m
            | None => []
            end
          end in
        let base_message :=
          match DistanceChecker.dict_get class_name lang_messages with
          | Some m => m
          | None =>
            if String.eqb (language self) "en" then class_name ++ " ahead"
            else "Önünüzde " ++ class_name
          end in
        let '(message, urgency) :=
          match distance_meters with
          | Some d =>
            if negb (Qeq_bool d 0)
            then distance_message (language self) base_message d
            else level_message base_message distance_level
          | None => level_message base_message distance_level
          end in
        (Enqueued,
         with_queue self
           (put (alert_queue self)
                {| text := message; priority := urgency;
                   type := "object_alert"; msg_track_id := track_id |})
           alerts).

Definition emergency_alert (self : t) (message : string) : t :=
  if negb (is_enabled self) then self
  else
    with_queue self
      (put (alert_queue self)
           {| text := "EMERGENCY! " ++ message; priority := 3;
              type := "emergency"; msg_track_id := None |})
      (last_alerts self).

End WithFormat.

Definition is_queue_full (self : t) : bool :=
  (MAX_ALERT_QUEUE_SIZE (config self) <=? qsize (alert_queue self))%Z.

Definition get_queue_size (self : t) : Z := qsize (alert_queue self).

End VoiceAlert.


(* ================================================================= *)
(** ** The runner: the continuous alerts of [tests/test_windows.py] *)

Module WindowsRunner.

(** "Determine alert interval based on distance". *)
Definition alert_interval (distance : Q) : Q :=
  if Qltb distance 3 then 3.0
  else if Qltb distance 6 then 6.0
  else 10.0.

(** One pass of the loop "Continuous alerts for all stable tracked
    objects" over one detection: whether the alert is sent, and
    [self.last_track_alerts] afterwards, keyed here by the track id the
    source formats into the key. *)
Definition continuous_alert (last_track_alerts : Dict.t Q)
  (detection : Detection.t) (current_time : Q) : bool * Dict.t Q :=
  match is_stable_flag detection with
  | Some true =>
    let track_id :=
      match Detection.track_id detection with Some i => i | None => 0%Z end in
    let distance :=
      match distance_meters detection with Some d => d | None => 10 end in
    let alert_interval := alert_interval distance in
    let last_time :=
      match Dict.get track_id last_track_alerts with
      | Some t => t
      | None => 0
      end in
    if Qgeb (current_time - last_time) alert_interval then
      (true, Dict.set track_id current_time last_track_alerts)
    else (false, last_track_alerts)
  | _ => (false, last_track_alerts)
  end.

End WindowsRunner.

(* ================================================================= *)
(** ** More of the risk classifier: the callers of
       [calculate_distance_info] *)

Module DistanceCheckerOps.

Import PyNotations.

(** A detection dict after [close_object.update(distance_info)]: the
    detection with its keys [urgency] and [distance_level] overwritten,
    and the three keys a detection does not have. *)
Record CloseObject : Type := mkCloseObject {
  close_detection : Detection.t;
  close_relative_size : Q;
  close_is_close : bool;
  close_size_percentage : Q
}.

Definition merge (detection : Detection.t)
  (distance_info : DistanceChecker.DistanceInfo) : CloseObject :=
  {| close_detection :=
       {| Detection.class_id := Detection.class_id detection;
          Detection.class_name := Detection.class_name detection;
          confidence := confidence detection;
          bbox := bbox detection;
          center := center detection;
          area := area detection;
          urgency := Some (DistanceChecker.info_urgency distance_info);
          distance_level := Some (DistanceChecker.info_level distance_info);
          distance_meters := distance_meters detection;
          Detection.track_id := Detection.track_id detection;
          should_alert_flag := should_alert_flag detection;
          should_distance_alert_flag := should_distance_alert_flag detection;
          is_stable_flag := is_stable_flag detection;
          age := age detection;
          consecutive_detections_key := consecutive_detections_key detection;
          alert_count_key := alert_count_key detection |};
     close_relative_size := DistanceChecker.relative_size distance_info;
     close_is_close := DistanceChecker.is_close distance_info;
     close_size_percentage := DistanceChecker.size_percentage distance_info |}.

(** [list.sort(key=lambda x: x['relative_size'], reverse=True)]: a stable
    sort, largest first; elements of equal size keep their order. *)
Fixpoint insert_by_size (x : CloseObject) (l : list CloseObject)
  : list CloseObject :=
  match l with
  | [] => [x]
  | y :: r =>
    if Qgeb (close_relative_size y) (close_relative_size x)
    then y :: insert_by_size x r
    else x :: y :: r
  end.

Definition sort_by_size (l : list CloseObject) : list CloseObject :=
  fold_left (fun acc x => insert_by_size x acc) l [].

(** The loop of [check_distances]. *)
Fixpoint collect_close (detections : list Detection.t) (frame_area : Z)
  (close_objects : list CloseObject) : result (list CloseObject) :=
  match detections with
  | [] => Ok close_objects
  | detection :: rest =>
    distance_info <-
      DistanceChecker.calculate_distance_info detection frame_area ;;
    if DistanceChecker.is_close distance_info
    then collect_close rest frame_area
           (close_objects ++ [merge detection distance_info])
    else collect_close rest frame_area close_objects
  end.

Definition check_distances (detections : list Detection.t)
  (frame_shape : NavigationGuide.FrameShape) : result (list CloseObject) :=
  match detections with
  | [] => Ok []
  | _ :: _ =>
    let '(height, width) := frame_shape in
    let frame_area := (height * width)%Z in
    close_objects <- collect_close detections frame_area [] ;;
    Ok (sort_by_size close_objects)
  end.

Definition get_closest_object (detections : list Detection.t)
  (frame_shape : NavigationGuide.FrameShape) : result (option CloseObject) :=
  close_objects <- check_distances detections frame_shape ;;
  match close_objects with
  | c :: _ => Ok (Some c)
  | [] => Ok None
  end.

Inductive OverallRisk : Type :=
| overall_low | overall_medium | overall_high.

Record CollisionRisk : Type := mkCollisionRisk {
  overall_risk : OverallRisk;
  high_risk_count : Z;
  medium_risk_count : Z;
  high_risk_objects : list Detection.t;
  medium_risk_objects : list Detection.t;
  total_objects : Z
}.

(** The loop of [check_collision_risk]. *)
Fixpoint collect_risks (detections : list Detection.t) (frame_area : Z)
  (acc : list Detection.t * list Detection.t)
  : result (list Detection.t * list Detection.t) :=
  match detections with
  | [] => Ok acc
  | detection :: rest =>
    let '(high_risk_objects, medium_risk_objects) := acc in
    distance_info <-
      DistanceChecker.calculate_distance_info detection frame_area ;;
    if (3 <=? DistanceChecker.info_urgency distance_info)%Z then
      collect_risks rest frame_area
        (high_risk_objects ++ [detection], medium_risk_objects)
    else if (2 <=? DistanceChecker.info_urgency distance_info)%Z then
      collect_risks rest frame_area
        (high_risk_objects, medium_risk_objects ++ [detection])
    else collect_risks rest frame_area acc
  end.

Definition check_collision_risk (detections : list Detection.t)
  (frame_shape : NavigationGuide.FrameShape) : result CollisionRisk :=
  let '(height, width) := frame_shape in
  let frame_area := (height * width)%Z in
  risks <- collect_risks detections frame_area ([], []) ;;
  let '(high_risk_objects, medium_risk_objects) := risks in
  let overall_risk :=
    match high_risk_objects, medium_risk_objects with
    | _ :: _, _ => overall_high
    | [], _ :: _ => overall_medium
    | [], [] => overall_low
    end in
  Ok {| overall_risk := overall_risk;
        high_risk_count := len high_risk_objects;
        medium_risk_count := len medium_risk_objects;
        high_risk_objects := high_risk_objects;
        medium_risk_objects := medium_risk_objects;
        total_objects := len detections |}.

(** The risk levels [get_safe_zones] gives a zone: ['low'],
    ['low-medium'], ['medium'], ['high']. *)
Inductive ZoneRisk : Type :=
| zr_low | zr_low_medium | zr_medium | zr_high.

Record SafeZone : Type := mkSafeZone {
  safe : bool;
  zone_object_count : Z;
  zone_risk_level : ZoneRisk
}.

Definition zone_set {A} (z : NavigationGuide.Zones A)
  (n : NavigationGuide.ZoneName) (a : A) : NavigationGuide.Zones A :=
  match n with
  | NavigationGuide.zone_left =>
    NavigationGuide.mkZones a (NavigationGuide.at_center z)
      (NavigationGuide.at_right z)
  | NavigationGuide.zone_center =>
    NavigationGuide.mkZones (NavigationGuide.at_left z) a
      (NavigationGuide.at_right z)
  | NavigationGuide.zone_right =>
    NavigationGuide.mkZones (NavigationGuide.at_left z)
      (NavigationGuide.at_center z) a
  end.

(** The zone [get_safe_zones] puts a centre column in. *)
Definition zone_of (center_x width : Z) : NavigationGuide.ZoneName :=
  if (center_x <? width / 3)%Z then NavigationGuide.zone_left
  else if (center_x <? 2 * width / 3)%Z then NavigationGuide.zone_center
  else NavigationGuide.zone_right.

(** What one detection of urgency [u] does to its zone. *)
Definition count_in_zone (u : Z) (z : SafeZone) : SafeZone :=
  let count := (zone_object_count z + 1)%Z in
  if (3 <=? u)%Z then
    {| safe := false; zone_object_count := count; zone_risk_level := zr_high |}
  else if (2 <=? u)%Z then
    {| safe := safe z; zone_object_count := count;
       zone_risk_level :=
         match zone_risk_level z with
         | zr_high => zr_high
         | _ => zr_medium
         end |}
  else if (1 <=? u)%Z then
    {| safe := safe z; zone_object_count := count;
       zone_risk_level :=
         match zone_risk_level z with
         | zr_low => zr_low_medium
         | r => r
         end |}
  else
    {| safe := safe z; zone_object_count := count;
       zone_risk_level := zone_risk_level z |}.

(** The loop of [get_safe_zones]. *)
Fixpoint fill_zones (detections : list Detection.t) (height width : Z)
  (zones : NavigationGuide.Zones SafeZone)
  : result (NavigationGuide.Zones SafeZone) :=
  match detections with
  | [] => Ok zones
  | detection :: rest =>
    let center_x := fst (center detection) in
    distance_info <-
      DistanceChecker.calculate_distance_info detection (height * width) ;;
    let zone := zone_of center_x width in
    fill_zones rest height width
      (zone_set zones zone
         (count_in_zone (DistanceChecker.info_urgency distance_info)
                        (NavigationGuide.zone_get zones zone)))
  end.

Definition get_safe_zones (detections : list Detection.t)
  (frame_shape : NavigationGuide.FrameShape)
  : result (NavigationGuide.Zones SafeZone) :=
  let '(height, width) := frame_shape in
  let fresh := {| safe := true; zone_object_count := 0;
                  zone_risk_level := zr_low |} in
  fill_zones detections height width
    (NavigationGuide.mkZones fresh fresh fresh).

(** [should_alert(detection, frame_area, last_alert_time,
    min_alert_interval)], [now] being its reading of the clock. *)
Definition should_alert (detection : Detection.t) (frame_area : Z)
  (last_alert_time min_alert_interval : Q) (now : Q) : result bool :=
  distance_info <-
    DistanceChecker.calculate_distance_info detection frame_area ;;
  let current_time := now in
  let urgency := DistanceChecker.info_urgency distance_info in
  if (3 <=? urgency)%Z then
    Ok (Qgeb (current_time - last_alert_time) (min_alert_interval / 2))
  else if (2 <=? urgency)%Z then
    Ok (Qgeb (current_time - last_alert_time) min_alert_interval)
  else if (1 <=? urgency)%Z then
    Ok (Qgeb (current_time - last_alert_time) (min_alert_interval * 2))
  else Ok false.

End DistanceCheckerOps.

(* ================================================================= *)
(** ** More of the navigation guide *)

Module PathRecommendation.

Local Open Scope string_scope.

Record t : Type := mk {
  action : string;
  direction : option NavigationGuide.Direction;
  confidence : Q;
  urgency : string;
  safe_zone_count : Z;
  alternative_paths : list NavigationGuide.ZoneName
}.

Definition is_center (n : NavigationGuide.ZoneName) : bool :=
  match n with
  | NavigationGuide.zone_center => true
  | _ => false
  end.

Definition get_path_recommendation (analysis : NavigationGuide.Analysis) : t :=
  let direction := NavigationGuide.recommended_direction analysis in
  let confidence := NavigationGuide.analysis_confidence analysis in
  let safe_zones := NavigationGuide.analysis_safe_zones analysis in
  let '(action, urgency) :=
    match direction with
    | Some NavigationGuide.forward => ("İleri devam edin", "normal")
    | Some NavigationGuide.left => ("Sola dönün", "medium")
    | Some NavigationGuide.right => ("Sağa dönün", "medium")
    | Some NavigationGuide.stop => ("Durun ve bekleyin", "high")
    | None => ("Dikkatli ilerleyin", "low")
    end in
  {| action := action;
     direction := direction;
     confidence := confidence;
     urgency := urgency;
     safe_zone_count := len safe_zones;
     alternative_paths := filter (fun zone => negb (is_center zone)) safe_zones |}.

End PathRecommendation.
(* ================================================================= *)
(** * Vocabulary of the properties, and sample inputs *)

Unset Implicit Arguments.

Local Open Scope string_scope.

(** Well-formed axis-aligned boxes: [x1 < x2] and [y1 < y2]. *)
Definition well_formed (b : BBox) : Prop :=
  let '(x1, y1, x2, y2) := b in (x1 < x2)%Z /\ (y1 < y2)%Z.

(** The centre the detector gives a box. *)
Definition midpoint (b : BBox) : Z * Z :=
  let '(x1, y1, x2, y2) := b in (((x1 + x2) / 2)%Z, ((y1 + y2) / 2)%Z).

(** Two boxes are disjoint when one lies entirely to one side of the
    other (a shared edge is no overlap). *)
Definition disjoint (a b : BBox) : Prop :=
  let '(ax1, ay1, ax2, ay2) := a in
  let '(bx1, by1, bx2, by2) := b in
  (ax2 <= bx1 \/ bx2 <= ax1 \/ ay2 <= by1 \/ by2 <= ay1)%Z.

(** The scenario of the specification: a person of 100 by 100 pixels in
    the middle of a 640 by 480 frame. *)
Definition person_box : Detection.t :=
  Detection.raw 0 "person" 0.9 (270, 190, 370, 290)%Z.

(** A detection with the key [urgency] set. *)
Definition with_urgency (d : Detection.t) (u : Z) : Detection.t :=
  {| Detection.class_id := Detection.class_id d;
     Detection.class_name := Detection.class_name d;
     confidence := confidence d;
     bbox := bbox d;
     center := center d;
     area := area d;
     urgency := Some u;
     distance_level := distance_level d;
     distance_meters := distance_meters d;
     Detection.track_id := Detection.track_id d;
     should_alert_flag := should_alert_flag d;
     should_distance_alert_flag := should_distance_alert_flag d;
     is_stable_flag := is_stable_flag d;
     age := age d;
     consecutive_detections_key := consecutive_detections_key d;
     alert_count_key := alert_count_key d |}.

(** A detection with the key [distance_meters] set. *)
Definition with_meters (d : Detection.t) (m : Q) : Detection.t :=
  {| Detection.class_id := Detection.class_id d;
     Detection.class_name := Detection.class_name d;
     confidence := confidence d;
     bbox := bbox d;
     center := center d;
     area := area d;
     urgency := urgency d;
     distance_level := distance_level d;
     distance_meters := Some m;
     Detection.track_id := Detection.track_id d;
     should_alert_flag := should_alert_flag d;
     should_distance_alert_flag := should_distance_alert_flag d;
     is_stable_flag := is_stable_flag d;
     age := age d;
     consecutive_detections_key := consecutive_detections_key d;
     alert_count_key := alert_count_key d |}.

(** ** Risk classifier *)

Definition thresholds_ordered (th : DistanceChecker.Thresholds) : Prop :=
  0 < DistanceChecker.th_medium th /\
  DistanceChecker.th_medium th <= DistanceChecker.th_close th /\
  DistanceChecker.th_close th <= DistanceChecker.th_very_close th.

(** The descending threshold ladder, read off a result. *)
Definition ladder (th : DistanceChecker.Thresholds)
  (info : DistanceChecker.DistanceInfo) : Prop :=
  let rs := DistanceChecker.relative_size info in
  let vc := DistanceChecker.th_very_close th in
  let c := DistanceChecker.th_close th in
  let m := DistanceChecker.th_medium th in
  (vc <= rs ->
   DistanceChecker.info_level info = very_close /\
   DistanceChecker.info_urgency info = 3%Z /\
   DistanceChecker.is_close info = true) /\
  (rs < vc -> c <= rs ->
   DistanceChecker.info_level info = close /\
   DistanceChecker.info_urgency info = 2%Z /\
   DistanceChecker.is_close info = true) /\
  (rs < vc -> rs < c -> m <= rs ->
   DistanceChecker.info_level info = medium /\
   DistanceChecker.info_urgency info = 1%Z /\
   DistanceChecker.is_close info = true) /\
  (rs < vc -> rs < c -> rs < m ->
   DistanceChecker.info_level info = far /\
   DistanceChecker.info_urgency info = 0%Z /\
   DistanceChecker.is_close info = false).

(** ** Zones *)

(** The two inner zone boundaries of a frame of width [w]. *)
Definition left_boundary (w : Z) : Z := py_int (inject_Z w * 0.33).
Definition right_boundary (w : Z) : Z := py_int (inject_Z w * 0.67).

(** The zones [_analyze_zone] counts a detection in. *)
Definition member_zones (d : Detection.t)
  (z : NavigationGuide.Zones NavigationGuide.ZoneBounds)
  : list NavigationGuide.ZoneName :=
  filter (fun n =>
            NavigationGuide._is_object_in_zone d (NavigationGuide.zone_get z n))
         [NavigationGuide.zone_left; NavigationGuide.zone_center;
          NavigationGuide.zone_right].

Definition center_inside_frame (d : Detection.t) (w h : Z) : Prop :=
  (0 <= fst (center d) <= w)%Z /\ (0 <= snd (center d) <= h)%Z.

(** A 640 by 480 frame with a large and a small person in each zone. *)
Definition crowded_frame : list Detection.t :=
  [ Detection.raw 0 "person" 0.9 (20, 160, 180, 320)%Z;
    Detection.raw 0 "person" 0.9 (90, 40, 110, 60)%Z;
    Detection.raw 0 "person" 0.9 (240, 160, 400, 320)%Z;
    Detection.raw 0 "person" 0.9 (310, 40, 330, 60)%Z;
    Detection.raw 0 "person" 0.9 (450, 160, 610, 320)%Z;
    Detection.raw 0 "person" 0.9 (520, 40, 540, 60)%Z ].

(** A box whose centre, [(33, 50)], is on the boundary between the left
    and the centre zone of a frame 100 wide. *)
Definition boundary_object : Detection.t :=
  Detection.raw 0 "person" 0.9 (23, 40, 43, 60)%Z.

(** ** Life of a track *)

(** What a frame does to a track: the tracker matches it with a detection
    (at the clock reading [now]) or misses it. *)
Inductive FrameEvent : Type :=
| Matched (detection : Detection.t) (now : Q)
| Missed.

Definition track_step (t : TrackedObject.t) (e : FrameEvent)
  : TrackedObject.t :=
  match e with
  | Matched detection now => TrackedObject.update t detection now
  | Missed => TrackedObject.miss_frame t
  end.

(** The track created from [detection] and taken through the frames
    [evs]. *)
Definition track_after (detection : Detection.t) (track_id : Z) (now1 now2 : Q)
  (evs : list FrameEvent) : TrackedObject.t :=
  fold_left track_step evs
    (TrackedObject.__init__ detection track_id now1 now2).

Definition is_matched (e : FrameEvent) : bool :=
  match e with
  | Matched _ _ => true
  | Missed => false
  end.

Fixpoint leading_matches (l : list FrameEvent) : nat :=
  match l with
  | Matched _ _ :: r => S (leading_matches r)
  | _ => O
  end.

(** The number of consecutive matched frames at the end of the life so
    far of a track, the frame that created it included. *)
Definition consecutive_matches (evs : list FrameEvent) : Z :=
  (Z.of_nat (leading_matches (rev evs)) +
   if forallb is_matched evs then 1 else 0)%Z.

(** Every field but [last_alert_time] and [alert_count] agrees. *)
Definition same_but_alert (a b : TrackedObject.t) : Prop :=
  TrackedObject.track_id a = TrackedObject.track_id b /\
  TrackedObject.class_id a = TrackedObject.class_id b /\
  TrackedObject.class_name a = TrackedObject.class_name b /\
  TrackedObject.positions a = TrackedObject.positions b /\
  TrackedObject.bboxes a = TrackedObject.bboxes b /\
  TrackedObject.areas a = TrackedObject.areas b /\
  TrackedObject.confidences a = TrackedObject.confidences b /\
  TrackedObject.first_seen a = TrackedObject.first_seen b /\
  TrackedObject.last_seen a = TrackedObject.last_seen b /\
  TrackedObject.consecutive_detections a =
  TrackedObject.consecutive_detections b /\
  TrackedObject.missed_frames a = TrackedObject.missed_frames b /\
  TrackedObject.is_stable a = TrackedObject.is_stable b /\
  TrackedObject.min_stable_frames a = TrackedObject.min_stable_frames b /\
  TrackedObject.distances a = TrackedObject.distances b /\
  TrackedObject.distance_history a = TrackedObject.distance_history b /\
  TrackedObject.last_distance_alert a = TrackedObject.last_distance_alert b.

(** Every field but [last_distance_alert] agrees. *)
Definition same_but_distance_alert (a b : TrackedObject.t) : Prop :=
  TrackedObject.track_id a = TrackedObject.track_id b /\
  TrackedObject.class_id a = TrackedObject.class_id b /\
  TrackedObject.class_name a = TrackedObject.class_name b /\
  TrackedObject.positions a = TrackedObject.positions b /\
  TrackedObject.bboxes a = TrackedObject.bboxes b /\
  TrackedObject.areas a = TrackedObject.areas b /\
  TrackedObject.confidences a = TrackedObject.confidences b /\
  TrackedObject.first_seen a = TrackedObject.first_seen b /\
  TrackedObject.last_seen a = TrackedObject.last_seen b /\
  TrackedObject.last_alert_time a = TrackedObject.last_alert_time b /\
  TrackedObject.consecutive_detections a =
  TrackedObject.consecutive_detections b /\
  TrackedObject.missed_frames a = TrackedObject.missed_frames b /\
  TrackedObject.is_stable a = TrackedObject.is_stable b /\
  TrackedObject.min_stable_frames a = TrackedObject.min_stable_frames b /\
  TrackedObject.distances a = TrackedObject.distances b /\
  TrackedObject.distance_history a = TrackedObject.distance_history b /\
  TrackedObject.alert_count a = TrackedObject.alert_count b.

(** A person two metres away, and the track it gives after three
    consecutive frames (at the clock readings 0, 1 and 2). *)
Definition near_person : Detection.t := with_meters person_box 2.0.

Definition near_track : TrackedObject.t :=
  track_after near_person 1 0 0 [Matched near_person 1; Matched near_person 2].

(** ** Alerts *)

(** The dict the tracker hands to the voice alert for a track marked for
    an alert. *)
Definition marked_for_alert (d : Detection.t) (id : Z) : Detection.t :=
  {| Detection.class_id := Detection.class_id d;
     Detection.class_name := Detection.class_name d;
     confidence := confidence d;
     bbox := bbox d;
     center := center d;
     area := area d;
     urgency := urgency d;
     distance_level := distance_level d;
     distance_meters := distance_meters d;
     Detection.track_id := Some id;
     should_alert_flag := Some true;
     should_distance_alert_flag := should_distance_alert_flag d;
     is_stable_flag := is_stable_flag d;
     age := age d;
     consecutive_detections_key := consecutive_detections_key d;
     alert_count_key := alert_count_key d |}.

(** A voice alert whose queue holds [n] emergency messages. *)
Fixpoint voice_with_backlog (n : nat) : VoiceAlert.t :=
  match n with
  | O => VoiceAlert.__init__ default_config None
  | S k => VoiceAlert.emergency_alert (voice_with_backlog k) "obstacle"
  end.

(** A rendering of floats, for the examples. *)
Definition one_decimal (x : Q) : string :=
  if Qeq_bool x 2 then "2.0" else "?".

(** ** The track table *)

(** The table of a tracker is well formed when no id occurs twice and
    every id is below the next one to be given. *)
Definition wf_tracker (self : ObjectTracker.t) : Prop :=
  NoDup (Dict.keys (ObjectTracker.tracked_objects self)) /\
  Forall (fun k => (k < ObjectTracker.next_track_id self)%Z)
         (Dict.keys (ObjectTracker.tracked_objects self)).

(** A track that has been missed [n] frames in a row. *)
Definition missed_track (id : Z) (n : nat) : TrackedObject.t :=
  track_after person_box id 0 0 (repeat Missed n).

(** A tracker holding a track missed ten times and one missed eight
    times. *)
Definition ageing_tracker : ObjectTracker.t :=
  {| ObjectTracker.config := default_config;
     ObjectTracker.tracked_objects :=
       [(1%Z, missed_track 1 10); (2%Z, missed_track 2 8)];
     ObjectTracker.next_track_id := 3;
     ObjectTracker.max_distance_threshold := 100 |}.

(** A clock that stands still at one second. *)
Definition still_clock (n : nat) : Q := 1.

(** [is_expired()] with its default limits, at the clock reading
    [now]. *)
Definition expired_now (obj : TrackedObject.t) (now : Q) : bool :=
  TrackedObject.is_expired obj TrackedObject.default_max_age
    TrackedObject.default_max_missed now.

(** The ids the first loop of the expiry collects from a table whose
    first track reads [clock n]. *)
Fixpoint expired_from (clock : nat -> Q) (n : nat)
  (objs : Dict.t TrackedObject.t) : list Z :=
  match objs with
  | [] => []
  | (k, obj) :: r =>
    (if expired_now obj (clock n) then [k] else []) ++
    expired_from clock (S n) r
  end.

(** Every track of a table missed once more. *)
Definition all_missed (objs : Dict.t TrackedObject.t) : Dict.t TrackedObject.t :=
  map (fun entry : Z * TrackedObject.t =>
         (fst entry, TrackedObject.miss_frame (snd entry))) objs.

(** The dict the tracker returns for [near_track] at the clock reading
    [now]. *)
Definition near_view (now : Q) : Detection.t :=
  match TrackedObject.get_current_detection near_track now with
  | Some d => d
  | None => near_person
  end.

(** A tracker holding [near_track] alone. *)
Definition near_tracker : ObjectTracker.t :=
  {| ObjectTracker.config := default_config;
     ObjectTracker.tracked_objects := [(1%Z, near_track)];
     ObjectTracker.next_track_id := 2;
     ObjectTracker.max_distance_threshold := 100 |}.

(** A clock that starts at 100 seconds and advances by a tenth of a
    second at each reading. *)
Definition ticking_clock (n : nat) : Q := 100 + inject_Z (Z.of_nat n) / 10.

Local Close Scope string_scope.

(* ================================================================= *)
(** * Vocabulary of the further properties *)

(** The detection a track was last matched with: the one of its latest
    matched frame, or the one that created it. *)
Fixpoint last_detection (created : Detection.t) (evs : list FrameEvent)
  : Detection.t :=
  match evs with
  | [] => created
  | Matched d _ :: r => last_detection d r
  | Missed :: r => last_detection created r
  end.




(** The number of matched frames in the life of a track. *)
Definition matched_frames (evs : list FrameEvent) : nat :=
  List.length (filter is_matched evs).

(** The four histories of a track hold [n] entries each. *)
Definition histories_aligned (t : TrackedObject.t) (n : nat) : Prop :=
  List.length (TrackedObject.positions t) = n /\
  List.length (TrackedObject.bboxes t) = n /\
  List.length (TrackedObject.areas t) = n /\
  List.length (TrackedObject.confidences t) = n.

(** ** Matching *)

(** An entry of a row of the similarity matrix is the similarity of the
    detection of the row and the track of the column. *)
Definition row_of (sqrt : Q -> Q) (self : ObjectTracker.t) (detection : Detection.t)
  (row : list Q) : Prop :=
  Forall2 (fun (entry : Z * TrackedObject.t) s =>
             exists now,
               s = ObjectTracker.similarity sqrt self detection
                     (TrackedObject.get_current_detection (snd entry) now))
          (ObjectTracker.tracked_objects self) row.

(** What the inner loop has found so far, [ids] and [row] being the
    whole lists. *)
Definition best_ok (ids : list Z) (row : list Q) (used : list Z)
  (best : Q * option nat) : Prop :=
  0.3 <= fst best /\
  match snd best with
  | None => True
  | Some j =>
    exists tid, nth_error ids j = Some tid /\
                nth_error row j = Some (fst best) /\
                0.3 < fst best /\ ObjectTracker.mem tid used = false
  end.

(** A pair of the matching: the track is a column of the row of the
    detection whose similarity is above the threshold. *)
Definition match_ok (ids : list Z) (matrix : list (list Q)) (m : nat * Z)
  : Prop :=
  exists row j s,
    nth_error matrix (fst m) = Some row /\ nth_error ids j = Some (snd m) /\
    nth_error row j = Some s /\ 0.3 < s.

Definition greedy_ok (ids : list Z) (matrix : list (list Q)) (i : nat)
  (g : ObjectTracker.Greedy) : Prop :=
  Forall (match_ok ids matrix) (ObjectTracker.g_matches g) /\
  (forall tid, In tid (ObjectTracker.g_used_tracks g) <-> In tid (map snd (ObjectTracker.g_matches g))) /\
  NoDup (map snd (ObjectTracker.g_matches g)) /\
  NoDup (ObjectTracker.g_unmatched_tracks g) /\
  (forall tid, In tid (ObjectTracker.g_unmatched_tracks g) <->
               In tid ids /\ ~ In tid (ObjectTracker.g_used_tracks g)) /\
  Permutation
    (map fst (ObjectTracker.g_matches g) ++ ObjectTracker.g_unmatched_detections g) (seq 0 i).


(** ** Frames *)

(** The ids [k] new tracks get from [next]. *)
Definition fresh_ids (next : Z) (k : nat) : list Z :=
  map (fun i => (next + Z.of_nat i)%Z) (seq 0 k).

Definition unstable (o : TrackedObject.t) : Prop :=
  TrackedObject.is_stable o = false.

(** The ids of a table with the stability of their tracks. *)
Definition stability (d : Dict.t TrackedObject.t) : list (Z * bool) :=
  map (fun entry => (fst entry, TrackedObject.is_stable (snd entry))) d.

(** Every track of the table has a position. *)
Definition tracks_have_history (d : Dict.t TrackedObject.t) : Prop :=
  Forall (fun o => TrackedObject.positions o <> []) (Dict.values d).

(** [det] is the dict [get_current_detection] builds for [obj] at some
    reading of the clock. *)
Definition view_of (obj : TrackedObject.t) (det : Detection.t) : Prop :=
  exists now, TrackedObject.get_current_detection obj now = Some det.

(** The stable tracks of a table, in its order. *)
Definition stable_tracks (d : Dict.t TrackedObject.t) : list TrackedObject.t :=
  filter TrackedObject.is_stable (Dict.values d).




(** ** Close objects *)

(** The entries [check_distances] collects from a frame of area
    [frame_area], in detection order. *)
Definition close_entries (frame_area : Z) (dets : list Detection.t)
  : list DistanceCheckerOps.CloseObject :=
  flat_map (fun d =>
              match DistanceChecker.calculate_distance_info d frame_area with
              | Py.Ok info =>
                if DistanceChecker.is_close info
                then [DistanceCheckerOps.merge d info] else []
              | Py.Raise _ => []
              end) dets.

(** [a] may stand before [b] in a list sorted by size, largest first. *)
Definition larger_first (a b : DistanceCheckerOps.CloseObject) : Prop :=
  DistanceCheckerOps.close_relative_size b <=
  DistanceCheckerOps.close_relative_size a.

(** The urgency [calculate_distance_info] gives a detection in a frame of
    area [frame_area], 0 when it raises. *)
Definition urgency_in (frame_area : Z) (d : Detection.t) : Z :=
  match DistanceChecker.calculate_distance_info d frame_area with
  | Py.Ok info => DistanceChecker.info_urgency info
  | Py.Raise _ => 0
  end.

(** The number of objects [get_safe_zones] has counted. *)
Definition counted (z : NavigationGuide.Zones DistanceCheckerOps.SafeZone) : Z :=
  (DistanceCheckerOps.zone_object_count (NavigationGuide.at_left z) +
   DistanceCheckerOps.zone_object_count (NavigationGuide.at_center z) +
   DistanceCheckerOps.zone_object_count (NavigationGuide.at_right z))%Z.

(** A zone is unsafe exactly when its risk level is ['high']. *)
Definition unsafe_iff_high (z : DistanceCheckerOps.SafeZone) : Prop :=
  DistanceCheckerOps.safe z = false <->
  DistanceCheckerOps.zone_risk_level z = DistanceCheckerOps.zr_high.

(** ** Navigation *)

(** The zone a direction leads into. *)
Definition zone_of_direction (d : NavigationGuide.Direction)
  : option NavigationGuide.ZoneName :=
  match d with
  | NavigationGuide.forward => Some NavigationGuide.zone_center
  | NavigationGuide.left => Some NavigationGuide.zone_left
  | NavigationGuide.right => Some NavigationGuide.zone_right
  | NavigationGuide.stop => None
  end.

(** The order of the risk levels. *)
Definition risk_rank (r : NavigationGuide.RiskLevel) : Z :=
  match r with
  | NavigationGuide.risk_safe => 0
  | NavigationGuide.risk_low => 1
  | NavigationGuide.risk_medium => 2
  | NavigationGuide.risk_high => 3
  end.

(** The members of a zone among the detections. *)
Definition members (dets : list Detection.t)
  (zb : NavigationGuide.ZoneBounds) : list Detection.t :=
  filter (fun d => NavigationGuide._is_object_in_zone d zb) dets.

(** A frame with a large person to the left and one in the middle. *)
Definition left_and_center : list Detection.t :=
  [ with_urgency (Detection.raw 0 "person"%string 0.9 (20, 160, 180, 320)%Z) 3;
    with_urgency (Detection.raw 0 "person"%string 0.9 (240, 160, 400, 320)%Z) 3 ].

(** The zones [analyze_regions] finds in a 640 by 480 frame. *)
Definition zones_of (dets : list Detection.t)
  : NavigationGuide.Zones NavigationGuide.ZoneAnalysis :=
  match NavigationGuide.analyze_regions default_config dets (480, 640)%Z with
  | Py.Ok a => NavigationGuide.zones a
  | Py.Raise _ =>
    NavigationGuide.zones (NavigationGuide._get_empty_analysis (480, 640)%Z)
  end.

(** ** A frame seen from a track *)

(** The invariant of the greedy loop on the detections it left
    unmatched: no track still unused is more similar than the
    threshold. *)
Definition unmatched_ok (ids : list Z) (matrix : list (list Q))
  (g : ObjectTracker.Greedy) : Prop :=
  forall i row j tid s,
    In i (ObjectTracker.g_unmatched_detections g) ->
    nth_error matrix i = Some row ->
    nth_error ids j = Some tid -> nth_error row j = Some s ->
    ~ In tid (ObjectTracker.g_used_tracks g) -> s <= 0.3.

(** A car in the lower right corner of a 640 by 480 frame. *)
Definition car_box : Detection.t :=
  Detection.raw 2 "car"%string 0.8 (500, 380, 600, 460)%Z.

(** A clock that stands still at ten seconds. *)
Definition late_clock (n : nat) : Q := 10.
(* ================================================================= *)
(** * Properties *)

(** ** Boolean comparisons of floats *)

Lemma Qleb_true (x y : Q) : Qleb x y = true <-> x <= y.
Proof. unfold Qleb. apply Qle_bool_iff. Qed.

Lemma Qleb_false (x y : Q) : Qleb x y = false <-> y < x.
Proof.
  unfold Qleb. split; intro H.
  - apply Qnot_le_lt. intro L. apply Qle_bool_iff in L. congruence.
  - destruct (Qle_bool x y) eqn:E; [|reflexivity].
    apply Qle_bool_iff in E. apply Qlt_not_le in H. contradiction.
Qed.

Lemma Qltb_true (x y : Q) : Qltb x y = true <-> x < y.
Proof.
  unfold Qltb. rewrite negb_true_iff. apply (Qleb_false y x).
Qed.

Lemma Qltb_false (x y : Q) : Qltb x y = false <-> y <= x.
Proof.
  unfold Qltb. rewrite negb_false_iff. apply (Qleb_true y x).
Qed.

Lemma Qgeb_true (x y : Q) : Qgeb x y = true <-> y <= x.
Proof. apply Qleb_true. Qed.

Lemma Qgeb_false (x y : Q) : Qgeb x y = false <-> x < y.
Proof. apply Qleb_false. Qed.

Lemma Qgtb_true (x y : Q) : Qgtb x y = true <-> y < x.
Proof. apply Qltb_true. Qed.

Lemma Qgtb_false (x y : Q) : Qgtb x y = false <-> x <= y.
Proof. apply Qltb_false. Qed.

(** Case analysis on a float comparison, leaving the order fact in the
    context. *)
Ltac qcase c H :=
  let E := fresh "E" in
  destruct c eqn:E;
  [ first [ apply Qgeb_true in E | apply Qgtb_true in E
          | apply Qltb_true in E | apply Qleb_true in E ]
  | first [ apply Qgeb_false in E | apply Qgtb_false in E
          | apply Qltb_false in E | apply Qleb_false in E ] ];
  rename E into H.

(** Goals about the direction of a decision, once its tests are
    decided. *)
Ltac decide_direction :=
  repeat split; intros;
  repeat match goal with
         | H : _ /\ _ |- _ => destruct H
         | H : ?a = ?a -> _ |- _ => specialize (H eq_refl)
         end;
  try congruence; try lra.

Lemma ratio_monotone (a b d : Z) :
  (0 < d)%Z -> (a <= b)%Z -> inject_Z a / inject_Z d <= inject_Z b / inject_Z d.
Proof.
  intros Hd Hab. destruct d as [|p|p]; try lia.
  unfold Qle, Qdiv, Qmult, Qinv, inject_Z; simpl. nia.
Qed.

Lemma ratio_sign (a d : Z) :
  (d < 0)%Z -> (0 <= a)%Z -> inject_Z a / inject_Z d <= 0.
Proof.
  intros Hd Ha. destruct d as [|p|p]; try lia.
  unfold Qle, Qdiv, Qmult, Qinv, inject_Z; simpl. nia.
Qed.

Lemma ratio_zero (a d : Z) :
  d <> 0%Z -> (inject_Z a / inject_Z d == 0 <-> a = 0%Z).
Proof.
  intros Hd. destruct d as [|p|p]; try lia;
  unfold Qeq, Qdiv, Qmult, Qinv, inject_Z; simpl; nia.
Qed.

(** ** Risk classifier *)

Section RiskClassifier.

Import DistanceChecker.

Lemma thresholds_for_ordered (name : string) :
  thresholds_ordered (thresholds_for name).
Proof.
  unfold thresholds_for, distance_thresholds, dict_get.
  repeat match goal with
         | |- context [String.eqb ?a ?b] => destruct (String.eqb a b)
         end;
  unfold thresholds_ordered; simpl; repeat split; unfold Qle, Qlt; simpl; lia.
Qed.

Lemma classify_relative_size th rs : relative_size (classify th rs) = rs.
Proof.
  unfold classify. repeat match goal with |- context [Qgeb ?a ?b] => destruct (Qgeb a b) end; reflexivity.
Qed.

Lemma classify_monotone th r1 r2 :
  thresholds_ordered th -> r1 <= r2 ->
  (info_urgency (classify th r1) <= info_urgency (classify th r2))%Z.
Proof.
  intros (Hm & Hc & Hv) Hr. unfold classify.
  qcase (Qgeb r1 (th_very_close th)) A1; qcase (Qgeb r2 (th_very_close th)) B1;
  qcase (Qgeb r1 (th_close th)) A2; qcase (Qgeb r2 (th_close th)) B2;
  qcase (Qgeb r1 (th_medium th)) A3; qcase (Qgeb r2 (th_medium th)) B3;
  simpl; try lia; exfalso; lra.
Qed.

Lemma classify_ladder th rs : ladder th (classify th rs).
Proof.
  unfold ladder. rewrite classify_relative_size. unfold classify.
  qcase (Qgeb rs (th_very_close th)) A1;
  qcase (Qgeb rs (th_close th)) A2;
  qcase (Qgeb rs (th_medium th)) A3; simpl;
  repeat split; intros; try reflexivity; exfalso; lra.
Qed.

Lemma calculate_distance_info_ok d fa :
  fa <> 0%Z ->
  calculate_distance_info d fa =
  Ok (classify (thresholds_for (class_name d))
        (inject_Z (area d) / inject_Z fa)).
Proof.
  intros H. unfold calculate_distance_info, true_div.
  destruct (fa =? 0)%Z eqn:E; [apply Z.eqb_eq in E; contradiction|reflexivity].
Qed.

(** C8.  For a positive frame area [calculate_distance_info] succeeds,
    its [relative_size] is the ratio of the object's area to the frame
    area, and the result follows the descending ladder of the thresholds
    of the class: at or above [very_close], level very_close and urgency
    3; else at or above [close], close and 2; else at or above [medium],
    medium and 1; else far, urgency 0 and [is_close] false.  For a second
    detection of the same class in the same frame, a [relative_size] at
    least as large gives an urgency at least as large, and an area at
    least as large gives a [relative_size] and an urgency at least as
    large. *)
Theorem calculate_distance_info_ladder_monotone (d : Detection.t) (frame_area : Z) :
  (0 < frame_area)%Z ->
  exists info,
    calculate_distance_info d frame_area = Ok info /\
    relative_size info = inject_Z (area d) / inject_Z frame_area /\
    ladder (thresholds_for (class_name d)) info /\
    forall d' info',
      class_name d' = class_name d ->
      calculate_distance_info d' frame_area = Ok info' ->
      (relative_size info <= relative_size info' ->
       (info_urgency info <= info_urgency info')%Z) /\
      ((area d <= area d')%Z ->
       relative_size info <= relative_size info' /\
       (info_urgency info <= info_urgency info')%Z).
Proof.
  intros Hpos. eexists. split.
  { apply calculate_distance_info_ok. lia. }
  split; [apply classify_relative_size|].
  split; [apply classify_ladder|].
  intros d' info' Hname Hcalc.
  rewrite calculate_distance_info_ok in Hcalc by lia.
  injection Hcalc as <-. rewrite Hname, !classify_relative_size.
  assert (Hmono : inject_Z (area d) / inject_Z frame_area <=
                  inject_Z (area d') / inject_Z frame_area ->
                  (info_urgency (classify (thresholds_for (class_name d))
                                   (inject_Z (area d) / inject_Z frame_area)) <=
                   info_urgency (classify (thresholds_for (class_name d))
                                   (inject_Z (area d') / inject_Z frame_area)))%Z).
  { apply classify_monotone, thresholds_for_ordered. }
  split; [exact Hmono|].
  intros Ha. pose proof (ratio_monotone _ _ _ Hpos Ha) as Hr. split; [exact Hr|auto].
Qed.

(** The scenario of the specification: a person of 10,000 pixels in a
    640 by 480 frame is below the medium threshold, hence far. *)
Lemma calculate_distance_info_ladder_monotone_witness :
  exists info,
    calculate_distance_info person_box (640 * 480) = Ok info /\
    info_level info = far /\ info_urgency info = 0%Z.
Proof.
  destruct (calculate_distance_info_ladder_monotone person_box (640 * 480))
    as (info & Hcalc & Hrs & Hl & _); [reflexivity|].
  exists info. split; [exact Hcalc|].
  destruct Hl as (_ & _ & _ & Hfar).
  rewrite Hrs in Hfar.
  destruct Hfar as (A & B & _); try (unfold Qlt; simpl; lia). 
  split; assumption.
Defined.

(** C4, as stated, fails: with a negative frame area the
    [relative_size] is the (negative) ratio, not zero; and with a frame
    area of zero the division is not guarded (a division of Python
    integers, it raises). *)
Lemma calculate_distance_info_bad_frame_area :
  calculate_distance_info person_box 0 = Raise ZeroDivisionError /\
  exists info,
    calculate_distance_info person_box (-100000) = Ok info /\
    relative_size info == -0.1 /\ ~ relative_size info == 0.
Proof.
  split; [reflexivity|]. eexists. split; [reflexivity|].
  split; [reflexivity|]. intro H. discriminate H.
Qed.

(** C4, amended.  For a positive frame area [calculate_distance_info]
    never fails and [relative_size] is area over frame area.  For a
    negative frame area it does not fail either; [relative_size] is still
    the ratio, zero only for an object of area zero, and for a
    non-negative area it is at most zero, so that the level is far, the
    urgency 0 and [is_close] false.  No frame area, zero included, is
    answered with a defensive zero: whenever a result is returned with
    [relative_size] zero, the frame area is not zero and the area of the
    object is. *)
Theorem calculate_distance_info_frame_area (d : Detection.t) (frame_area : Z) :
  ((0 < frame_area)%Z ->
   exists info, calculate_distance_info d frame_area = Ok info /\
     relative_size info = inject_Z (area d) / inject_Z frame_area) /\
  ((frame_area < 0)%Z ->
   exists info, calculate_distance_info d frame_area = Ok info /\
     relative_size info = inject_Z (area d) / inject_Z frame_area /\
     (relative_size info == 0 <-> area d = 0%Z) /\
     ((0 <= area d)%Z ->
      relative_size info <= 0 /\ info_level info = far /\
      info_urgency info = 0%Z /\ is_close info = false)) /\
  (forall info,
     calculate_distance_info d frame_area = Ok info ->
     relative_size info == 0 ->
     frame_area <> 0%Z /\ area d = 0%Z).
Proof.
  split; [|split].
  - intros H. eexists. split; [apply calculate_distance_info_ok; lia|].
    apply classify_relative_size.
  - intros H. eexists. split; [apply calculate_distance_info_ok; lia|].
    rewrite classify_relative_size. split; [reflexivity|].
    split; [apply ratio_zero; lia|].
    intros Ha. pose proof (ratio_sign _ _ H Ha) as Hs.
    split; [exact Hs|].
    destruct (thresholds_for_ordered (class_name d)) as (Hm & Hc & Hv).
    pose proof (classify_ladder (thresholds_for (class_name d))
                  (inject_Z (area d) / inject_Z frame_area)) as L.
    unfold ladder in L. rewrite classify_relative_size in L.
    destruct L as (_ & _ & _ & L). apply L; lra.
  - intros info Hcalc Hzero.
    destruct (Z.eq_dec frame_area 0) as [->|Hne]; [discriminate Hcalc|].
    split; [exact Hne|].
    rewrite (calculate_distance_info_ok d frame_area Hne) in Hcalc.
    injection Hcalc as <-. rewrite classify_relative_size in Hzero.
    apply (ratio_zero (area d) frame_area Hne). exact Hzero.
Qed.

(** The person of the scenario in its frame, and in a frame of negative
    area. *)
Lemma calculate_distance_info_frame_area_witness :
  (exists info, calculate_distance_info person_box 307200 = Ok info /\
     relative_size info = inject_Z (area person_box) / inject_Z 307200) /\
  (exists info, calculate_distance_info person_box (-307200) = Ok info /\
     info_level info = far /\ info_urgency info = 0%Z /\ is_close info = false).
Proof.
  split.
  - apply (calculate_distance_info_frame_area person_box 307200). reflexivity.
  - destruct (calculate_distance_info_frame_area person_box (-307200))
      as (_ & H & _).
    destruct H as (info & Hc & _ & _ & Hf); [reflexivity|].
    exists info. split; [exact Hc|].
    destruct Hf as (_ & Hf); [discriminate|exact Hf].
Defined.

End RiskClassifier.

(** ** Zone navigation *)

Section Navigation.

Import NavigationGuide.

(** ** Navigation decision *)

Lemma decision_forward_iff (za : Zones ZoneAnalysis) :
  direction (_make_navigation_decision za) = Some forward <->
  passable (at_center za) = true.
Proof.
  unfold _make_navigation_decision.
  destruct (passable (at_center za)); simpl.
  - split; reflexivity.
  - destruct (blocked (at_center za)); simpl.
    + repeat match goal with
             | |- context [if ?c then _ else _] => destruct c; simpl
             end; split; discriminate.
    + split; discriminate.
Qed.

Lemma decision_stop (za : Zones ZoneAnalysis) :
  passable (at_center za) = false -> blocked (at_center za) = true ->
  passable (at_left za) = false -> passable (at_right za) = false ->
  direction (_make_navigation_decision za) = Some stop /\
  nav_confidence (_make_navigation_decision za) = 0.9.
Proof.
  intros Hc Hb Hl Hr. unfold _make_navigation_decision.
  rewrite Hc, Hb, Hl, Hr. rewrite !andb_false_r. simpl. split; reflexivity.
Qed.

Lemma decision_null (za : Zones ZoneAnalysis) :
  passable (at_center za) = false -> blocked (at_center za) = false ->
  direction (_make_navigation_decision za) = None /\
  nav_confidence (_make_navigation_decision za) = 0.0.
Proof.
  intros Hc Hb. unfold _make_navigation_decision.
  rewrite Hc, Hb. simpl. split; reflexivity.
Qed.

(** A successful analysis of a non-empty frame carries the decision
    taken on its three zones. *)
Lemma analyze_regions_decision cfg dets shape a :
  analyze_regions cfg dets shape = Ok a ->
  dets <> [] ->
  center_blocked a = blocked (at_center (zones a)) /\
  recommended_direction a = direction (_make_navigation_decision (zones a)) /\
  analysis_confidence a = nav_confidence (_make_navigation_decision (zones a)).
Proof.
  intros H Hne. unfold analyze_regions in H.
  destruct dets as [|d0 dets]; [contradiction|].
  destruct shape as [h w].
  destruct (_analyze_zone cfg (d0 :: dets) _ (h, w)) as [l|] ; [|discriminate].
  simpl in H.
  destruct (_analyze_zone cfg (d0 :: dets) _ (h, w)) as [c|] ; [|discriminate].
  simpl in H.
  destruct (_analyze_zone cfg (d0 :: dets) _ (h, w)) as [r|] ; [|discriminate].
  simpl in H. injection H as <-. simpl. repeat split.
Qed.

(** ** Zone boundaries *)

Lemma left_boundary_div (w : Z) :
  (0 <= w)%Z -> left_boundary w = (33 * w / 100)%Z.
Proof.
  intros H. unfold left_boundary, py_int, Qmult, inject_Z. cbn [Qnum Qden].
  change (Z.pos (1 * 100)) with 100%Z.
  rewrite Z.quot_div_nonneg by lia. f_equal. lia.
Qed.

Lemma right_boundary_div (w : Z) :
  (0 <= w)%Z -> right_boundary w = (67 * w / 100)%Z.
Proof.
  intros H. unfold right_boundary, py_int, Qmult, inject_Z. cbn [Qnum Qden].
  change (Z.pos (1 * 100)) with 100%Z.
  rewrite Z.quot_div_nonneg by lia. f_equal. lia.
Qed.

Lemma boundaries_ordered (w : Z) :
  (0 <= w)%Z ->
  (0 <= left_boundary w <= right_boundary w)%Z /\ (right_boundary w <= w)%Z.
Proof.
  intros H. rewrite left_boundary_div, right_boundary_div by exact H.
  pose proof (Z.div_mod (33 * w) 100 ltac:(lia)).
  pose proof (Z.mod_pos_bound (33 * w) 100 ltac:(lia)).
  pose proof (Z.div_mod (67 * w) 100 ltac:(lia)).
  pose proof (Z.mod_pos_bound (67 * w) 100 ltac:(lia)).
  lia.
Qed.

Lemma frame_center_in_center_zone (w : Z) :
  (0 <= w)%Z -> (left_boundary w <= w / 2 <= right_boundary w)%Z.
Proof.
  intros H. rewrite left_boundary_div, right_boundary_div by exact H.
  pose proof (Z.div_mod (33 * w) 100 ltac:(lia)).
  pose proof (Z.mod_pos_bound (33 * w) 100 ltac:(lia)).
  pose proof (Z.div_mod (67 * w) 100 ltac:(lia)).
  pose proof (Z.mod_pos_bound (67 * w) 100 ltac:(lia)).
  pose proof (Z.div_mod w 2 ltac:(lia)).
  pose proof (Z.mod_pos_bound w 2 ltac:(lia)).
  lia.
Qed.

Lemma zone_boundaries_eq (w h : Z) :
  _calculate_zone_boundaries w h =
  {| at_left := {| x_min := 0; x_max := left_boundary w; y_min := 0;
                   y_max := h; center_x := left_boundary w / 2 |};
     at_center := {| x_min := left_boundary w; x_max := right_boundary w;
                     y_min := 0; y_max := h;
                     center_x := (left_boundary w + right_boundary w) / 2 |};
     at_right := {| x_min := right_boundary w; x_max := w; y_min := 0;
                    y_max := h;
                    center_x := (right_boundary w + w) / 2 |} |}%Z.
Proof. reflexivity. Qed.

(** ** Zone analysis of frames whose detections carry an urgency *)

Lemma collect_zone_urgent dets zb shape acc :
  Forall (fun d => urgency d <> None) dets ->
  exists r, collect_zone dets zb shape acc = Ok r.
Proof.
  intros H. revert acc. induction H as [|d dets Hd _ IH]; intros acc.
  - eexists. reflexivity.
  - simpl. destruct acc as [[zo ta] rs].
    destruct (_is_object_in_zone d zb).
    + unfold risk_score_of. destruct (urgency d) as [u|]; [|contradiction].
      simpl. apply IH.
    + apply IH.
Qed.

Lemma _analyze_zone_urgent cfg dets zb shape :
  Forall (fun d => urgency d <> None) dets ->
  exists z, _analyze_zone cfg dets zb shape = Ok z.
Proof.
  intros H. unfold _analyze_zone.
  destruct (collect_zone_urgent dets zb shape ([], 0%Z, []) H) as [[[zo ta] rs] E].
  rewrite E. simpl. eexists. reflexivity.
Qed.

Lemma Zmaximum_single (x : Z) : Zmaximum [x] = x.
Proof. reflexivity. Qed.

Lemma _analyze_zone_single_urgent cfg d zb shape z :
  urgency d = Some 3%Z ->
  center_in_bounds (center d) zb = true ->
  _analyze_zone cfg [d] zb shape = Ok z ->
  blocked z = true /\ passable z = false.
Proof.
  intros Hu Hc H. unfold _analyze_zone in H. simpl in H.
  assert (Hin : _is_object_in_zone d zb = true).
  { unfold _is_object_in_zone. destruct (bbox d) as [[[x1 y1] x2] y2].
    rewrite Hc. reflexivity. }
  rewrite Hin in H. unfold risk_score_of in H. rewrite Hu in H. simpl in H.
  injection H as <-. simpl.
  destruct (Qgtb _ density_high); split; reflexivity.
Qed.

Lemma single_very_close_blocks_center cfg (w h : Z) d :
  (0 <= w)%Z -> (0 <= h)%Z ->
  urgency d = Some 3%Z -> center d = (w / 2, h / 2)%Z ->
  exists a,
    analyze_regions cfg [d] (h, w) = Ok a /\
    blocked (at_center (zones a)) = true /\
    center_blocked a = true /\
    recommended_direction a <> Some forward.
Proof.
  intros Hw Hh Hu Hc.
  assert (HF : Forall (fun d => urgency d <> None) [d]).
  { constructor; [rewrite Hu; discriminate|constructor]. }
  unfold analyze_regions.
  destruct (_analyze_zone_urgent cfg [d]
              (at_left (_calculate_zone_boundaries w h)) (h, w) HF) as [l El].
  destruct (_analyze_zone_urgent cfg [d]
              (at_center (_calculate_zone_boundaries w h)) (h, w) HF) as [c Ec].
  destruct (_analyze_zone_urgent cfg [d]
              (at_right (_calculate_zone_boundaries w h)) (h, w) HF) as [r Er].
  rewrite El; cbn [Py.bind]. rewrite Ec; cbn [Py.bind].
  rewrite Er; cbn [Py.bind].
  eexists. split; [reflexivity|].
  cbn [zones center_blocked recommended_direction at_center].
  assert (Hcb : blocked c = true /\ passable c = false).
  { apply (_analyze_zone_single_urgent cfg d
             (at_center (_calculate_zone_boundaries w h)) (h, w) c Hu);
      [|exact Ec].
    rewrite zone_boundaries_eq. cbn [at_center]. rewrite Hc.
    unfold center_in_bounds. cbn [x_min x_max y_min y_max].
    pose proof (frame_center_in_center_zone w Hw).
    pose proof (Z.div_mod h 2 ltac:(lia)).
    pose proof (Z.mod_pos_bound h 2 ltac:(lia)).
    rewrite !andb_true_iff, !Z.leb_le. lia. }
  destruct Hcb as [Hb Hp]. repeat split; try exact Hb.
  intro Hf. apply decision_forward_iff in Hf. cbn [at_center] in Hf. congruence.
Qed.

(** ** Membership of a detection in the zones *)

Lemma half_ratio (a b : Z) :
  (0 < b)%Z -> (2 * a <= b)%Z -> Qgtb (inject_Z a / inject_Z b) 0.5 = false.
Proof.
  intros Hb Hab. apply Qgtb_false.
  destruct b as [|p|p]; try lia.
  unfold Qle, Qdiv, Qmult, Qinv, inject_Z; simpl. lia.
Qed.

(** Away from the columns of a zone, the overlap rule never claims a box
    whose centre is its midpoint. *)
Lemma outside_zone_not_member (d : Detection.t) (zb : ZoneBounds) :
  well_formed (bbox d) -> center d = midpoint (bbox d) ->
  (fst (center d) < x_min zb \/ x_max zb < fst (center d))%Z ->
  _is_object_in_zone d zb = false.
Proof.
  unfold well_formed, midpoint, _is_object_in_zone, center_in_bounds.
  destruct (bbox d) as [[[x1 y1] x2] y2]. intros [Hx Hy] Hc Hout.
  rewrite Hc in *. cbn [fst] in Hout.
  assert (Hcenter :
    ((x_min zb <=? (x1 + x2) / 2) && ((x1 + x2) / 2 <=? x_max zb) &&
     (y_min zb <=? (y1 + y2) / 2) && ((y1 + y2) / 2 <=? y_max zb))%Z = false).
  { destruct Hout as [Hout|Hout].
    - replace (x_min zb <=? (x1 + x2) / 2)%Z with false; [reflexivity|].
      symmetry. apply Z.leb_gt. exact Hout.
    - replace ((x1 + x2) / 2 <=? x_max zb)%Z with false;
        [rewrite andb_false_r; reflexivity|].
      symmetry. apply Z.leb_gt. exact Hout. }
  rewrite Hcenter.
  assert (Hobj : (0 < (x2 - x1) * (y2 - y1))%Z) by nia.
  destruct (0 <? (x2 - x1) * (y2 - y1))%Z eqn:E;
    [|apply Z.ltb_ge in E; lia].
  apply half_ratio; [exact Hobj|].
  set (ox := Z.max 0 (Z.min x2 (x_max zb) - Z.max x1 (x_min zb))).
  set (oy := Z.max 0 (Z.min y2 (y_max zb) - Z.max y1 (y_min zb))).
  assert (Hox : (0 <= ox /\ 2 * ox <= x2 - x1)%Z).
  { subst ox. pose proof (Z.div_mod (x1 + x2) 2 ltac:(lia)).
    pose proof (Z.mod_pos_bound (x1 + x2) 2 ltac:(lia)). lia. }
  assert (Hoy : (0 <= oy <= y2 - y1)%Z) by (subst oy; lia).
  nia.
Qed.

Lemma inside_zone_member (d : Detection.t) (zb : ZoneBounds) :
  center_in_bounds (center d) zb = true -> _is_object_in_zone d zb = true.
Proof.
  intros H. unfold _is_object_in_zone.
  destruct (bbox d) as [[[x1 y1] x2] y2]. rewrite H. reflexivity.
Qed.

(** C5, amended.  For a frame of non-negative width and height the three
    zones are the column ranges from 0 to [int(0.33 w)], from there to
    [int(0.67 w)] and from there to [w], each range including both its
    ends, so that they cover the width without a gap; a detection whose
    centre lies inside the frame belongs to at least one zone; and a
    well-formed box whose centre is its midpoint and lies on neither of
    the two inner boundary columns belongs to exactly one zone. *)
Theorem zones_cover_and_assign (w h : Z) :
  (0 <= w)%Z -> (0 <= h)%Z ->
  let z := _calculate_zone_boundaries w h in
  (x_min (at_left z) = 0%Z /\ x_max (at_left z) = x_min (at_center z) /\
   x_max (at_center z) = x_min (at_right z) /\ x_max (at_right z) = w /\
   (x_min (at_left z) <= x_max (at_left z))%Z /\
   (x_min (at_center z) <= x_max (at_center z))%Z /\
   (x_min (at_right z) <= x_max (at_right z))%Z) /\
  (forall d, center_inside_frame d w h -> member_zones d z <> []) /\
  (forall d, center_inside_frame d w h ->
     well_formed (bbox d) -> center d = midpoint (bbox d) ->
     fst (center d) <> x_max (at_left z) ->
     fst (center d) <> x_max (at_center z) ->
     exists n, member_zones d z = [n]).
Proof.
  intros Hw Hh z. subst z. rewrite zone_boundaries_eq.
  cbn [at_left at_center at_right x_min x_max].
  destruct (boundaries_ordered w Hw) as [[HL HLR] HR].
  split; [repeat split; lia|].
  split.
  - intros d [Hx Hy]. unfold member_zones. cbn [filter zone_get at_left at_center at_right].
    destruct (center d) as [cx cy] eqn:Ec. cbn [fst snd] in Hx, Hy.
    destruct (Z_le_gt_dec cx (left_boundary w)) as [A|A].
    + rewrite (inside_zone_member d
                 {| x_min := 0; x_max := left_boundary w; y_min := 0; y_max := h;
                    center_x := left_boundary w / 2 |}); [discriminate|].
      rewrite Ec. unfold center_in_bounds. cbn [x_min x_max y_min y_max].
      rewrite !andb_true_iff, !Z.leb_le. lia.
    + destruct (Z_le_gt_dec cx (right_boundary w)) as [B|B].
      * rewrite (inside_zone_member d
                 {| x_min := left_boundary w; x_max := right_boundary w;
                    y_min := 0; y_max := h;
                    center_x := (left_boundary w + right_boundary w) / 2 |}).
        { destruct (_is_object_in_zone d _); discriminate. }
        rewrite Ec. unfold center_in_bounds. cbn [x_min x_max y_min y_max].
        rewrite !andb_true_iff, !Z.leb_le. lia.
      * rewrite (inside_zone_member d
                 {| x_min := right_boundary w; x_max := w;
                    y_min := 0; y_max := h;
                    center_x := (right_boundary w + w) / 2 |}).
        { destruct (_is_object_in_zone d _); destruct (_is_object_in_zone d _);
            discriminate. }
        rewrite Ec. unfold center_in_bounds. cbn [x_min x_max y_min y_max].
        rewrite !andb_true_iff, !Z.leb_le. lia.
  - intros d [Hx Hy] Hwf Hmid HnL HnR. unfold member_zones.
    cbn [filter zone_get at_left at_center at_right].
    set (zl := {| x_min := 0%Z; x_max := left_boundary w; y_min := 0%Z;
                  y_max := h; center_x := (left_boundary w / 2)%Z |}).
    set (zc := {| x_min := left_boundary w; x_max := right_boundary w;
                  y_min := 0%Z; y_max := h;
                  center_x := ((left_boundary w + right_boundary w) / 2)%Z |}).
    set (zr := {| x_min := right_boundary w; x_max := w; y_min := 0%Z;
                  y_max := h; center_x := ((right_boundary w + w) / 2)%Z |}).
    assert (Hin : forall zb, (x_min zb <= fst (center d) <= x_max zb)%Z ->
                  y_min zb = 0%Z -> y_max zb = h ->
                  _is_object_in_zone d zb = true).
    { intros zb Hb H0 H1. apply inside_zone_member.
      destruct (center d) as [cx cy]. cbn [fst snd] in *.
      unfold center_in_bounds. rewrite H0, H1.
      rewrite !andb_true_iff, !Z.leb_le. lia. }
    pose proof (outside_zone_not_member d zl Hwf Hmid) as Ol.
    pose proof (outside_zone_not_member d zc Hwf Hmid) as Oc.
    pose proof (outside_zone_not_member d zr Hwf Hmid) as Or.
    cbn [zl zc zr x_min x_max] in Ol, Oc, Or.
    destruct (Z_lt_le_dec (fst (center d)) (left_boundary w)) as [A|A].
    + exists zone_left.
      rewrite (Hin zl), Oc, Or by (cbn; try reflexivity; lia). reflexivity.
    + destruct (Z_lt_le_dec (fst (center d)) (right_boundary w)) as [B|B].
      * exists zone_center.
        rewrite (Hin zc), Ol, Or by (cbn; try reflexivity; lia). reflexivity.
      * exists zone_right.
        rewrite (Hin zr), Ol, Oc by (cbn; try reflexivity; lia). reflexivity.
Qed.

(** C5, as stated, fails: in a frame 100 wide a box centred on the
    column 33 belongs to the left and to the centre zone, and the
    analysis counts it in both. *)
Lemma boundary_object_in_two_zones :
  center_inside_frame boundary_object 100 100 /\
  member_zones boundary_object (_calculate_zone_boundaries 100 100) =
  [zone_left; zone_center] /\
  exists a,
    analyze_regions default_config [boundary_object] (100, 100)%Z = Ok a /\
    object_count (at_left (zones a)) = 1%Z /\
    object_count (at_center (zones a)) = 1%Z.
Proof.
  split; [unfold center_inside_frame; cbn; lia|].
  split; [reflexivity|].
  eexists. split; [vm_compute; reflexivity|]. split; reflexivity.
Qed.

(** The person in the middle of the 640 by 480 frame is in one zone. *)
Lemma zones_cover_and_assign_witness :
  member_zones person_box (_calculate_zone_boundaries 640 480) <> [] /\
  exists n, member_zones person_box (_calculate_zone_boundaries 640 480) = [n].
Proof.
  destruct (zones_cover_and_assign 640 480) as (_ & Hsome & Hone);
    [discriminate|discriminate|].
  assert (Hin : center_inside_frame person_box 640 480).
  { unfold center_inside_frame. cbn. lia. }
  split; [apply Hsome; exact Hin|].
  apply Hone; [exact Hin|split; reflexivity|reflexivity|discriminate|discriminate].
Defined.

(** C1, as stated, fails: in [crowded_frame] no zone is passable, the
    centre zone is not blocked either, and the decision is the null
    direction rather than stop. *)
Lemma crowded_frame_gives_no_direction :
  exists a,
    analyze_regions default_config crowded_frame (480, 640)%Z = Ok a /\
    passable (at_center (zones a)) = false /\
    passable (at_left (zones a)) = false /\
    passable (at_right (zones a)) = false /\
    recommended_direction a = None /\
    recommended_direction a <> Some stop.
Proof.
  eexists. split; [vm_compute; reflexivity|].
  repeat split. discriminate.
Qed.

(** C1, amended.  When the centre zone is not passable the decision is
    never forward; if moreover the centre zone is blocked and neither the
    left nor the right zone is passable, the decision is stop with
    confidence 0.9 (a centre zone neither passable nor blocked gives the
    null direction with confidence 0).  The same holds of the direction
    [analyze_regions] reports.  A single detection of urgency 3 whose
    centre is the centre of the frame makes the centre zone blocked and
    the decision not forward. *)
Theorem blocked_center_never_forward :
  (forall za,
     passable (at_center za) = false ->
     direction (_make_navigation_decision za) <> Some forward /\
     (blocked (at_center za) = true ->
      passable (at_left za) = false -> passable (at_right za) = false ->
      direction (_make_navigation_decision za) = Some stop /\
      nav_confidence (_make_navigation_decision za) = 0.9) /\
     (blocked (at_center za) = false ->
      direction (_make_navigation_decision za) = None /\
      nav_confidence (_make_navigation_decision za) = 0.0)) /\
  (forall cfg dets shape a,
     analyze_regions cfg dets shape = Ok a ->
     passable (at_center (zones a)) = false ->
     recommended_direction a <> Some forward /\
     (blocked (at_center (zones a)) = true ->
      passable (at_left (zones a)) = false ->
      passable (at_right (zones a)) = false ->
      recommended_direction a = Some stop /\ analysis_confidence a = 0.9)) /\
  (forall cfg w h d,
     (0 <= w)%Z -> (0 <= h)%Z ->
     urgency d = Some 3%Z -> center d = (w / 2, h / 2)%Z ->
     exists a,
       analyze_regions cfg [d] (h, w) = Ok a /\
       blocked (at_center (zones a)) = true /\
       center_blocked a = true /\
       recommended_direction a <> Some forward).
Proof.
  split; [|split].
  - intros za Hc. split.
    + intros Hf. apply decision_forward_iff in Hf. congruence.
    + split; [intros; apply decision_stop; assumption|].
      intros; apply decision_null; assumption.
  - intros cfg dets shape a Ha Hc.
    destruct dets as [|d0 dets].
    { cbn in Ha. injection Ha as <-. discriminate Hc. }
    destruct (analyze_regions_decision cfg (d0 :: dets) shape a Ha)
      as (_ & Hd & Hconf); [discriminate|].
    rewrite Hd, Hconf. split.
    + intros Hf. apply decision_forward_iff in Hf. congruence.
    + intros; apply decision_stop; assumption.
  - apply single_very_close_blocks_center.
Qed.

(** A very close person in the middle of the 640 by 480 frame. *)
Lemma blocked_center_never_forward_witness :
  exists a,
    analyze_regions default_config [with_urgency person_box 3] (480, 640)%Z
    = Ok a /\
    blocked (at_center (zones a)) = true /\
    center_blocked a = true /\
    recommended_direction a <> Some forward.
Proof.
  destruct blocked_center_never_forward as (_ & _ & H).
  apply (H default_config 640%Z 480%Z (with_urgency person_box 3));
    [discriminate|discriminate|reflexivity|reflexivity].
Defined.

End Navigation.

(** ** Intersection over union *)

Section IoU.

Import ObjectTracker.

Lemma calculate_iou_identical (a : BBox) :
  well_formed a -> calculate_iou a a == 1.
Proof.
  destruct a as [[[x1 y1] x2] y2]. intros [Hx Hy]. unfold calculate_iou.
  rewrite !Z.max_id, !Z.min_id.
  destruct (x2 <=? x1)%Z eqn:E1; [apply Z.leb_le in E1; lia|].
  destruct (y2 <=? y1)%Z eqn:E2; [apply Z.leb_le in E2; lia|].
  cbn [orb].
  replace ((x2 - x1) * (y2 - y1) + (x2 - x1) * (y2 - y1) -
           (x2 - x1) * (y2 - y1))%Z with ((x2 - x1) * (y2 - y1))%Z by lia.
  assert (Hpos : (0 < (x2 - x1) * (y2 - y1))%Z) by nia.
  destruct (0 <? (x2 - x1) * (y2 - y1))%Z eqn:E3;
    [|apply Z.ltb_ge in E3; lia].
  apply Qmult_inv_r. change 0 with (inject_Z 0).
  rewrite inject_Z_injective. lia.
Qed.

Lemma calculate_iou_disjoint (a b : BBox) :
  disjoint a b -> calculate_iou a b == 0.
Proof.
  destruct a as [[[ax1 ay1] ax2] ay2]. destruct b as [[[bx1 by1] bx2] by2].
  unfold disjoint, calculate_iou. intros H.
  replace ((Z.min ax2 bx2 <=? Z.max ax1 bx1) ||
           (Z.min ay2 by2 <=? Z.max ay1 by1))%Z with true; [reflexivity|].
  symmetry. apply orb_true_iff. rewrite !Z.leb_le. lia.
Qed.

Lemma calculate_iou_symmetric (a b : BBox) :
  calculate_iou a b = calculate_iou b a.
Proof.
  destruct a as [[[ax1 ay1] ax2] ay2]. destruct b as [[[bx1 by1] bx2] by2].
  unfold calculate_iou.
  rewrite (Z.max_comm bx1 ax1), (Z.max_comm by1 ay1),
          (Z.min_comm bx2 ax2), (Z.min_comm by2 ay2).
  rewrite (Z.add_comm ((bx2 - bx1) * (by2 - by1))).
  reflexivity.
Qed.

(** C9.  For well-formed boxes [a] and [b]: the IoU of [a] with itself
    is 1, the IoU of [a] and [b] is 0 when they are disjoint, and the IoU
    of [a] and [b] is the IoU of [b] and [a]. *)
Theorem calculate_iou_properties (a b : BBox) :
  well_formed a -> well_formed b ->
  calculate_iou a a == 1 /\
  (disjoint a b -> calculate_iou a b == 0) /\
  calculate_iou a b = calculate_iou b a.
Proof.
  intros Ha Hb. split; [apply calculate_iou_identical; exact Ha|].
  split; [apply calculate_iou_disjoint|apply calculate_iou_symmetric].
Qed.

(** Two boxes of 10 by 10 pixels, 10 pixels apart. *)
Lemma calculate_iou_properties_witness :
  calculate_iou (0, 0, 10, 10)%Z (0, 0, 10, 10)%Z == 1 /\
  calculate_iou (0, 0, 10, 10)%Z (20, 0, 30, 10)%Z == 0 /\
  calculate_iou (0, 0, 10, 10)%Z (20, 0, 30, 10)%Z =
  calculate_iou (20, 0, 30, 10)%Z (0, 0, 10, 10)%Z.
Proof.
  destruct (calculate_iou_properties (0, 0, 10, 10)%Z (20, 0, 30, 10)%Z)
    as (H1 & H2 & H3); [split; reflexivity|split; reflexivity|].
  split; [exact H1|]. split; [|exact H3].
  apply H2. left. discriminate.
Defined.

End IoU.

(** ** Stability of a track *)

Section Stability.

Import TrackedObject.

Lemma track_after_snoc d id t1 t2 evs e :
  track_after d id t1 t2 (evs ++ [e]) =
  track_step (track_after d id t1 t2 evs) e.
Proof. unfold track_after. rewrite fold_left_app. reflexivity. Qed.

Lemma consecutive_matches_nil : consecutive_matches [] = 1%Z.
Proof. reflexivity. Qed.

Lemma consecutive_matches_missed evs :
  consecutive_matches (evs ++ [Missed]) = 0%Z.
Proof.
  unfold consecutive_matches. rewrite rev_app_distr, forallb_app.
  cbn [rev app leading_matches forallb is_matched].
  rewrite andb_false_r. reflexivity.
Qed.

Lemma consecutive_matches_matched evs d now :
  consecutive_matches (evs ++ [Matched d now]) =
  (consecutive_matches evs + 1)%Z.
Proof.
  unfold consecutive_matches. rewrite rev_app_distr, forallb_app.
  cbn [rev app leading_matches forallb is_matched].
  rewrite andb_true_r. destruct (forallb is_matched evs); lia.
Qed.

Lemma consecutive_matches_nonneg evs : (0 <= consecutive_matches evs)%Z.
Proof.
  unfold consecutive_matches. destruct (forallb is_matched evs); lia.
Qed.

Lemma track_after_min_stable d id t1 t2 evs :
  min_stable_frames (track_after d id t1 t2 evs) = 3%Z.
Proof.
  induction evs as [|e evs IH] using rev_ind; [reflexivity|].
  rewrite track_after_snoc. destruct e; exact IH.
Qed.

Lemma track_after_consecutive d id t1 t2 evs :
  consecutive_detections (track_after d id t1 t2 evs) =
  consecutive_matches evs.
Proof.
  induction evs as [|e evs IH] using rev_ind; [reflexivity|].
  rewrite track_after_snoc. destruct e as [d' now|].
  - rewrite consecutive_matches_matched. cbn [track_step update consecutive_detections].
    rewrite IH. reflexivity.
  - rewrite consecutive_matches_missed. reflexivity.
Qed.

(** The flag after one more frame. *)
Lemma track_after_stable_step d id t1 t2 evs e :
  is_stable (track_after d id t1 t2 (evs ++ [e])) = true <->
  is_stable (track_after d id t1 t2 evs) = true \/
  (3 <= consecutive_matches (evs ++ [e]))%Z.
Proof.
  rewrite track_after_snoc. destruct e as [d' now|].
  - rewrite consecutive_matches_matched.
    cbn [track_step update is_stable].
    rewrite track_after_min_stable, track_after_consecutive.
    destruct (3 <=? consecutive_matches evs + 1)%Z eqn:E.
    + apply Z.leb_le in E. tauto.
    + apply Z.leb_gt in E. split; [tauto|]. intros [H|H]; [exact H|lia].
  - rewrite consecutive_matches_missed. cbn [track_step miss_frame is_stable].
    split; [tauto|]. intros [H|H]; [exact H|lia].
Qed.

Lemma prefix_snoc {A} (p s l : list A) (x : A) :
  p ++ s = l ++ [x] ->
  (s = [] /\ p = l ++ [x]) \/ (exists s', s = s' ++ [x] /\ l = p ++ s').
Proof.
  intros H. destruct s as [|y s' _] using rev_ind.
  - left. rewrite app_nil_r in H. auto.
  - right. rewrite app_assoc in H. apply app_inj_tail in H as [H1 H2].
    subst. exists s'. auto.
Qed.

Lemma track_after_stable_iff d id t1 t2 evs :
  is_stable (track_after d id t1 t2 evs) = true <->
  exists p s, evs = p ++ s /\ (3 <= consecutive_matches p)%Z.
Proof.
  induction evs as [|e evs IH] using rev_ind.
  - split; [discriminate|]. intros (p & s & H & Hc).
    symmetry in H. apply app_eq_nil in H as [-> ->].
    rewrite consecutive_matches_nil in Hc. lia.
  - rewrite track_after_stable_step, IH. split.
    + intros [(p & s & -> & Hc)|Hc].
      * exists p, (s ++ [e]). rewrite app_assoc. auto.
      * exists (evs ++ [e]), []. rewrite app_nil_r. auto.
    + intros (p & s & H & Hc). symmetry in H.
      apply prefix_snoc in H as [[-> ->]|(s' & -> & ->)].
      * right. exact Hc.
      * left. exists p, s'. auto.
Qed.

Lemma track_step_keeps_stable t e :
  is_stable t = true -> is_stable (track_step t e) = true.
Proof.
  intros H. destruct e as [d now|]; cbn [track_step update miss_frame is_stable].
  - rewrite H. destruct (_ <=? _)%Z; reflexivity.
  - exact H.
Qed.

(** C6.  For the track created from a detection and taken through any
    frames: its hit counter is the number of consecutive matched frames
    at the end of its life so far, the creating frame included; it is
    stable exactly when some moment of its life ended three consecutive
    matched frames; while it is not stable, a further matched frame
    makes it stable exactly when that frame is the third consecutive
    match; once stable it stays stable whatever the next frame; and a
    missed frame resets the hit counter to 0, counts one more miss and
    leaves the flag as it is. *)
Theorem stability_of_a_track d id t1 t2 evs :
  let t := track_after d id t1 t2 evs in
  consecutive_detections t = consecutive_matches evs /\
  (is_stable t = true <->
   exists p s, evs = p ++ s /\ (3 <= consecutive_matches p)%Z) /\
  (is_stable t = false ->
   forall d' now,
     is_stable (update t d' now) = true <->
     consecutive_matches (evs ++ [Matched d' now]) = 3%Z) /\
  (forall e, is_stable t = true -> is_stable (track_step t e) = true) /\
  (consecutive_detections (miss_frame t) = 0%Z /\
   missed_frames (miss_frame t) = (missed_frames t + 1)%Z /\
   is_stable (miss_frame t) = is_stable t).
Proof.
  intros t. subst t.
  split; [apply track_after_consecutive|].
  split; [apply track_after_stable_iff|].
  split.
  - intros Hns d' now.
    change (update (track_after d id t1 t2 evs) d' now)
      with (track_step (track_after d id t1 t2 evs) (Matched d' now)).
    rewrite <- track_after_snoc, track_after_stable_step.
    rewrite Hns. rewrite consecutive_matches_matched.
    assert (Hlt : (consecutive_matches evs < 3)%Z).
    { destruct (Z_lt_le_dec (consecutive_matches evs) 3) as [L|L]; [exact L|].
      exfalso. assert (is_stable (track_after d id t1 t2 evs) = true).
      { apply track_after_stable_iff. exists evs, []. rewrite app_nil_r. auto. }
      congruence. }
    split; [intros [H|H]; [discriminate|lia]|intros H; right; lia].
  - split; [intros e; apply track_step_keeps_stable|].
    repeat split.
Qed.

(** Not stable on the second frame, stable on the third, still stable
    after a miss. *)
Lemma stability_of_a_track_witness :
  is_stable (track_after person_box 1 0 0 [Matched person_box 1]) = false /\
  is_stable (track_after person_box 1 0 0
               [Matched person_box 1; Matched person_box 2]) = true /\
  is_stable (track_after person_box 1 0 0
               [Matched person_box 1; Matched person_box 2; Missed]) = true.
Proof.
  split; [reflexivity|].
  destruct (stability_of_a_track person_box 1 0 0 [Matched person_box 1])
    as (_ & _ & Hthird & _).
  destruct (stability_of_a_track person_box 1 0 0
              [Matched person_box 1; Matched person_box 2])
    as (_ & _ & _ & Hkeep & _).
  assert (H : is_stable (track_after person_box 1 0 0
               [Matched person_box 1; Matched person_box 2]) = true).
  { apply (Hthird eq_refl person_box 2). reflexivity. }
  split; [exact H|exact (Hkeep Missed H)].
Defined.

End Stability.

(** ** Throttles of a track *)

Section Throttles.

Import TrackedObject.

Lemma should_alert_accepts t interval now :
  fst (should_alert t interval now) = true <->
  is_stable t = true /\ interval <= now - last_alert_time t.
Proof.
  unfold should_alert. destruct (is_stable t); cbn [negb].
  - qcase (Qgeb (now - last_alert_time t) interval) H; cbn [fst].
    + tauto.
    + split; [discriminate|]. intros [_ H']. exfalso. lra.
  - cbn [fst]. split; [discriminate|intros [? _]; discriminate].
Qed.

Lemma should_alert_effect t interval now :
  (fst (should_alert t interval now) = true ->
   last_alert_time (snd (should_alert t interval now)) = now /\
   alert_count (snd (should_alert t interval now)) = (alert_count t + 1)%Z /\
   same_but_alert (snd (should_alert t interval now)) t) /\
  (fst (should_alert t interval now) = false ->
   snd (should_alert t interval now) = t).
Proof.
  unfold should_alert. destruct (negb (is_stable t)); cbn [fst snd].
  - split; [discriminate|reflexivity].
  - destruct (Qgeb (now - last_alert_time t) interval); cbn [fst snd].
    + split; [|discriminate]. intros _. unfold same_but_alert.
      cbn. repeat split.
    + split; [discriminate|reflexivity].
Qed.

Lemma should_distance_alert_accepts t interval now :
  fst (should_distance_alert t interval now) = true <->
  is_stable t = true /\ distances t <> [] /\
  distance_interval interval (Qmean (distances t)) <=
  now - last_distance_alert t.
Proof.
  unfold should_distance_alert. destruct (is_stable t); cbn [negb orb].
  - destruct (distances t) as [|x l] eqn:Ed.
    + cbn [fst]. split; [discriminate|]. intros (_ & H & _). contradiction.
    + qcase (Qgeb (now - last_distance_alert t)
                  (distance_interval interval (Qmean (x :: l)))) H; cbn [fst].
      * split; [|reflexivity]. intros _. repeat split; [discriminate|exact H].
      * split; [discriminate|]. intros (_ & _ & H'). exfalso. lra.
  - cbn [fst]. split; [discriminate|intros [? _]; discriminate].
Qed.

Lemma should_distance_alert_effect t interval now :
  (fst (should_distance_alert t interval now) = true ->
   last_distance_alert (snd (should_distance_alert t interval now)) = now /\
   same_but_distance_alert (snd (should_distance_alert t interval now)) t) /\
  (fst (should_distance_alert t interval now) = false ->
   snd (should_distance_alert t interval now) = t).
Proof.
  unfold should_distance_alert.
  destruct (negb (is_stable t) || _); cbn [fst snd].
  - split; [discriminate|reflexivity].
  - destruct (Qgeb _ _); cbn [fst snd].
    + split; [|discriminate]. intros _. unfold same_but_distance_alert.
      cbn. repeat split.
    + split; [discriminate|reflexivity].
Qed.

Lemma distance_interval_positive interval avg :
  0 < interval -> 0 < distance_interval interval avg.
Proof.
  intros H. unfold distance_interval, Qdiv. change (/ 2) with (1 # 2).
  destruct (Qltb avg 3); [lra|]. destruct (Qltb avg 6); lra.
Qed.

(** C10, amended.  [should_alert] accepts exactly for a stable track
    whose last alert is at least the interval old; when it accepts it
    sets [last_alert_time] to the current time, increments [alert_count]
    and changes nothing else; when it refuses the track is unchanged.
    [should_distance_alert] accepts exactly for a stable track with a
    distance history whose last distance alert is at least the interval
    of its average distance old; when it accepts it sets
    [last_distance_alert] to the current time and changes nothing else;
    when it refuses the track is unchanged.  Hence a second query made
    before the interval has elapsed since an accepted one is refused; in
    particular, for a positive interval, the same query made twice at
    the same instant never accepts twice. *)
Theorem throttle_queries_frame t interval now :
  (fst (should_alert t interval now) = true <->
   is_stable t = true /\ interval <= now - last_alert_time t) /\
  (fst (should_alert t interval now) = true ->
   last_alert_time (snd (should_alert t interval now)) = now /\
   alert_count (snd (should_alert t interval now)) = (alert_count t + 1)%Z /\
   same_but_alert (snd (should_alert t interval now)) t) /\
  (fst (should_alert t interval now) = false ->
   snd (should_alert t interval now) = t) /\
  (fst (should_distance_alert t interval now) = true <->
   is_stable t = true /\ distances t <> [] /\
   distance_interval interval (Qmean (distances t)) <=
   now - last_distance_alert t) /\
  (fst (should_distance_alert t interval now) = true ->
   last_distance_alert (snd (should_distance_alert t interval now)) = now /\
   same_but_distance_alert (snd (should_distance_alert t interval now)) t) /\
  (fst (should_distance_alert t interval now) = false ->
   snd (should_distance_alert t interval now) = t) /\
  (forall now',
     now' - now < interval ->
     fst (should_alert t interval now) = true ->
     fst (should_alert (snd (should_alert t interval now)) interval now') =
     false) /\
  (forall now',
     now' - now < distance_interval interval (Qmean (distances t)) ->
     fst (should_distance_alert t interval now) = true ->
     fst (should_distance_alert (snd (should_distance_alert t interval now))
            interval now') = false) /\
  (0 < interval ->
   fst (should_alert t interval now) = true ->
   fst (should_alert (snd (should_alert t interval now)) interval now) =
   false) /\
  (0 < interval ->
   fst (should_distance_alert t interval now) = true ->
   fst (should_distance_alert (snd (should_distance_alert t interval now))
          interval now) = false).
Proof.
  assert (Hagain : forall now',
     now' - now < interval ->
     fst (should_alert t interval now) = true ->
     fst (should_alert (snd (should_alert t interval now)) interval now') =
     false).
  { intros now' Hclose Hacc.
    destruct (should_alert_effect t interval now) as [Heff _].
    destruct (Heff Hacc) as (Hlast & _ & _).
    destruct (fst (should_alert (snd (should_alert t interval now)) interval now'))
      eqn:E; [|reflexivity].
    apply should_alert_accepts in E as [_ E]. rewrite Hlast in E.
    exfalso. lra. }
  assert (Hdagain : forall now',
     now' - now < distance_interval interval (Qmean (distances t)) ->
     fst (should_distance_alert t interval now) = true ->
     fst (should_distance_alert (snd (should_distance_alert t interval now))
            interval now') = false).
  { intros now' Hclose Hacc.
    destruct (should_distance_alert_effect t interval now) as [Heff _].
    destruct (Heff Hacc) as (Hlast & Hsame).
    assert (Hdist : distances (snd (should_distance_alert t interval now)) =
                    distances t) by apply Hsame.
    destruct (fst (should_distance_alert
                     (snd (should_distance_alert t interval now)) interval now'))
      eqn:E; [|reflexivity].
    apply should_distance_alert_accepts in E as (_ & _ & E).
    rewrite Hlast, Hdist in E.
    exfalso. lra. }
  split; [apply should_alert_accepts|].
  split; [apply should_alert_effect|].
  split; [apply should_alert_effect|].
  split; [apply should_distance_alert_accepts|].
  split; [apply should_distance_alert_effect|].
  split; [apply should_distance_alert_effect|].
  split; [exact Hagain|]. split; [exact Hdagain|]. split.
  - intros Hpos. apply Hagain. lra.
  - intros Hpos. apply Hdagain.
    pose proof (distance_interval_positive interval
                  (Qmean (distances t)) Hpos).
    lra.
Qed.

(** The same query twice at the same instant: accepted, then refused. *)
Lemma throttle_queries_frame_witness :
  fst (should_alert near_track 10 100) = true /\
  fst (should_alert (snd (should_alert near_track 10 100)) 10 100) = false /\
  fst (should_distance_alert near_track 5 100) = true /\
  fst (should_distance_alert (snd (should_distance_alert near_track 5 100))
         5 100) = false.
Proof.
  destruct (throttle_queries_frame near_track 10 100)
    as (_ & _ & _ & _ & _ & _ & _ & _ & Htwice & _).
  destruct (throttle_queries_frame near_track 5 100)
    as (_ & _ & _ & _ & _ & _ & _ & _ & _ & Hdtwice).
  split; [reflexivity|].
  split; [apply Htwice; reflexivity|].
  split; [reflexivity|].
  apply Hdtwice; reflexivity.
Defined.

(** C10, as stated, fails: with an interval of zero the same query,
    made twice at the same instant, accepts twice, for [should_alert] and
    for [should_distance_alert]. *)
Lemma zero_interval_accepts_twice :
  fst (should_alert near_track 0 100) = true /\
  fst (should_alert (snd (should_alert near_track 0 100)) 0 100) = true /\
  fst (should_distance_alert near_track 0 100) = true /\
  fst (should_distance_alert (snd (should_distance_alert near_track 0 100))
         0 100) = true.
Proof. repeat split. Qed.

(** Called by itself with its default interval, the distance throttle
    of the stable track two metres away accepts at 100 seconds and again
    2.9 seconds later. *)
Lemma distance_alert_accepts_after_2_9_seconds :
  is_stable near_track = true /\
  Qmean (distances near_track) == 2 /\
  fst (should_distance_alert near_track default_distance_alert_interval 100)
  = true /\
  fst (should_distance_alert
         (snd (should_distance_alert near_track
                 default_distance_alert_interval 100))
         default_distance_alert_interval 102.9) = true.
Proof. repeat split. Qed.

Lemma default_distance_interval avg :
  (avg < 3 ->
   distance_interval default_distance_alert_interval avg == 2.5) /\
  (3 <= avg -> avg < 6 ->
   distance_interval default_distance_alert_interval avg == 5) /\
  (6 <= avg ->
   distance_interval default_distance_alert_interval avg == 10).
Proof.
  unfold distance_interval, default_distance_alert_interval.
  qcase (Qltb avg 3) H3; qcase (Qltb avg 6) H6;
  repeat split; intros; try reflexivity; exfalso; lra.
Qed.

(** X1.  With its default interval of 5 seconds, [should_distance_alert]
    accepts for a stable track with a distance history exactly when the
    last distance alert of that track is at least 2.5 seconds old for an
    average distance below 3 m, 5 seconds old between 3 m and 6 m, and
    10 seconds old at 6 m or more; consequently, after an accepted query
    for a track nearer than 3 m, a second query is accepted exactly when
    it comes 2.5 seconds or more later. *)
Theorem distance_alert_intervals t now :
  is_stable t = true -> distances t <> [] ->
  let avg := Qmean (distances t) in
  let accepted := fst (should_distance_alert t default_distance_alert_interval now) in
  let elapsed := now - last_distance_alert t in
  (avg < 3 -> (accepted = true <-> 2.5 <= elapsed)) /\
  (3 <= avg -> avg < 6 -> (accepted = true <-> 5 <= elapsed)) /\
  (6 <= avg -> (accepted = true <-> 10 <= elapsed)) /\
  (avg < 3 -> accepted = true ->
   forall gap,
     fst (should_distance_alert
            (snd (should_distance_alert t default_distance_alert_interval now))
            default_distance_alert_interval (now + gap)) = true <->
     2.5 <= gap).
Proof.
  intros Hs Hd avg accepted elapsed. subst avg accepted elapsed.
  destruct (default_distance_interval (Qmean (distances t))) as (I3 & I6 & I10).
  pose proof (should_distance_alert_accepts t default_distance_alert_interval now)
    as Hacc.
  split; [|split; [|split]].
  - intros Ha. rewrite Hacc. rewrite (I3 Ha). tauto.
  - intros Ha Hb. rewrite Hacc. rewrite (I6 Ha Hb). tauto.
  - intros Ha. rewrite Hacc. rewrite (I10 Ha). tauto.
  - intros Ha Hok gap.
    destruct (should_distance_alert_effect t default_distance_alert_interval now)
      as [Heff _].
    destruct (Heff Hok) as (Hlast & Hsame).
    unfold same_but_distance_alert in Hsame.
    destruct Hsame as (_ & _ & _ & _ & _ & _ & _ & _ & _ & _ & _ & _ & Hst & _ & Hdist & _).
    rewrite should_distance_alert_accepts. rewrite Hst, Hdist, Hlast.
    rewrite (I3 Ha). split.
    + intros (_ & _ & H). lra.
    + intros H. repeat split; try assumption. lra.
Qed.

(** The track two metres away: 2.4 seconds apart one alert, 2.6 seconds
    apart two. *)
Lemma distance_alert_intervals_witness :
  fst (should_distance_alert near_track default_distance_alert_interval 100)
  = true /\
  fst (should_distance_alert
         (snd (should_distance_alert near_track
                 default_distance_alert_interval 100))
         default_distance_alert_interval (100 + 2.4)) = false /\
  fst (should_distance_alert
         (snd (should_distance_alert near_track
                 default_distance_alert_interval 100))
         default_distance_alert_interval (100 + 2.6)) = true.
Proof.
  destruct (distance_alert_intervals near_track 100)
    as (H3 & _ & _ & Hgap); [reflexivity|discriminate|].
  assert (Havg : Qmean (distances near_track) < 3) by reflexivity.
  assert (Hfirst : fst (should_distance_alert near_track
                          default_distance_alert_interval 100) = true).
  { apply (H3 Havg). discriminate. }
  split; [exact Hfirst|]. split.
  - destruct (fst (should_distance_alert _ _ (100 + 2.4))) eqn:E; [|reflexivity].
    apply (Hgap Havg Hfirst 2.4) in E. exfalso. revert E. clear.
    intro E. apply E. reflexivity.
  - apply (Hgap Havg Hfirst 2.6). discriminate.
Defined.

End Throttles.

(** ** The alert queue *)

Section AlertQueue.

Import VoiceAlert.

Lemma len_app {A} (l : list A) (x : A) : len (l ++ [x]) = (len l + 1)%Z.
Proof. unfold len. rewrite length_app, Nat2Z.inj_add. reflexivity. Qed.

Lemma alert_close_object_queue float_str self detection now :
  let r := alert_close_object float_str self detection now in
  (fst r = Enqueued ->
   exists m, alert_queue (snd r) = alert_queue self ++ [m] /\
             type m = "object_alert"%string /\
             msg_track_id m = Detection.track_id detection) /\
  (fst r <> Enqueued -> snd r = self).
Proof.
  unfold alert_close_object.
  destruct (negb (is_enabled self));
    [split; [discriminate|reflexivity]|].
  destruct (truthyZ (Detection.track_id detection) && _ && _);
    [split; [discriminate|reflexivity]|].
  match goal with
  | |- context [if ?c then (Throttled, self) else _] => destruct c
  end; [split; [discriminate|reflexivity]|].
  match goal with
  | |- context [let '(message, urgency) := ?p in _] => destruct p as [msg u]
  end.
  cbn [fst snd with_queue alert_queue put]. split; [|intros H; contradiction].
  intros _. eexists. split; [reflexivity|]. split; reflexivity.
Qed.

Lemma alert_close_object_marked float_str self detection now :
  is_enabled self = true ->
  truthyZ (Detection.track_id detection) = true ->
  should_alert_flag detection = Some true \/
  should_distance_alert_flag detection = Some true ->
  fst (alert_close_object float_str self detection now) = Enqueued.
Proof.
  intros He Ht Hm. unfold alert_close_object. rewrite He, Ht. cbn [negb andb].
  assert (Hgate :
    negb match should_alert_flag detection with Some b => b | None => false end &&
    negb match should_distance_alert_flag detection with
         | Some b => b | None => false end = false).
  { destruct Hm as [-> | ->]; [reflexivity|apply andb_false_r]. }
  rewrite Hgate.
  match goal with
  | |- context [let '(message, urgency) := ?p in _] => destruct p as [msg u]
  end.
  reflexivity.
Qed.

Lemma emergency_alert_queue self message :
  is_enabled self = true ->
  exists m, alert_queue (emergency_alert self message) = alert_queue self ++ [m].
Proof.
  intros He. unfold emergency_alert. rewrite He. cbn. eexists. reflexivity.
Qed.

(** C3, as stated, fails: a voice alert whose queue already holds
    [MAX_ALERT_QUEUE_SIZE] messages accepts one more, and the queue then
    holds one message more than the maximum. *)
Lemma full_queue_accepts_alert :
  let v := voice_with_backlog 10 in
  let r := alert_close_object one_decimal v (marked_for_alert near_person 1) 100 in
  get_queue_size v = MAX_ALERT_QUEUE_SIZE (config v) /\
  is_queue_full v = true /\
  fst r = Enqueued /\
  get_queue_size (snd r) = (MAX_ALERT_QUEUE_SIZE (config v) + 1)%Z.
Proof. repeat split. Qed.

(** C3, amended.  The alert queue has no bound: [alert_close_object]
    either appends exactly one message or leaves the voice alert as it
    was (sound off, a tracked object not marked, an untracked object
    throttled), it is never refused for the depth of the queue; with
    sound on, a tracked detection marked for an alert is always
    appended; [is_queue_full] only reports that the depth has reached
    [MAX_ALERT_QUEUE_SIZE]; and [emergency_alert] with sound on always
    appends. *)
Theorem enqueue_never_rejected float_str self detection now :
  let r := alert_close_object float_str self detection now in
  (fst r = Enqueued ->
   (exists m, alert_queue (snd r) = alert_queue self ++ [m]) /\
   get_queue_size (snd r) = (get_queue_size self + 1)%Z) /\
  (fst r <> Enqueued -> snd r = self) /\
  (is_enabled self = true ->
   truthyZ (Detection.track_id detection) = true ->
   should_alert_flag detection = Some true \/
   should_distance_alert_flag detection = Some true ->
   fst r = Enqueued) /\
  (is_queue_full self = true <->
   (MAX_ALERT_QUEUE_SIZE (config self) <= get_queue_size self)%Z) /\
  (is_enabled self = true ->
   forall message,
     get_queue_size (emergency_alert self message) =
     (get_queue_size self + 1)%Z).
Proof.
  intros r. subst r.
  destruct (alert_close_object_queue float_str self detection now) as [Hq Hn].
  split.
  - intros H. destruct (Hq H) as (m & Hm & _). split; [exists m; exact Hm|].
    unfold get_queue_size, qsize. rewrite Hm. apply len_app.
  - split; [exact Hn|]. split; [apply alert_close_object_marked|].
    split; [unfold is_queue_full, get_queue_size; apply Z.leb_le|].
    intros He message. destruct (emergency_alert_queue self message He) as [m Hm].
    unfold get_queue_size, qsize. rewrite Hm. apply len_app.
Qed.

(** Ten messages waiting, an eleventh is appended. *)
Lemma enqueue_never_rejected_witness :
  get_queue_size
    (snd (alert_close_object one_decimal (voice_with_backlog 10)
            (marked_for_alert near_person 1) 100)) = 11%Z.
Proof.
  destruct (enqueue_never_rejected one_decimal (voice_with_backlog 10)
              (marked_for_alert near_person 1) 100) as (Hq & _ & Hacc & _).
  destruct Hq as [_ Hsize].
  - apply Hacc; [reflexivity|reflexivity|left; reflexivity].
  - rewrite Hsize. reflexivity.
Defined.

End AlertQueue.

(** ** Dicts keyed by track id *)

Section DictFacts.

Context {V : Type}.
Implicit Types (d : Dict.t V) (k : Z).

Lemma keys_modify k (f : V -> V) d : Dict.keys (Dict.modify k f d) = Dict.keys d.
Proof.
  induction d as [|[k' v] r IH]; [reflexivity|].
  cbn [Dict.modify]. destruct (k =? k')%Z; [reflexivity|].
  unfold Dict.keys in *. cbn [map fst]. rewrite IH. reflexivity.
Qed.

Lemma get_notin k d : ~ In k (Dict.keys d) -> Dict.get k d = None.
Proof.
  induction d as [|[k' v] r IH]; [reflexivity|].
  cbn [Dict.keys map fst In Dict.get]. intros H.
  destruct (k =? k')%Z eqn:E.
  - apply Z.eqb_eq in E. subst. tauto.
  - apply IH. tauto.
Qed.

Lemma get_in k d v : Dict.get k d = Some v -> In k (Dict.keys d).
Proof.
  induction d as [|[k' v'] r IH]; [discriminate|].
  cbn [Dict.keys map fst In Dict.get].
  destruct (k =? k')%Z eqn:E.
  - apply Z.eqb_eq in E. auto.
  - intros H. right. apply IH. exact H.
Qed.

Lemma keys_set_fresh k v d :
  ~ In k (Dict.keys d) -> Dict.keys (Dict.set k v d) = Dict.keys d ++ [k].
Proof.
  induction d as [|[k' v'] r IH]; [reflexivity|].
  cbn [Dict.keys map fst In Dict.set]. intros H.
  destruct (k =? k')%Z eqn:E.
  - apply Z.eqb_eq in E. subst. tauto.
  - cbn [map fst app]. unfold Dict.keys in IH. rewrite IH by tauto. reflexivity.
Qed.

Lemma keys_del_incl k d x : In x (Dict.keys (Dict.del k d)) -> In x (Dict.keys d).
Proof.
  induction d as [|[k' v] r IH]; [auto|].
  cbn [Dict.del]. destruct (k =? k')%Z.
  - cbn [Dict.keys map fst In]. auto.
  - cbn [Dict.keys map fst In]. intros [H|H]; [auto|right; apply IH; exact H].
Qed.

Lemma keys_del_NoDup k d : NoDup (Dict.keys d) -> NoDup (Dict.keys (Dict.del k d)).
Proof.
  induction d as [|[k' v] r IH]; [auto|].
  cbn [Dict.del Dict.keys map fst]. intros H. inversion H as [|? ? Hn Hr]; subst.
  destruct (k =? k')%Z; [exact Hr|].
  cbn [Dict.keys map fst]. constructor; [|apply IH; exact Hr].
  intros Hin. apply Hn. apply (keys_del_incl k r). exact Hin.
Qed.

Lemma get_del k d x :
  NoDup (Dict.keys d) ->
  Dict.get x (Dict.del k d) = if (x =? k)%Z then None else Dict.get x d.
Proof.
  induction d as [|[k' v] r IH]; intros H.
  - cbn. destruct (x =? k)%Z; reflexivity.
  - cbn [Dict.keys map fst] in H. inversion H as [|? ? Hn Hr]; subst.
    cbn [Dict.del Dict.get]. destruct (k =? k')%Z eqn:E.
    + apply Z.eqb_eq in E. subst k'. destruct (x =? k)%Z eqn:E'.
      * apply Z.eqb_eq in E'. subst. apply get_notin. exact Hn.
      * reflexivity.
    + cbn [Dict.get]. rewrite IH by exact Hr.
      destruct (x =? k')%Z eqn:E1; [|reflexivity].
      apply Z.eqb_eq in E1. subst k'.
      destruct (x =? k)%Z eqn:E2; [|reflexivity].
      apply Z.eqb_eq in E2. subst. rewrite Z.eqb_refl in E. discriminate.
Qed.

Lemma get_fold_del ids d x :
  NoDup (Dict.keys d) ->
  Dict.get x (fold_left (fun d k => Dict.del k d) ids d) =
  if ObjectTracker.mem x ids then None else Dict.get x d.
Proof.
  revert d. induction ids as [|k ids IH]; intros d H; [reflexivity|].
  cbn [fold_left]. rewrite IH by (apply keys_del_NoDup; exact H).
  rewrite get_del by exact H. unfold ObjectTracker.mem. cbn [existsb].
  destruct (x =? k)%Z; cbn [orb]; [|reflexivity].
  destruct (existsb (Z.eqb x) ids); reflexivity.
Qed.

Lemma keys_fold_del_incl ids d x :
  In x (Dict.keys (fold_left (fun d k => Dict.del k d) ids d)) ->
  In x (Dict.keys d).
Proof.
  revert d. induction ids as [|k ids IH]; intros d H; [exact H|].
  cbn [fold_left] in H. apply IH in H. apply (keys_del_incl k d). exact H.
Qed.

Lemma keys_fold_del_NoDup ids d :
  NoDup (Dict.keys d) ->
  NoDup (Dict.keys (fold_left (fun d k => Dict.del k d) ids d)).
Proof.
  revert d. induction ids as [|k ids IH]; intros d H; [exact H|].
  cbn [fold_left]. apply IH, keys_del_NoDup, H.
Qed.

Lemma nth_error_get n d k v :
  NoDup (Dict.keys d) -> nth_error d n = Some (k, v) -> Dict.get k d = Some v.
Proof.
  revert n. induction d as [|[k' v'] r IH]; intros n H Hn.
  - destruct n; discriminate.
  - cbn [Dict.keys map fst] in H. inversion H as [|? ? Hnot Hr]; subst.
    destruct n as [|n]; cbn [nth_error] in Hn.
    + injection Hn as -> ->. cbn [Dict.get]. rewrite Z.eqb_refl. reflexivity.
    + cbn [Dict.get]. destruct (k =? k')%Z eqn:E.
      * apply Z.eqb_eq in E. subst k'. exfalso. apply Hnot.
        apply (get_in k r v). apply (IH n Hr Hn).
      * apply (IH n Hr Hn).
Qed.

Lemma modify_app_notin k (f : V -> V) pre d :
  ~ In k (Dict.keys pre) ->
  Dict.modify k f (pre ++ d) = pre ++ Dict.modify k f d.
Proof.
  induction pre as [|[k' v] r IH]; [reflexivity|].
  cbn [Dict.keys map fst In app Dict.modify]. intros H.
  destruct (k =? k')%Z eqn:E.
  - apply Z.eqb_eq in E. subst. tauto.
  - unfold Dict.keys in IH. rewrite IH by tauto. reflexivity.
Qed.

End DictFacts.

(** ** The per-frame update of the tracker *)

Section TrackerUpdate.

Import ClkMonad.

Variable clock : nat -> Q.
Variable sqrt : Q -> Q.

(** An invariant of the loop body is an invariant of the loop. *)
Lemma foldM_invariant {A S} (P : S -> Prop) (f : S -> A -> Clk S) l :
  (forall s a n, P s -> P (fst (f s a n))) ->
  forall s n, P s -> P (fst (foldM f l s n)).
Proof.
  intros Hf. induction l as [|a l IH]; intros s n Hs; [exact Hs|].
  cbn [foldM]. unfold bind. destruct (f s a n) as [s' n'] eqn:E.
  apply IH. pose proof (Hf s a n Hs) as H. rewrite E in H. exact H.
Qed.

Lemma expired_tracks_loop objs acc n :
  foldM (fun (acc : list Z) (entry : Z * TrackedObject.t) =>
           bind (time_time clock) (fun now =>
           if TrackedObject.is_expired (snd entry)
                TrackedObject.default_max_age
                TrackedObject.default_max_missed now
           then ret (acc ++ [fst entry]) else ret acc))
        objs acc n =
  (acc ++ expired_from clock n objs, (n + List.length objs)%nat).
Proof.
  revert acc n. induction objs as [|[k obj] r IH]; intros acc n.
  - cbn. rewrite app_nil_r, Nat.add_0_r. reflexivity.
  - cbn [foldM]. unfold bind at 1. unfold bind at 1. unfold time_time at 1.
    cbn [snd fst expired_from]. unfold expired_now.
    destruct (TrackedObject.is_expired obj _ _ (clock n)); unfold ret at 1;
      rewrite IH; cbn [List.length];
      rewrite <- ?app_assoc, ?app_nil_l, Nat.add_succ_r; reflexivity.
Qed.

Lemma expired_tracks_eq objs n :
  ObjectTracker.expired_tracks clock objs n =
  (expired_from clock n objs, (n + List.length objs)%nat).
Proof. unfold ObjectTracker.expired_tracks. apply expired_tracks_loop. Qed.

Lemma expired_from_in n objs tid :
  In tid (expired_from clock n objs) <->
  exists k obj, nth_error objs k = Some (tid, obj) /\
                expired_now obj (clock (n + k)) = true.
Proof.
  revert n. induction objs as [|[k0 obj0] r IH]; intros n.
  - cbn. split; [contradiction|]. intros (k & obj & H & _).
    destruct k; discriminate.
  - cbn [expired_from]. rewrite in_app_iff, IH. split.
    + intros [H|(k & obj & Hk & He)].
      * destruct (expired_now obj0 (clock n)) eqn:E; [|contradiction].
        destruct H as [<-|[]]. exists O, obj0. rewrite Nat.add_0_r. auto.
      * exists (S k), obj. rewrite Nat.add_succ_r. auto.
    + intros (k & obj & Hk & He). destruct k as [|k].
      * cbn in Hk. injection Hk as -> ->. rewrite Nat.add_0_r in He.
        rewrite He. left. left. reflexivity.
      * right. exists k, obj. rewrite Nat.add_succ_r in He. auto.
Qed.

Lemma nth_error_key_unique {V} (d : Dict.t V) i j k v v' :
  NoDup (Dict.keys d) ->
  nth_error d i = Some (k, v) -> nth_error d j = Some (k, v') ->
  i = j /\ v = v'.
Proof.
  intros Hnd Hi Hj.
  assert (Hki : nth_error (Dict.keys d) i = Some k).
  { unfold Dict.keys. rewrite nth_error_map, Hi. reflexivity. }
  assert (Hkj : nth_error (Dict.keys d) j = Some k).
  { unfold Dict.keys. rewrite nth_error_map, Hj. reflexivity. }
  assert (i = j).
  { apply (proj1 (NoDup_nth_error (Dict.keys d)) Hnd).
    - apply nth_error_Some. rewrite Hki. discriminate.
    - congruence. }
  subst. split; [reflexivity|congruence].
Qed.

Lemma mem_in x l : ObjectTracker.mem x l = true <-> In x l.
Proof.
  unfold ObjectTracker.mem. rewrite existsb_exists. split.
  - intros (y & Hy & E). apply Z.eqb_eq in E. subst. exact Hy.
  - intros H. exists x. split; [exact H|apply Z.eqb_refl].
Qed.

(** What the expiry does to the table it is given. *)
Lemma remove_expired_get self n k tid obj :
  NoDup (Dict.keys (ObjectTracker.tracked_objects self)) ->
  nth_error (ObjectTracker.tracked_objects self) k = Some (tid, obj) ->
  Dict.get tid
    (ObjectTracker.tracked_objects
       (fst (ObjectTracker.remove_expired clock self n))) =
  if expired_now obj (clock (n + k)) then None else Some obj.
Proof.
  intros Hnd Hk. unfold ObjectTracker.remove_expired, bind.
  rewrite expired_tracks_eq. unfold ret. cbn [fst ObjectTracker.with_objects
    ObjectTracker.tracked_objects].
  rewrite get_fold_del by exact Hnd.
  rewrite (nth_error_get k _ tid obj Hnd Hk).
  destruct (expired_now obj (clock (n + k))) eqn:E.
  - replace (ObjectTracker.mem tid _) with true; [reflexivity|].
    symmetry. apply mem_in, expired_from_in. exists k, obj. auto.
  - replace (ObjectTracker.mem tid _) with false; [reflexivity|].
    symmetry. destruct (ObjectTracker.mem tid _) eqn:M; [|reflexivity].
    apply mem_in, expired_from_in in M as (k' & obj' & Hk' & He).
    destruct (nth_error_key_unique _ k k' tid obj obj' Hnd Hk Hk') as [-> ->].
    congruence.
Qed.

Lemma remove_expired_absent self n tid :
  Dict.get tid (ObjectTracker.tracked_objects self) = None ->
  Dict.get tid
    (ObjectTracker.tracked_objects
       (fst (ObjectTracker.remove_expired clock self n))) = None.
Proof.
  intros H. unfold ObjectTracker.remove_expired, bind.
  rewrite expired_tracks_eq. unfold ret. cbn [fst ObjectTracker.with_objects
    ObjectTracker.tracked_objects].
  destruct (Dict.get tid (fold_left _ _ _)) as [v|] eqn:E; [|reflexivity].
  apply get_in, keys_fold_del_incl in E.
  destruct (In_dec Z.eq_dec tid (Dict.keys (ObjectTracker.tracked_objects self)))
    as [Hin|Hn].
  - exfalso. clear E. revert H Hin.
    induction (ObjectTracker.tracked_objects self) as [|[k' v'] r IH];
      [contradiction|].
    cbn [Dict.get Dict.keys map fst In]. destruct (tid =? k')%Z eqn:E';
      [discriminate|].
    intros Hg [->|Hin]; [rewrite Z.eqb_refl in E'; discriminate|auto].
  - contradiction.
Qed.

Lemma is_expired_iff obj now :
  expired_now obj now = true <->
  5 < now - TrackedObject.last_seen obj \/
  (10 < TrackedObject.missed_frames obj)%Z.
Proof.
  unfold expired_now, TrackedObject.is_expired,
    TrackedObject.default_max_age, TrackedObject.default_max_missed.
  rewrite orb_true_iff, Qgtb_true, Z.ltb_lt.
  assert (H : forall x, 5.0 < x <-> 5 < x).
  { intros x. split; intros Hx; lra. }
  rewrite H. reflexivity.
Qed.

(** *** The table stays well formed *)

Lemma mark_missed_keys objs ids :
  Dict.keys (ObjectTracker.mark_missed objs ids) = Dict.keys objs.
Proof.
  unfold ObjectTracker.mark_missed. revert objs.
  induction ids as [|k ids IH]; intros objs; [reflexivity|].
  cbn [fold_left]. rewrite IH. apply keys_modify.
Qed.

Lemma update_matched_keys dets objs m n :
  Dict.keys (fst (ObjectTracker.update_matched clock dets objs m n)) =
  Dict.keys objs.
Proof.
  unfold ObjectTracker.update_matched. destruct m as [i tid].
  destruct (nth_error dets i); [|reflexivity].
  unfold bind, time_time, ret. cbn [fst]. apply keys_modify.
Qed.

Lemma create_track_wf dets self i n :
  wf_tracker self ->
  wf_tracker (fst (ObjectTracker.create_track clock dets self i n)).
Proof.
  intros [Hnd Hlt]. unfold ObjectTracker.create_track.
  destruct (nth_error dets i); [|split; assumption].
  unfold bind, time_time, ret. cbn [fst].
  assert (Hfresh : ~ In (ObjectTracker.next_track_id self)
                       (Dict.keys (ObjectTracker.tracked_objects self))).
  { intros Hin. rewrite Forall_forall in Hlt. apply Hlt in Hin. lia. }
  unfold wf_tracker.
  cbn [ObjectTracker.tracked_objects ObjectTracker.next_track_id].
  rewrite keys_set_fresh by exact Hfresh. split.
  - apply NoDup_app; [exact Hnd|repeat constructor; intros []|].
    intros x Hx [<-|[]]. contradiction.
  - apply Forall_app. split.
    + eapply Forall_impl; [|exact Hlt]. cbn. intros; lia.
    + constructor; [lia|constructor].
Qed.

Lemma update_tracks_wf self dets n :
  wf_tracker self ->
  wf_tracker (fst (ObjectTracker.update_tracks clock sqrt self dets n)).
Proof.
  intros Hwf. unfold ObjectTracker.update_tracks, bind.
  destruct (ObjectTracker.match_detections clock sqrt self _ n) as [mr n0].
  destruct (foldM (ObjectTracker.update_matched clock _) _ _ n0)
    as [objs n1] eqn:E1.
  assert (Hk : Dict.keys objs =
               Dict.keys (ObjectTracker.tracked_objects self)).
  { change objs with (fst (objs, n1)). rewrite <- E1.
    apply (foldM_invariant
             (fun o => Dict.keys o =
                       Dict.keys (ObjectTracker.tracked_objects self)));
      [|reflexivity].
    intros s a k Hs. rewrite update_matched_keys. exact Hs. }
  destruct (foldM (ObjectTracker.create_track clock _) _ _ n1)
    as [self1 n2] eqn:E2.
  assert (Hwf1 : wf_tracker self1).
  { change self1 with (fst (self1, n2)). rewrite <- E2.
    apply (foldM_invariant wf_tracker).
    - intros s a k Hs. apply create_track_wf. exact Hs.
    - unfold wf_tracker.
      cbn [ObjectTracker.with_objects ObjectTracker.tracked_objects
           ObjectTracker.next_track_id].
      rewrite Hk. exact Hwf. }
  unfold ret. cbn [fst]. unfold wf_tracker.
  cbn [ObjectTracker.with_objects ObjectTracker.tracked_objects
       ObjectTracker.next_track_id].
  rewrite mark_missed_keys. exact Hwf1.
Qed.

(** *** A frame without detections misses every track *)

Lemma mark_missed_all pre objs :
  NoDup (Dict.keys objs) ->
  (forall k, In k (Dict.keys objs) -> ~ In k (Dict.keys pre)) ->
  ObjectTracker.mark_missed (pre ++ objs) (Dict.keys objs) =
  pre ++ all_missed objs.
Proof.
  revert pre. induction objs as [|[k v] r IH]; intros pre Hnd Hpre;
    [reflexivity|].
  cbn [Dict.keys map fst] in Hnd. inversion Hnd as [|? ? Hn Hr]; subst.
  unfold ObjectTracker.mark_missed in *.
  cbn [Dict.keys map fst fold_left all_missed].
  rewrite modify_app_notin by (apply Hpre; left; reflexivity).
  cbn [Dict.modify]. rewrite Z.eqb_refl.
  change (pre ++ (k, TrackedObject.miss_frame v) :: r)
    with (pre ++ [(k, TrackedObject.miss_frame v)] ++ r).
  rewrite app_assoc. unfold Dict.keys in IH. rewrite IH.
  - rewrite <- app_assoc. reflexivity.
  - exact Hr.
  - intros x Hx. rewrite map_app, in_app_iff. cbn [map fst In].
    intros [Hin|[<-|[]]].
    + apply (Hpre x); [right; exact Hx|exact Hin].
    + apply Hn. exact Hx.
Qed.

Lemma update_tracks_empty_frame self n :
  NoDup (Dict.keys (ObjectTracker.tracked_objects self)) ->
  ObjectTracker.update_tracks clock sqrt self [] n =
  (ObjectTracker.with_objects self
     (all_missed (ObjectTracker.tracked_objects self)), n).
Proof.
  intros Hnd. unfold ObjectTracker.update_tracks, bind. cbn [map].
  unfold ObjectTracker.match_detections, ret.
  cbn [ObjectTracker.matches ObjectTracker.unmatched_detections
       ObjectTracker.unmatched_tracks foldM].
  unfold ret.
  cbn [ObjectTracker.with_objects ObjectTracker.tracked_objects
       ObjectTracker.config ObjectTracker.next_track_id
       ObjectTracker.max_distance_threshold].
  pose proof (mark_missed_all [] _ Hnd) as H. cbn [app] in H.
  rewrite H; [reflexivity|]. intros k _ [].
Qed.

Lemma update_final self dets n :
  snd (fst (ObjectTracker.update clock sqrt self dets n)) =
  fst (ObjectTracker.remove_expired clock
         (fst (ObjectTracker.update_tracks clock sqrt self dets n))
         (snd (ObjectTracker.update_tracks clock sqrt self dets n))).
Proof.
  unfold ObjectTracker.update, bind.
  destruct (ObjectTracker.update_tracks clock sqrt self dets n) as [mid n1].
  cbn [fst snd].
  destruct (ObjectTracker.remove_expired clock mid n1) as [s2 n2].
  destruct (ObjectTracker.stable_objects clock s2 n2). reflexivity.
Qed.

(** Every tracker reached from [ObjectTracker.__init__] by updates is
    well formed. *)
Lemma init_wf cfg : wf_tracker (ObjectTracker.__init__ cfg).
Proof. split; constructor. Qed.

Lemma update_wf self dets n :
  wf_tracker self ->
  wf_tracker (snd (fst (ObjectTracker.update clock sqrt self dets n))).
Proof.
  intros Hwf. rewrite update_final.
  pose proof (update_tracks_wf self dets n Hwf) as [Hnd Hlt].
  destruct (ObjectTracker.update_tracks clock sqrt self dets n) as [mid n1].
  cbn [fst snd] in *. unfold ObjectTracker.remove_expired, bind.
  rewrite expired_tracks_eq. unfold ret. cbn [fst]. unfold wf_tracker.
  cbn [ObjectTracker.with_objects ObjectTracker.tracked_objects
       ObjectTracker.next_track_id].
  split; [apply keys_fold_del_NoDup; exact Hnd|].
  rewrite Forall_forall in *. intros x Hx. apply Hlt.
  apply (keys_fold_del_incl _ _ _ Hx).
Qed.

End TrackerUpdate.

(** ** Matching detections with tracks *)

Section Matching.

Import ClkMonad ObjectTracker.

Variable clock : nat -> Q.
Variable sqrt : Q -> Q.

Lemma mapM_elements {A B} (f : A -> Clk B) (l : list A) (n : nat) :
  Forall2 (fun a b => exists k, b = fst (f a k)) l (fst (mapM f l n)).
Proof.
  revert n. induction l as [|a l IH]; intros n; [constructor|].
  cbn [mapM]. unfold bind at 1. destruct (f a n) as [b n1] eqn:E1.
  unfold bind at 1. specialize (IH n1).
  destruct (mapM f l n1) as [bs n2]. unfold ret. cbn [fst] in *.
  constructor; [|exact IH]. exists n. rewrite E1. reflexivity.
Qed.

Lemma similarity_row_of self detection n :
  row_of sqrt self detection (fst (similarity_row clock sqrt self detection n)).
Proof.
  unfold row_of, similarity_row.
  eapply Forall2_impl; [|apply mapM_elements].
  intros entry s [k ->]. unfold bind, time_time, ret. cbn [fst].
  eexists. reflexivity.
Qed.

Lemma similarity_matrix_rows self dets n :
  Forall2 (row_of sqrt self) dets (fst (mapM (similarity_row clock sqrt self) dets n)).
Proof.
  eapply Forall2_impl; [|apply mapM_elements].
  intros d row [k ->]. apply similarity_row_of.
Qed.

(** A similarity above the threshold is one of a track of the class of
    the detection. *)
Lemma similarity_above_threshold self detection obj now :
  0.3 < similarity sqrt self detection
          (TrackedObject.get_current_detection obj now) ->
  Detection.class_id detection = TrackedObject.class_id obj.
Proof.
  unfold similarity, TrackedObject.get_current_detection.
  destruct (TrackedObject.positions obj) as [|p ps]; [intros H; lra|].
  cbn [Detection.class_id].
  destruct (Detection.class_id detection =? TrackedObject.class_id obj)%Z eqn:E.
  - intros _. apply Z.eqb_eq. exact E.
  - intros H. lra.
Qed.

Lemma best_track_ok ids row used :
  forall pre_ids pre_row best,
    List.length pre_ids = List.length pre_row ->
    best_ok (pre_ids ++ ids) (pre_row ++ row) used best ->
    best_ok (pre_ids ++ ids) (pre_row ++ row) used
      (best_track ids row used (List.length pre_ids) best).
Proof.
  revert row. induction ids as [|tid ids IH]; intros row pre_ids pre_row best Hl Hb;
    [exact Hb|].
  destruct row as [|s row]; [exact Hb|].
  cbn [best_track].
  replace (pre_ids ++ tid :: ids) with ((pre_ids ++ [tid]) ++ ids)
    in * by (rewrite <- app_assoc; reflexivity).
  replace (pre_row ++ s :: row) with ((pre_row ++ [s]) ++ row)
    in * by (rewrite <- app_assoc; reflexivity).
  replace (S (List.length pre_ids)) with (List.length (pre_ids ++ [tid]))
    by (rewrite length_app; cbn; lia).
  apply IH; [rewrite !length_app; cbn; lia|].
  destruct (negb (mem tid used) && Qgtb s (fst best)) eqn:E; [|exact Hb].
  apply andb_true_iff in E as [Eu Es]. apply negb_true_iff in Eu.
  apply Qgtb_true in Es. destruct Hb as [Hb _].
  split; cbn [fst snd]; [lra|].
  exists tid. repeat split.
  - rewrite <- app_assoc. rewrite nth_error_app2 by lia.
    rewrite Nat.sub_diag. reflexivity.
  - rewrite <- app_assoc. rewrite nth_error_app2 by lia.
    rewrite Hl, Nat.sub_diag. reflexivity.
  - lra.
  - exact Eu.
Qed.

Lemma best_track_start ids row used :
  best_ok ids row used (best_track ids row used 0 (0.3, None)).
Proof.
  apply (best_track_ok ids row used [] [] (0.3, None)); [reflexivity|].
  split; cbn; [lra|exact I].
Qed.


Lemma list_remove_in t l x :
  NoDup l -> (In x (list_remove t l) <-> In x l /\ x <> t).
Proof.
  induction l as [|y l IH]; intros Hnd; [cbn; tauto|].
  inversion Hnd as [|? ? Hn Hl]; subst. cbn [list_remove].
  destruct (t =? y)%Z eqn:E.
  - apply Z.eqb_eq in E. subst y. cbn [In]. split.
    + intros H. split; [right; exact H|]. intros ->. contradiction.
    + intros [[H|H] Hne]; [congruence|exact H].
  - apply Z.eqb_neq in E. cbn [In]. rewrite (IH Hl). split.
    + intros [H|[H Hne]]; [split; [left; exact H|congruence]|tauto].
    + intros [[H|H] Hne]; [left; exact H|right; tauto].
Qed.

Lemma list_remove_NoDup t l : NoDup l -> NoDup (list_remove t l).
Proof.
  induction l as [|y l IH]; intros Hnd; [constructor|].
  inversion Hnd as [|? ? Hn Hl]; subst. cbn [list_remove].
  destruct (t =? y)%Z; [exact Hl|]. constructor; [|apply IH; exact Hl].
  intros H. apply (list_remove_in t l y Hl) in H. tauto.
Qed.

Lemma greedy_invariant ids rest :
  forall pre g,
    greedy_ok ids (pre ++ rest) (List.length pre) g ->
    greedy_ok ids (pre ++ rest) (List.length pre + List.length rest)
      (greedy ids rest (List.length pre) g).
Proof.
  induction rest as [|row rest IH]; intros pre g Hg.
  - cbn [greedy List.length]. rewrite Nat.add_0_r. exact Hg.
  - cbn [greedy List.length].
    replace (pre ++ row :: rest) with ((pre ++ [row]) ++ rest)
      in * by (rewrite <- app_assoc; reflexivity).
    replace (List.length pre + S (List.length rest))%nat
      with (List.length (pre ++ [row]) + List.length rest)%nat
      by (rewrite length_app; cbn; lia).
    replace (S (List.length pre)) with (List.length (pre ++ [row]))
      by (rewrite length_app; cbn; lia).
    apply IH.
    destruct Hg as (Hm & Hu & Hnd & Hndu & Hun & Hperm).
    pose proof (best_track_start ids row (g_used_tracks g)) as [_ Hb].
    assert (Hrow : nth_error ((pre ++ [row]) ++ rest) (List.length pre) =
                   Some row).
    { rewrite <- app_assoc. rewrite nth_error_app2 by lia.
      rewrite Nat.sub_diag. reflexivity. }
    assert (Hseq : seq 0 (List.length (pre ++ [row])) =
                   seq 0 (List.length pre) ++ [List.length pre]).
    { rewrite length_app. cbn [List.length]. rewrite Nat.add_1_r, seq_S.
      reflexivity. }
    destruct (snd (best_track ids row (g_used_tracks g) 0 (0.3, None)))
      as [j|] eqn:Ej.
    + destruct Hb as (tid & Hid & Hs & Hgt & Hnot).
      rewrite (nth_error_nth ids j 0%Z Hid).
      assert (Hfresh : ~ In tid (g_used_tracks g)).
      { intros Hin. apply mem_in in Hin. congruence. }
      unfold greedy_ok.
      cbn [g_matches g_unmatched_detections g_unmatched_tracks g_used_tracks].
      rewrite !map_app. cbn [map fst snd].
      split; [|split; [|split; [|split; [|split]]]].
      * apply Forall_app. split; [exact Hm|].
        constructor; [|constructor].
        exists row, j, (fst (best_track ids row (g_used_tracks g) 0 (0.3, None))).
        cbn [fst snd]. auto.
      * intros x. cbn [In]. rewrite in_app_iff, Hu. cbn [In]. tauto.
      * apply NoDup_app; [exact Hnd|repeat constructor; intros []|].
        intros x Hx [<-|[]]. apply Hfresh, Hu, Hx.
      * apply list_remove_NoDup. exact Hndu.
      * intros x. rewrite (list_remove_in tid _ x Hndu), Hun. cbn [In].
        split; [intros [[Hi Hn] Hne]|intros [Hi Hn]].
        -- split; [exact Hi|]. intros [H|H]; [congruence|contradiction].
        -- repeat split; [exact Hi|tauto|]. intros ->. tauto.
      * rewrite Hseq. rewrite <- app_assoc.
        eapply perm_trans;
          [apply Permutation_app_head,
                 Permutation_app_comm|].
        rewrite app_assoc. apply Permutation_app_tail. exact Hperm.
    + unfold greedy_ok.
      cbn [g_matches g_unmatched_detections g_unmatched_tracks g_used_tracks].
      split; [|split; [|split; [|split; [|split]]]]; try assumption.
      rewrite Hseq, app_assoc. apply Permutation_app_tail.
      exact Hperm.
Qed.


Lemma Forall2_nth_error_r {A B} (R : A -> B -> Prop) l l' i b :
  Forall2 R l l' -> nth_error l' i = Some b ->
  exists a, nth_error l i = Some a /\ R a b.
Proof.
  intros H. revert i. induction H as [|x y l l' Hxy _ IH]; intros i Hi.
  - destruct i; discriminate.
  - destruct i as [|i]; cbn [nth_error] in *.
    + injection Hi as <-. exists x. auto.
    + apply IH. exact Hi.
Qed.

Lemma match_detections_greedy self dets n :
  NoDup (Dict.keys (tracked_objects self)) ->
  exists matrix g,
    Forall2 (row_of sqrt self) dets matrix /\
    greedy_ok (Dict.keys (tracked_objects self)) matrix (List.length dets) g /\
    fst (match_detections clock sqrt self dets n) =
    mkMatchResult (g_matches g) (g_unmatched_detections g)
      (g_unmatched_tracks g).
Proof.
  intros Hnd.
  assert (H0 : forall matrix,
    greedy_ok (Dict.keys (tracked_objects self)) matrix 0
      (mkGreedy [] [] (Dict.keys (tracked_objects self)) [])).
  { intros matrix. unfold greedy_ok.
    cbn [g_matches g_unmatched_detections g_unmatched_tracks g_used_tracks
         map app seq In].
    repeat split; try constructor; tauto. }
  unfold match_detections. destruct dets as [|d dets].
  - exists [], (mkGreedy [] [] (Dict.keys (tracked_objects self)) []).
    split; [constructor|]. split; [apply H0|reflexivity].
  - unfold bind.
    pose proof (similarity_matrix_rows self (d :: dets) n) as Hrows.
    destruct (mapM (similarity_row clock sqrt self) (d :: dets) n)
      as [matrix n1]. cbn [fst] in Hrows.
    exists matrix, (greedy (Dict.keys (tracked_objects self)) matrix 0
                      (mkGreedy [] [] (Dict.keys (tracked_objects self)) [])).
    split; [exact Hrows|]. split; [|reflexivity].
    rewrite (Forall2_length Hrows).
    apply (greedy_invariant (Dict.keys (tracked_objects self)) matrix []).
    apply H0.
Qed.

(** X2.  In a table without repeated ids the matching gives no track to
    two detections and matches only tracks of the table; the tracks it
    leaves unmatched are exactly the tracks of the table it did not
    match; and every index of the frame is among the matched or the
    unmatched detections, once. *)
Theorem match_detections_structure self dets n :
  NoDup (Dict.keys (tracked_objects self)) ->
  let r := fst (match_detections clock sqrt self dets n) in
  NoDup (map snd (matches r)) /\
  (forall tid, In tid (map snd (matches r)) ->
               In tid (Dict.keys (tracked_objects self))) /\
  (forall tid, In tid (unmatched_tracks r) <->
               In tid (Dict.keys (tracked_objects self)) /\
               ~ In tid (map snd (matches r))) /\
  Permutation (map fst (matches r) ++ unmatched_detections r)
              (seq 0 (List.length dets)).
Proof.
  intros Hnd r. subst r.
  destruct (match_detections_greedy self dets n Hnd)
    as (matrix & g & _ & Hg & ->).
  destruct Hg as (Hm & Hu & Hndm & _ & Hun & Hperm).
  cbn [matches unmatched_detections unmatched_tracks].
  split; [exact Hndm|]. split; [|split; [|exact Hperm]].
  - intros tid Hin. apply in_map_iff in Hin as ([i t] & <- & Hin).
    rewrite Forall_forall in Hm. destruct (Hm _ Hin) as (row & j & s & _ & Hj & _).
    cbn [snd] in *. apply (nth_error_In _ _ Hj).
  - intros tid. rewrite Hun, Hu. reflexivity.
Qed.

End Matching.

(** [near_tracker] meeting the person it tracks and a second person. *)
Lemma match_detections_structure_witness :
  let r := fst (ObjectTracker.match_detections ticking_clock (fun x => x)
                  near_tracker [near_person; person_box] 0%nat) in
  NoDup (map snd (ObjectTracker.matches r)) /\
  Permutation (map fst (ObjectTracker.matches r) ++
               ObjectTracker.unmatched_detections r) [0%nat; 1%nat].
Proof.
  assert (Hnd : NoDup (Dict.keys (ObjectTracker.tracked_objects near_tracker))).
  { cbn. constructor; [intros []|constructor]. }
  destruct (match_detections_structure ticking_clock (fun x => x)
              near_tracker [near_person; person_box] 0%nat Hnd)
    as (H1 & _ & _ & H4).
  split; [exact H1|exact H4].
Defined.

(** ** The table of tracks across a frame *)

Section TrackerFrames.

Import ClkMonad ObjectTracker.

Variable clock : nat -> Q.
Variable sqrt : Q -> Q.

Lemma set_fresh_app {V} k (v : V) d :
  ~ In k (Dict.keys d) -> Dict.set k v d = d ++ [(k, v)].
Proof.
  induction d as [|[k' v'] r IH]; [reflexivity|].
  cbn [Dict.set Dict.keys map fst In app]. intros H.
  destruct (k =? k')%Z eqn:E.
  - apply Z.eqb_eq in E. subst. exfalso. apply H. left. reflexivity.
  - f_equal. apply IH. intros Hin. apply H. right. exact Hin.
Qed.

Lemma fresh_ids_S next k :
  fresh_ids next (S k) = next :: fresh_ids (next + 1) k.
Proof.
  unfold fresh_ids. cbn [seq map]. rewrite Z.add_0_r. f_equal.
  rewrite <- seq_shift, map_map. apply map_ext. intros i. lia.
Qed.

Lemma fresh_ids_in next k tid :
  In tid (fresh_ids next k) <-> (next <= tid < next + Z.of_nat k)%Z.
Proof.
  unfold fresh_ids. rewrite in_map_iff. split.
  - intros (i & <- & Hi). apply in_seq in Hi. lia.
  - intros H. exists (Z.to_nat (tid - next)). split; [lia|].
    apply in_seq. lia.
Qed.

Lemma foldM_cons {A S} (f : S -> A -> Clk S) a l s n :
  foldM f (a :: l) s n = foldM f l (fst (f s a n)) (snd (f s a n)).
Proof. cbn [foldM]. unfold bind. destruct (f s a n). reflexivity. Qed.

(** The loop that creates the tracks of the unmatched detections. *)
Lemma create_tracks_spec dets idxs :
  forall self n,
    wf_tracker self ->
    Forall (fun i => (i < List.length dets)%nat) idxs ->
    let self' := fst (foldM (create_track clock dets) idxs self n) in
    exists created,
      tracked_objects self' = tracked_objects self ++ created /\
      Dict.keys created = fresh_ids (next_track_id self) (List.length idxs) /\
      Forall unstable (Dict.values created) /\
      tracks_have_history created /\
      next_track_id self' = (next_track_id self + len idxs)%Z /\
      config self' = config self /\
      max_distance_threshold self' = max_distance_threshold self.
Proof.
  induction idxs as [|i idxs IH]; intros self n Hwf Hidx self'.
  - subst self'. exists []. cbn. rewrite app_nil_r. unfold len. cbn.
    repeat split; try constructor. lia.
  - subst self'. inversion Hidx as [|? ? Hi Hrest]; subst.
    rewrite foldM_cons.
    destruct (create_track clock dets self i n) as [self1 n1] eqn:E1.
    cbn [fst snd].
    pose proof (create_track_wf clock dets self i n Hwf) as Hwf1.
    rewrite E1 in Hwf1. cbn [fst] in Hwf1.
    unfold create_track in E1.
    destruct (nth_error dets i) as [det|] eqn:Ed;
      [|apply nth_error_None in Ed; lia].
    unfold bind, time_time, ret in E1. injection E1 as <- <-.
    assert (Hfresh : ~ In (next_track_id self)
                       (Dict.keys (tracked_objects self))).
    { destruct Hwf as [_ Hlt]. rewrite Forall_forall in Hlt.
      intros Hin. apply Hlt in Hin. lia. }
    rewrite (set_fresh_app _ _ _ Hfresh) in *.
    destruct (IH _ (S (S n)) Hwf1 Hrest)
      as (created & Hobjs & Hkeys & Hun & Hh & Hnext & Hc & Hm).
    cbn [tracked_objects next_track_id config max_distance_threshold] in *.
    eexists (_ :: created). split.
    { rewrite Hobjs, <- app_assoc. reflexivity. }
    split.
    { unfold Dict.keys in *. cbn [map fst List.length].
      rewrite fresh_ids_S, Hkeys. reflexivity. }
    split.
    { unfold Dict.values in *. cbn [map snd].
      constructor; [reflexivity|exact Hun]. }
    split.
    { unfold tracks_have_history, Dict.values in *. cbn [map snd].
      constructor; [discriminate|exact Hh]. }
    split; [rewrite Hnext; unfold len; cbn [List.length]; lia|].
    split; assumption.
Qed.

Lemma update_matched_loop_keys dets ms objs n :
  Dict.keys (fst (foldM (update_matched clock dets) ms objs n)) =
  Dict.keys objs.
Proof.
  apply (foldM_invariant (fun o => Dict.keys o = Dict.keys objs));
    [|reflexivity].
  intros s a k Hs. rewrite update_matched_keys. exact Hs.
Qed.

Lemma unmatched_in_range self dets n :
  NoDup (Dict.keys (tracked_objects self)) ->
  Forall (fun i => (i < List.length dets)%nat)
    (unmatched_detections (fst (match_detections clock sqrt self dets n))).
Proof.
  intros Hnd.
  destruct (match_detections_greedy clock sqrt self dets n Hnd)
    as (matrix & g & _ & Hg & ->).
  destruct Hg as (_ & _ & _ & _ & _ & Hperm).
  cbn [unmatched_detections].
  apply Forall_forall. intros i Hi.
  assert (Hin : In i (seq 0 (List.length dets))).
  { eapply Permutation_in; [exact Hperm|]. apply in_or_app. right. exact Hi. }
  apply in_seq in Hin. lia.
Qed.

(** Missing a frame changes neither the ids nor the stability. *)
Lemma stability_modify_miss k d :
  stability (Dict.modify k TrackedObject.miss_frame d) = stability d.
Proof.
  induction d as [|[k' v] r IH]; [reflexivity|].
  cbn [Dict.modify]. destruct (k =? k')%Z; [reflexivity|].
  unfold stability in *. cbn [map]. rewrite IH. reflexivity.
Qed.

Lemma stability_mark_missed objs ids :
  stability (mark_missed objs ids) = stability objs.
Proof.
  unfold mark_missed. revert objs.
  induction ids as [|k ids IH]; intros objs; [reflexivity|].
  cbn [fold_left]. rewrite IH. apply stability_modify_miss.
Qed.

Lemma stability_keys d : map fst (stability d) = Dict.keys d.
Proof. unfold stability, Dict.keys. rewrite map_map. reflexivity. Qed.

Lemma stability_stable d :
  map snd (stability d) = map TrackedObject.is_stable (Dict.values d).
Proof. unfold stability, Dict.values. rewrite !map_map. reflexivity. Qed.

Lemma stability_unstable d d' :
  stability d' = stability d ->
  Forall unstable (Dict.values d) -> Forall unstable (Dict.values d').
Proof.
  intros E H.
  assert (Hs : map TrackedObject.is_stable (Dict.values d') =
               map TrackedObject.is_stable (Dict.values d)).
  { rewrite <- !stability_stable, E. reflexivity. }
  unfold unstable in *.
  revert Hs H. generalize (Dict.values d) (Dict.values d').
  intros l. induction l as [|x l IH]; intros [|y l'] Hs H;
    try discriminate; [constructor|].
  cbn [map] in Hs. injection Hs as Hxy Hl. inversion H; subst.
  constructor; [congruence|]. apply IH; assumption.
Qed.

(** The table after the matching part of [update]. *)
Lemma update_tracks_table self dets n :
  wf_tracker self ->
  let r := fst (match_detections clock sqrt self (map (with_distance sqrt) dets) n) in
  let mid := fst (update_tracks clock sqrt self dets n) in
  exists old created,
    tracked_objects mid = old ++ created /\
    Dict.keys old = Dict.keys (tracked_objects self) /\
    Dict.keys created =
      fresh_ids (next_track_id self) (List.length (unmatched_detections r)) /\
    Forall unstable (Dict.values created) /\
    next_track_id mid =
      (next_track_id self + len (unmatched_detections r))%Z /\
    config mid = config self.
Proof.
  intros Hwf r mid. subst r mid. unfold update_tracks, bind.
  pose proof (unmatched_in_range self (map (with_distance sqrt) dets) n
                (proj1 Hwf)) as Hrange.
  destruct (match_detections clock sqrt self (map (with_distance sqrt) dets) n)
    as [mr n0]. cbn [fst] in *.
  pose proof (update_matched_loop_keys (map (with_distance sqrt) dets)
                (matches mr) (tracked_objects self) n0) as Hk.
  destruct (foldM (update_matched clock _) _ _ n0) as [objs n1].
  cbn [fst] in Hk.
  assert (Hwf0 : wf_tracker (with_objects self objs)).
  { unfold wf_tracker. cbn [with_objects tracked_objects next_track_id].
    rewrite Hk. exact Hwf. }
  destruct (create_tracks_spec (map (with_distance sqrt) dets)
              (unmatched_detections mr) (with_objects self objs) n1 Hwf0 Hrange)
    as (created & Hobjs & Hkeys & Hun & _ & Hnext & Hc & _).
  destruct (foldM (create_track clock _) _ _ n1) as [self1 n2].
  cbn [fst with_objects tracked_objects next_track_id config] in *.
  unfold ret. cbn [fst with_objects tracked_objects next_track_id config].
  pose proof (stability_mark_missed (tracked_objects self1)
                (unmatched_tracks mr)) as Hst.
  set (m := mark_missed (tracked_objects self1) (unmatched_tracks mr)) in *.
  exists (firstn (List.length objs) m), (skipn (List.length objs) m).
  assert (Hsplit : stability (firstn (List.length objs) m) = stability objs /\
                   stability (skipn (List.length objs) m) = stability created).
  { unfold stability in *. rewrite <- firstn_map, <- skipn_map, Hst, Hobjs.
    rewrite map_app.
    set (g := fun entry : Z * TrackedObject.t =>
                (fst entry, TrackedObject.is_stable (snd entry))).
    replace (List.length objs) with (List.length (map g objs))
      by apply length_map.
    rewrite firstn_app, skipn_app, Nat.sub_diag, firstn_all, skipn_all.
    cbn [firstn skipn]. rewrite app_nil_r. split; reflexivity. }
  destruct Hsplit as [Hf Hs].
  split; [symmetry; apply firstn_skipn|].
  split; [rewrite <- stability_keys, Hf, stability_keys; exact Hk|].
  split; [rewrite <- stability_keys, Hs, stability_keys; exact Hkeys|].
  split; [apply (stability_unstable _ _ Hs Hun)|].
  split; assumption.
Qed.


(** X3.  After the matching part of [update] on a well-formed tracker the
    table consists of the old tracks, in their order, followed by one new
    track for each unmatched detection, with the ids [next_track_id],
    [next_track_id + 1], and so on, none of them stable yet; [update]
    advances [next_track_id] by the number of unmatched detections; every
    id of the table it leaves is an id of the old table or one of the new
    ones; hence an id below the old [next_track_id] that is not in the
    table does not come back. *)
Theorem update_gives_fresh_ids self dets n :
  wf_tracker self ->
  let r := fst (match_detections clock sqrt self
                  (map (with_distance sqrt) dets) n) in
  let mid := fst (update_tracks clock sqrt self dets n) in
  let final := snd (fst (update clock sqrt self dets n)) in
  (exists old created,
      tracked_objects mid = old ++ created /\
      Dict.keys old = Dict.keys (tracked_objects self) /\
      Dict.keys created =
        fresh_ids (next_track_id self)
                  (List.length (unmatched_detections r)) /\
      Forall unstable (Dict.values created)) /\
  next_track_id final =
    (next_track_id self + len (unmatched_detections r))%Z /\
  (forall tid, In tid (Dict.keys (tracked_objects final)) ->
     In tid (Dict.keys (tracked_objects self)) \/
     (next_track_id self <= tid < next_track_id final)%Z) /\
  (forall tid, (tid < next_track_id self)%Z ->
     ~ In tid (Dict.keys (tracked_objects self)) ->
     ~ In tid (Dict.keys (tracked_objects final))).
Proof.
  intros Hwf r mid final.
  destruct (update_tracks_table self dets n Hwf)
    as (old & created & Hobjs & Hold & Hnew & Hun & Hnext & _).
  fold r mid in Hobjs, Hold, Hnew, Hun, Hnext.
  assert (Hfinal : next_track_id final = next_track_id mid /\
                   forall tid, In tid (Dict.keys (tracked_objects final)) ->
                               In tid (Dict.keys (tracked_objects mid))).
  { subst final mid. rewrite update_final.
    destruct (update_tracks clock sqrt self dets n) as [m n1].
    cbn [fst snd]. unfold remove_expired, bind.
    rewrite expired_tracks_eq. unfold ret.
    cbn [fst with_objects tracked_objects next_track_id].
    split; [reflexivity|]. intros tid. apply keys_fold_del_incl. }
  destruct Hfinal as [Hn Hincl].
  assert (Hkeys : forall tid, In tid (Dict.keys (tracked_objects final)) ->
     In tid (Dict.keys (tracked_objects self)) \/
     (next_track_id self <= tid < next_track_id final)%Z).
  { intros tid Hin. apply Hincl in Hin. rewrite Hobjs in Hin.
    unfold Dict.keys in Hin. rewrite map_app in Hin.
    apply in_app_or in Hin as [Hin|Hin].
    - left. fold (Dict.keys old) in Hin. rewrite Hold in Hin. exact Hin.
    - right. fold (Dict.keys created) in Hin. rewrite Hnew in Hin.
      apply fresh_ids_in in Hin. rewrite Hn, Hnext. unfold len. lia. }
  split; [exists old, created; auto|].
  split; [rewrite Hn; exact Hnext|].
  split; [exact Hkeys|].
  intros tid Hlt Hnot Hin. destruct (Hkeys tid Hin) as [H|H]; [tauto|lia].
Qed.


(** *** What a frame reports *)

Lemma foldM_prefix {A S} (P : list A -> S -> Prop) (f : S -> A -> Clk S) :
  (forall pre a s k, P pre s -> P (pre ++ [a]) (fst (f s a k))) ->
  forall l s n, P [] s -> P l (fst (foldM f l s n)).
Proof.
  intros Hstep l.
  assert (H : forall pre s n, P pre s -> P (pre ++ l) (fst (foldM f l s n))).
  { induction l as [|a l IH]; intros pre s n Hs.
    - rewrite app_nil_r. exact Hs.
    - rewrite foldM_cons.
      replace (pre ++ a :: l) with ((pre ++ [a]) ++ l)
        by (rewrite <- app_assoc; reflexivity).
      apply IH. apply Hstep. exact Hs. }
  intros s n Hs. apply (H [] s n Hs).
Qed.

Lemma Forall2_snoc {A B} (R : A -> B -> Prop) l l' a b :
  Forall2 R l l' -> R a b -> Forall2 R (l ++ [a]) (l' ++ [b]).
Proof. intros H Hab. apply Forall2_app; [exact H|repeat constructor; exact Hab]. Qed.

Lemma view_flags obj det :
  view_of obj det ->
  is_stable_flag det = Some (TrackedObject.is_stable obj) /\
  Detection.track_id det = Some (TrackedObject.track_id obj) /\
  Detection.class_id det = TrackedObject.class_id obj /\
  should_alert_flag det = None /\ urgency det = None.
Proof.
  intros [now H]. unfold TrackedObject.get_current_detection in H.
  destruct (TrackedObject.positions obj); [discriminate|].
  injection H as <-. cbn. repeat split.
Qed.

(** The last loop of [update]. *)
Lemma stable_objects_views self n :
  tracks_have_history (tracked_objects self) ->
  Forall2 view_of (stable_tracks (tracked_objects self))
          (fst (stable_objects clock self n)).
Proof.
  unfold tracks_have_history, stable_tracks, stable_objects.
  generalize (Dict.values (tracked_objects self)). intros l Hh.
  apply (foldM_prefix
           (fun pre acc =>
              Forall (fun o => TrackedObject.positions o <> []) pre ->
              Forall2 view_of (filter TrackedObject.is_stable pre) acc));
    [|intros _; constructor|exact Hh].
  intros pre o acc k IH Hpre. apply Forall_app in Hpre as [Hpre Ho].
  inversion Ho as [|? ? Hpos _]; subst.
  rewrite filter_app. cbn [filter].
  destruct (TrackedObject.is_stable o).
  - unfold bind, time_time.
    destruct (TrackedObject.get_current_detection o (clock k)) as [det|] eqn:E.
    + unfold ret. cbn [fst]. apply Forall2_snoc; [apply IH; exact Hpre|].
      exists (clock k). exact E.
    + unfold TrackedObject.get_current_detection in E.
      destruct (TrackedObject.positions o); [contradiction|discriminate].
  - unfold ret. cbn [fst]. rewrite app_nil_r. apply IH. exact Hpre.
Qed.

Lemma append_bounded_nonempty {A} (l : list A) x :
  TrackedObject.append_bounded 10 l x <> [].
Proof.
  unfold TrackedObject.append_bounded.
  destruct (10 <? len (l ++ [x]))%Z eqn:E.
  - apply Z.ltb_lt in E. unfold len in E.
    destruct (l ++ [x]) as [|a [|b r]]; cbn in *; [lia|lia|discriminate].
  - destruct l; discriminate.
Qed.

Lemma history_modify k f (d : Dict.t TrackedObject.t) :
  (forall o, TrackedObject.positions o <> [] ->
             TrackedObject.positions (f o) <> []) ->
  tracks_have_history d -> tracks_have_history (Dict.modify k f d).
Proof.
  intros Hf. unfold tracks_have_history, Dict.values.
  induction d as [|[k' v] r IH]; intros H; [constructor|].
  cbn [map snd] in H. inversion H as [|? ? Hv Hr]; subst.
  cbn [Dict.modify]. destruct (k =? k')%Z; cbn [map snd]; constructor; auto.
Qed.

Lemma history_set k v (d : Dict.t TrackedObject.t) :
  TrackedObject.positions v <> [] ->
  tracks_have_history d -> tracks_have_history (Dict.set k v d).
Proof.
  intros Hv. unfold tracks_have_history, Dict.values.
  induction d as [|[k' v'] r IH]; intros H;
    [repeat constructor; exact Hv|].
  cbn [map snd] in H. inversion H as [|? ? Hv' Hr]; subst.
  cbn [Dict.set]. destruct (k =? k')%Z; cbn [map snd]; constructor; auto.
Qed.

Lemma history_del k (d : Dict.t TrackedObject.t) :
  tracks_have_history d -> tracks_have_history (Dict.del k d).
Proof.
  unfold tracks_have_history, Dict.values.
  induction d as [|[k' v'] r IH]; intros H; [constructor|].
  cbn [map snd] in H. inversion H as [|? ? Hv' Hr]; subst.
  cbn [Dict.del]. destruct (k =? k')%Z; [exact Hr|].
  cbn [map snd]. constructor; auto.
Qed.

Lemma update_matched_history dets objs m n :
  tracks_have_history objs ->
  tracks_have_history (fst (update_matched clock dets objs m n)).
Proof.
  intros Hs. unfold update_matched. destruct m as [i tid].
  destruct (nth_error _ i); [|exact Hs].
  unfold bind, time_time, ret. cbn [fst].
  apply history_modify; [|exact Hs].
  intros o _. cbn [TrackedObject.update TrackedObject.positions].
  apply append_bounded_nonempty.
Qed.

Lemma create_track_history dets self i n :
  tracks_have_history (tracked_objects self) ->
  tracks_have_history
    (tracked_objects (fst (create_track clock dets self i n))).
Proof.
  intros Hs. unfold create_track. destruct (nth_error _ i); [|exact Hs].
  unfold bind, time_time, ret. cbn [fst tracked_objects].
  apply history_set; [discriminate|exact Hs].
Qed.

Lemma update_tracks_history self dets n :
  tracks_have_history (tracked_objects self) ->
  tracks_have_history
    (tracked_objects (fst (update_tracks clock sqrt self dets n))).
Proof.
  intros Hh. unfold update_tracks, bind.
  destruct (match_detections clock sqrt self _ n) as [mr n0].
  pose proof (foldM_invariant tracks_have_history
                (update_matched clock (map (with_distance sqrt) dets))
                (matches mr)
                (fun s a k Hs => update_matched_history _ s a k Hs)
                (tracked_objects self) n0 Hh) as H1.
  destruct (foldM (update_matched clock _) _ _ n0) as [objs n1].
  cbn [fst] in H1.
  pose proof (foldM_invariant
                (fun s => tracks_have_history (tracked_objects s))
                (create_track clock (map (with_distance sqrt) dets))
                (unmatched_detections mr)
                (fun s a k Hs => create_track_history _ s a k Hs)
                (with_objects self objs) n1 H1) as H2.
  destruct (foldM (create_track clock _) _ _ n1) as [self1 n2].
  cbn [fst] in H2. unfold ret. cbn [fst with_objects tracked_objects].
  unfold mark_missed.
  generalize dependent (tracked_objects self1).
  induction (unmatched_tracks mr) as [|k ids IH]; intros d Hd; [exact Hd|].
  cbn [fold_left]. apply IH. apply history_modify; [|exact Hd].
  intros o Ho. exact Ho.
Qed.

Lemma update_history self dets n :
  tracks_have_history (tracked_objects self) ->
  tracks_have_history
    (tracked_objects (snd (fst (update clock sqrt self dets n)))).
Proof.
  intros Hh. rewrite update_final.
  pose proof (update_tracks_history self dets n Hh) as Hm.
  destruct (update_tracks clock sqrt self dets n) as [mid n1].
  cbn [fst snd] in *. unfold remove_expired, bind.
  destruct (expired_tracks clock (tracked_objects mid) n1) as [ids n2].
  unfold ret. cbn [fst with_objects tracked_objects].
  generalize dependent (tracked_objects mid).
  induction ids as [|k ids IH]; intros d Hd; [exact Hd|].
  cbn [fold_left]. apply IH. apply history_del. exact Hd.
Qed.

Lemma update_output self dets n :
  fst (fst (update clock sqrt self dets n)) =
  fst (stable_objects clock (snd (fst (update clock sqrt self dets n)))
         (snd (remove_expired clock
                 (fst (update_tracks clock sqrt self dets n))
                 (snd (update_tracks clock sqrt self dets n))))).
Proof.
  unfold update, bind.
  destruct (update_tracks clock sqrt self dets n) as [mid n1].
  cbn [fst snd].
  destruct (remove_expired clock mid n1) as [s2 n2].
  cbn [fst snd].
  destruct (stable_objects clock s2 n2) as [l n3] eqn:E.
  unfold ret. cbn [fst snd]. rewrite E. reflexivity.
Qed.

(** X4.  If every track of the tracker has a position, so has every track
    after [update], and [update] returns, in the order of the table it
    leaves, one dict for each stable track of that table, the one
    [get_current_detection] builds for the track: every dict returned has
    [is_stable] true and a track id, and neither [should_alert] nor
    [urgency]. *)
Theorem update_reports_stable_tracks self dets n :
  tracks_have_history (tracked_objects self) ->
  let out := fst (fst (update clock sqrt self dets n)) in
  let final := snd (fst (update clock sqrt self dets n)) in
  tracks_have_history (tracked_objects final) /\
  Forall2 view_of (stable_tracks (tracked_objects final)) out /\
  Forall (fun det => is_stable_flag det = Some true /\
                     Detection.track_id det <> None /\
                     should_alert_flag det = None /\
                     urgency det = None) out.
Proof.
  intros Hh out final.
  pose proof (update_history self dets n Hh) as Hf. fold final in Hf.
  assert (Hv : Forall2 view_of (stable_tracks (tracked_objects final)) out).
  { subst out. rewrite update_output. fold final.
    apply stable_objects_views. exact Hf. }
  split; [exact Hf|]. split; [exact Hv|].
  assert (Hs : Forall (fun o => TrackedObject.is_stable o = true)
                 (stable_tracks (tracked_objects final))).
  { apply Forall_forall. intros o Ho. apply filter_In in Ho. tauto. }
  revert Hs. induction Hv as [|o det l l' Hod _ IH]; intros Hs;
    [constructor|].
  inversion Hs as [|? ? Ho Hl]; subst.
  constructor; [|apply IH; exact Hl].
  destruct (view_flags o det Hod) as (H1 & H2 & _ & H4 & H5).
  rewrite H1, H2, Ho. repeat split; try assumption. discriminate.
Qed.


Lemma unstable_del k (d : Dict.t TrackedObject.t) :
  Forall unstable (Dict.values d) -> Forall unstable (Dict.values (Dict.del k d)).
Proof.
  unfold Dict.values.
  induction d as [|[k' v'] r IH]; intros H; [constructor|].
  cbn [map snd] in H. inversion H as [|? ? Hv' Hr]; subst.
  cbn [Dict.del]. destruct (k =? k')%Z; [exact Hr|].
  cbn [map snd]. constructor; auto.
Qed.

Lemma unstable_no_stable_tracks d :
  Forall unstable (Dict.values d) -> stable_tracks d = [].
Proof.
  unfold stable_tracks. generalize (Dict.values d). intros l H.
  induction H as [|o l Ho _ IH]; [reflexivity|].
  cbn [filter]. unfold unstable in Ho. rewrite Ho. exact IH.
Qed.

Lemma empty_table_matches_nothing self dets n :
  tracked_objects self = [] ->
  List.length
    (unmatched_detections (fst (match_detections clock sqrt self dets n))) =
  List.length dets.
Proof.
  intros He.
  assert (Hnd : NoDup (Dict.keys (tracked_objects self)))
    by (rewrite He; constructor).
  destruct (match_detections_greedy clock sqrt self dets n Hnd)
    as (matrix & g & _ & Hg & ->).
  destruct Hg as (Hm & _ & _ & _ & _ & Hperm).
  cbn [unmatched_detections]. rewrite He in Hm.
  assert (Hnil : g_matches g = []).
  { destruct (g_matches g) as [|m ms]; [reflexivity|].
    inversion Hm as [|? ? (row & j & s & _ & Hj & _) _]; subst.
    destruct j; discriminate. }
  rewrite Hnil in Hperm. cbn [map app] in Hperm.
  rewrite (Permutation_length Hperm). apply length_seq.
Qed.

(** X5.  On a tracker without tracks the matching part of [update] creates
    one track for each detection of the frame, with consecutive ids from
    [next_track_id] on, none of them stable; [next_track_id] advances by
    the number of detections; and [update] returns no object. *)
Theorem first_frame_reports_nothing self dets n :
  tracked_objects self = [] ->
  let mid := fst (update_tracks clock sqrt self dets n) in
  let out := fst (fst (update clock sqrt self dets n)) in
  let final := snd (fst (update clock sqrt self dets n)) in
  Dict.keys (tracked_objects mid) =
    fresh_ids (next_track_id self) (List.length dets) /\
  Forall unstable (Dict.values (tracked_objects mid)) /\
  next_track_id final = (next_track_id self + len dets)%Z /\
  out = [].
Proof.
  intros He mid out final.
  assert (Hwf : wf_tracker self).
  { unfold wf_tracker. rewrite He. split; constructor. }
  destruct (update_tracks_table self dets n Hwf)
    as (old & created & Hobjs & Hold & Hnew & Hun & Hnext & _).
  fold mid in Hobjs, Hnext.
  rewrite (empty_table_matches_nothing self _ n He), length_map in Hnew.
  unfold len in Hnext.
  rewrite (empty_table_matches_nothing self _ n He), length_map in Hnext.
  rewrite He in Hold. destruct old; [|discriminate]. cbn [app] in Hobjs.
  assert (Hfinal : next_track_id final = next_track_id mid /\
                   Forall unstable (Dict.values (tracked_objects final))).
  { subst final mid. rewrite update_final.
    destruct (update_tracks clock sqrt self dets n) as [m n1].
    cbn [fst snd] in *. unfold remove_expired, bind.
    destruct (expired_tracks clock (tracked_objects m) n1) as [ids n2].
    unfold ret. cbn [fst with_objects tracked_objects next_track_id].
    split; [reflexivity|]. rewrite Hobjs. clear Hobjs Hnew.
    revert created Hun.
    induction ids as [|k ids IH]; intros d Hd; [exact Hd|].
    cbn [fold_left]. apply IH. apply unstable_del. exact Hd. }
  destruct Hfinal as [Hn Hfu].
  rewrite Hobjs. split; [exact Hnew|]. split; [exact Hun|].
  split; [rewrite Hn, Hnext; reflexivity|].
  assert (Hh : tracks_have_history (tracked_objects self))
    by (rewrite He; constructor).
  pose proof (update_history self dets n Hh) as Hf. fold final in Hf.
  pose proof (stable_objects_views final
                (snd (remove_expired clock
                        (fst (update_tracks clock sqrt self dets n))
                        (snd (update_tracks clock sqrt self dets n)))) Hf)
    as Hv.
  subst out. rewrite update_output. fold final.
  rewrite (unstable_no_stable_tracks _ Hfu) in Hv.
  inversion Hv. reflexivity.
Qed.

(** *** The tracks due for an alert *)





End TrackerFrames.

(** [near_tracker], whose next id is 2, meeting a frame: no id below 2
    other than 1 is in the table afterwards. *)
Lemma update_gives_fresh_ids_witness :
  ~ In 0%Z (Dict.keys (ObjectTracker.tracked_objects
              (snd (fst (ObjectTracker.update ticking_clock (fun x => x)
                           near_tracker [person_box; person_box] 0%nat))))).
Proof.
  assert (Hwf : wf_tracker near_tracker).
  { split; cbn.
    - constructor; [intros []|constructor].
    - constructor; [reflexivity|constructor]. }
  destruct (update_gives_fresh_ids ticking_clock (fun x => x) near_tracker
              [person_box; person_box] 0%nat Hwf) as (_ & _ & _ & H).
  apply H; [reflexivity|]. cbn. intros [H0|[]]. discriminate.
Defined.

Lemma update_reports_stable_tracks_witness :
  let r := fst (ObjectTracker.update ticking_clock (fun x => x)
                  near_tracker [near_person] 0%nat) in
  Forall2 view_of
    (stable_tracks (ObjectTracker.tracked_objects (snd r))) (fst r).
Proof.
  assert (Hh : tracks_have_history
                 (ObjectTracker.tracked_objects near_tracker)).
  { repeat constructor. discriminate. }
  destruct (update_reports_stable_tracks ticking_clock (fun x => x)
              near_tracker [near_person] 0%nat Hh) as (_ & H & _).
  exact H.
Defined.

(** The first frame of a new tracker. *)
Lemma first_frame_reports_nothing_witness :
  fst (fst (ObjectTracker.update ticking_clock (fun x => x)
              (ObjectTracker.__init__ default_config)
              [person_box; near_person] 0%nat)) = [].
Proof.
  destruct (first_frame_reports_nothing ticking_clock (fun x => x)
              (ObjectTracker.__init__ default_config)
              [person_box; near_person] 0%nat eq_refl) as (_ & _ & _ & H).
  exact H.
Defined.
(** ** The greedy assignment leaves no pair above the threshold *)

Section Greedy.

Import ClkMonad ObjectTracker.

Variable clock : nat -> Q.
Variable sqrt : Q -> Q.

(** The inner loop keeps the largest similarity of an unused track. *)
Lemma best_track_bound ids :
  forall row used j0 best,
    let res := best_track ids row used j0 best in
    fst best <= fst res /\
    (snd res = None -> res = best) /\
    (forall j tid s,
       nth_error ids j = Some tid -> nth_error row j = Some s ->
       mem tid used = false -> s <= fst res).
Proof.
  induction ids as [|tid0 ids IH]; intros row used j0 best res; subst res.
  - cbn [best_track]. split; [lra|]. split; [auto|].
    intros j tid s H. destruct j; discriminate.
  - destruct row as [|s0 row].
    { cbn [best_track]. split; [lra|]. split; [auto|].
      intros j tid s _ H. destruct j; discriminate. }
    cbn [best_track].
    set (best' := if negb (mem tid0 used) && Qgtb s0 (fst best)
                  then (s0, Some j0) else best).
    destruct (IH row used (S j0) best') as (H1 & H2 & H3).
    assert (Hb : fst best <= fst best' /\
                 (snd best' = None -> best' = best) /\
                 (mem tid0 used = false -> s0 <= fst best')).
    { subst best'. destruct (mem tid0 used); cbn [negb andb].
      - split; [lra|]. split; [auto|discriminate].
      - qcase (Qgtb s0 (fst best)) Hs; cbn [fst snd].
        + split; [lra|]. split; [discriminate|intros _; lra].
        + split; [lra|]. split; [auto|intros _; exact Hs]. }
    destruct Hb as (B1 & B2 & B3).
    split; [lra|]. split.
    + intros Hn. pose proof (H2 Hn) as E. rewrite E in Hn |- *.
      apply B2. exact Hn.
    + intros j tid s Hj Hs Hu. destruct j as [|j]; cbn [nth_error] in Hj, Hs.
      * injection Hj as ->. injection Hs as ->. specialize (B3 Hu). lra.
      * apply (H3 j tid s Hj Hs Hu).
Qed.

Lemma best_track_none ids row used j tid s :
  snd (best_track ids row used 0 (0.3, None)) = None ->
  nth_error ids j = Some tid -> nth_error row j = Some s ->
  ~ In tid used -> s <= 0.3.
Proof.
  intros Hn Hj Hs Hu.
  destruct (best_track_bound ids row used 0%nat (0.3, None)) as (_ & H2 & H3).
  assert (Hm : mem tid used = false).
  { destruct (mem tid used) eqn:E; [|reflexivity].
    apply mem_in in E. contradiction. }
  specialize (H3 j tid s Hj Hs Hm). rewrite (H2 Hn) in H3. exact H3.
Qed.

Lemma greedy_unmatched ids rest :
  forall pre g,
    (forall i, In i (g_unmatched_detections g) -> (i < List.length pre)%nat) ->
    unmatched_ok ids (pre ++ rest) g ->
    unmatched_ok ids (pre ++ rest) (greedy ids rest (List.length pre) g).
Proof.
  induction rest as [|row rest IH]; intros pre g Hlt Hg; [exact Hg|].
  cbn [greedy].
  replace (pre ++ row :: rest) with ((pre ++ [row]) ++ rest)
    in * by (rewrite <- app_assoc; reflexivity).
  replace (S (List.length pre)) with (List.length (pre ++ [row]))
    by (rewrite length_app; cbn; lia).
  assert (Hrow : nth_error ((pre ++ [row]) ++ rest) (List.length pre) =
                 Some row).
  { rewrite <- app_assoc. rewrite nth_error_app2 by lia.
    rewrite Nat.sub_diag. reflexivity. }
  destruct (snd (best_track ids row (g_used_tracks g) 0 (0.3, None)))
    as [jb|] eqn:Eb.
  - apply IH.
    + cbn [g_unmatched_detections]. intros i Hi. apply Hlt in Hi.
      rewrite length_app. cbn. lia.
    + intros i r j tid s Hi Hr Hj Hs Hu.
      cbn [g_unmatched_detections g_used_tracks] in Hi, Hu.
      apply (Hg i r j tid s Hi Hr Hj Hs). intros Hin. apply Hu.
      right. exact Hin.
  - apply IH.
    + cbn [g_unmatched_detections]. intros i Hi.
      rewrite length_app. cbn [List.length].
      apply in_app_or in Hi as [Hi|[<-|[]]]; [apply Hlt in Hi|]; lia.
    + intros i r j tid s Hi Hr Hj Hs Hu.
      cbn [g_unmatched_detections g_used_tracks] in Hi, Hu.
      apply in_app_or in Hi as [Hi|[<-|[]]].
      * apply (Hg i r j tid s Hi Hr Hj Hs Hu).
      * rewrite Hrow in Hr. injection Hr as <-.
        apply (best_track_none ids row (g_used_tracks g) j tid s Eb Hj Hs Hu).
Qed.

Lemma Forall2_nth_error_l {A B} (R : A -> B -> Prop) l l' i a :
  Forall2 R l l' -> nth_error l i = Some a ->
  exists b, nth_error l' i = Some b /\ R a b.
Proof.
  intros H. revert i. induction H as [|x y l l' Hxy _ IH]; intros i Hi.
  - destruct i; discriminate.
  - destruct i as [|i]; cbn [nth_error] in *.
    + injection Hi as <-. exists y. auto.
    + apply IH. exact Hi.
Qed.

(** The similarity does not depend on the reading of the clock. *)
Lemma similarity_any_time self det obj now now' :
  similarity sqrt self det (TrackedObject.get_current_detection obj now) =
  similarity sqrt self det (TrackedObject.get_current_detection obj now').
Proof.
  unfold similarity, TrackedObject.get_current_detection.
  destruct (TrackedObject.positions obj); reflexivity.
Qed.

(** What the greedy assignment leaves unmatched. *)
Lemma match_detections_complete self dets n i tid det obj now :
  NoDup (Dict.keys (tracked_objects self)) ->
  let r := fst (match_detections clock sqrt self dets n) in
  In i (unmatched_detections r) -> In tid (unmatched_tracks r) ->
  nth_error dets i = Some det ->
  Dict.get tid (tracked_objects self) = Some obj ->
  similarity sqrt self det (TrackedObject.get_current_detection obj now)
  <= 0.3.
Proof.
  intros Hnd r Hi Ht Hdet Hobj. subst r.
  unfold match_detections in Hi, Ht. destruct dets as [|d0 dets].
  { destruct i; discriminate. }
  unfold bind in Hi, Ht.
  pose proof (similarity_matrix_rows clock sqrt self (d0 :: dets) n) as Hrows.
  destruct (mapM (similarity_row clock sqrt self) (d0 :: dets) n)
    as [matrix n1]. cbn [fst] in Hrows.
  unfold ret in Hi, Ht. cbn [fst unmatched_detections unmatched_tracks] in Hi, Ht.
  set (g0 := mkGreedy [] [] (Dict.keys (tracked_objects self)) []) in *.
  set (ids := Dict.keys (tracked_objects self)) in *.
  assert (Hun : unmatched_ok ids matrix (greedy ids matrix 0 g0)).
  { apply (greedy_unmatched ids matrix [] g0).
    - intros x [].
    - intros x r j t s []. }
  assert (Hg : greedy_ok ids matrix (List.length matrix) (greedy ids matrix 0 g0)).
  { apply (greedy_invariant clock sqrt ids matrix [] g0).
    unfold greedy_ok, g0.
    cbn [g_matches g_unmatched_detections g_unmatched_tracks g_used_tracks
         map app seq In].
    repeat split; try constructor; try tauto. }
  destruct Hg as (_ & _ & _ & _ & Hut & _).
  apply Hut in Ht as [Hin Hnu].
  destruct (In_nth_error _ _ Hin) as [j Hj].
  assert (Hentry : nth_error (tracked_objects self) j = Some (tid, obj)).
  { unfold ids, Dict.keys in Hj. rewrite nth_error_map in Hj.
    destruct (nth_error (tracked_objects self) j) as [[k o]|] eqn:E;
      [|discriminate].
    cbn in Hj. injection Hj as ->.
    rewrite (nth_error_get j _ tid o Hnd E) in Hobj. congruence. }
  destruct (Forall2_nth_error_l _ _ _ _ _ Hrows Hdet) as (row & Hrow & Hrowof).
  destruct (Forall2_nth_error_l _ _ _ _ _ Hrowof Hentry) as (s & Hs & now0 & ->).
  cbn [snd] in *.
  rewrite (similarity_any_time self det obj now now0).
  apply (Hun i row j tid _ Hi Hrow Hj Hs Hnu).
Qed.

End Greedy.

(** ** A frame, seen from one track *)

Section FrameOfATrack.

Import ClkMonad ObjectTracker.

Variable clock : nat -> Q.
Variable sqrt : Q -> Q.

Lemma nth_error_modify_same {V} k (f : V -> V) (d : Dict.t V) p v :
  NoDup (Dict.keys d) -> nth_error d p = Some (k, v) ->
  nth_error (Dict.modify k f d) p = Some (k, f v).
Proof.
  revert p. induction d as [|[k' v'] r IH]; intros p Hnd Hp.
  - destruct p; discriminate.
  - cbn [Dict.keys map fst] in Hnd. inversion Hnd as [|? ? Hn Hr]; subst.
    cbn [Dict.modify]. destruct p as [|p]; cbn [nth_error] in Hp.
    + injection Hp as -> ->. rewrite Z.eqb_refl. reflexivity.
    + destruct (k =? k')%Z eqn:E.
      * apply Z.eqb_eq in E. subst k'. exfalso. apply Hn.
        apply nth_error_In in Hp. apply (in_map fst) in Hp. exact Hp.
      * cbn [nth_error]. apply IH; assumption.
Qed.

Lemma nth_error_modify_other {V} k (f : V -> V) (d : Dict.t V) p k' v :
  k <> k' -> nth_error d p = Some (k', v) ->
  nth_error (Dict.modify k f d) p = Some (k', v).
Proof.
  intros Hne. revert p. induction d as [|[k0 v0] r IH]; intros p Hp.
  - destruct p; discriminate.
  - cbn [Dict.modify]. destruct p as [|p]; cbn [nth_error] in Hp.
    + injection Hp as -> ->.
      destruct (k =? k')%Z eqn:E; [apply Z.eqb_eq in E; contradiction|].
      reflexivity.
    + destruct (k =? k0)%Z; cbn [nth_error]; [exact Hp|apply IH; exact Hp].
Qed.

(** The clock only advances. *)
Lemma bind_counter {A B} (c : Clk A) (f : A -> Clk B) n :
  (n <= snd (c n))%nat -> (forall a m, (m <= snd (f a m))%nat) ->
  (n <= snd (bind c f n))%nat.
Proof.
  intros Hc Hf. unfold bind. destruct (c n) as [a n'] eqn:E.
  cbn [snd] in Hc. specialize (Hf a n'). lia.
Qed.

Lemma foldM_counter {A S} (f : S -> A -> Clk S) l :
  (forall s a n, (n <= snd (f s a n))%nat) ->
  forall s n, (n <= snd (foldM f l s n))%nat.
Proof.
  intros Hf. induction l as [|a l IH]; intros s n; [cbn; lia|].
  cbn [foldM]. unfold bind. pose proof (Hf s a n) as H.
  destruct (f s a n) as [s' n']. cbn [snd] in H.
  specialize (IH s' n'). lia.
Qed.

Lemma mapM_counter {A B} (f : A -> Clk B) l :
  (forall a n, (n <= snd (f a n))%nat) ->
  forall n, (n <= snd (mapM f l n))%nat.
Proof.
  intros Hf. induction l as [|a l IH]; intros n; [cbn; lia|].
  cbn [mapM]. unfold bind. pose proof (Hf a n) as H.
  destruct (f a n) as [b n']. cbn [snd] in H.
  specialize (IH n'). destruct (mapM f l n') as [bs n'']. cbn [snd] in *.
  unfold ret. cbn [snd]. lia.
Qed.

Lemma similarity_row_counter self det n :
  (n <= snd (similarity_row clock sqrt self det n))%nat.
Proof.
  unfold similarity_row. apply mapM_counter. intros e k.
  unfold bind, time_time, ret. cbn [snd]. lia.
Qed.

Lemma match_detections_counter self dets n :
  (n <= snd (match_detections clock sqrt self dets n))%nat.
Proof.
  unfold match_detections. destruct dets as [|d dets]; [cbn; lia|].
  unfold bind.
  pose proof (mapM_counter (similarity_row clock sqrt self) (d :: dets)
                (similarity_row_counter self) n) as H.
  destruct (mapM (similarity_row clock sqrt self) (d :: dets) n) as [mx n'].
  unfold ret. cbn [snd] in *. exact H.
Qed.

Lemma update_matched_counter dets objs m n :
  (n <= snd (update_matched clock dets objs m n))%nat.
Proof.
  unfold update_matched. destruct m as [i tid].
  destruct (nth_error dets i); unfold bind, time_time, ret; cbn [snd]; lia.
Qed.

Lemma create_track_counter dets self i n :
  (n <= snd (create_track clock dets self i n))%nat.
Proof.
  unfold create_track.
  destruct (nth_error dets i); unfold bind, time_time, ret; cbn [snd]; lia.
Qed.

(** The loop "Update matched tracks", seen from the track at position
    [p] of the table. *)
Lemma update_matched_loop_entry dets p tid :
  forall ms objs obj n,
    NoDup (map snd ms) -> NoDup (Dict.keys objs) ->
    nth_error objs p = Some (tid, obj) ->
    (forall i, In i (map fst ms) -> exists det, nth_error dets i = Some det) ->
    let res := foldM (update_matched clock dets) ms objs n in
    (~ In tid (map snd ms) -> nth_error (fst res) p = Some (tid, obj)) /\
    (forall i, In (i, tid) ms ->
       exists det k,
         nth_error dets i = Some det /\ (n <= k < snd res)%nat /\
         nth_error (fst res) p =
         Some (tid, TrackedObject.update obj det (clock k))).
Proof.
  induction ms as [|[i0 t0] ms IH]; intros objs obj n Hnd Hk Hp Hidx res;
    subst res.
  - cbn [foldM]. unfold ret. cbn [fst]. split; [auto|]. intros i [].
  - cbn [map snd fst] in Hnd, Hidx. inversion Hnd as [|? ? Hn Hms]; subst.
    destruct (Hidx i0 (or_introl eq_refl)) as [det0 Hdet0].
    assert (Hidx' : forall i, In i (map fst ms) ->
                              exists det, nth_error dets i = Some det).
    { intros i Hi. apply Hidx. right. exact Hi. }
    rewrite foldM_cons.
    assert (Estep : update_matched clock dets objs (i0, t0) n =
                    (Dict.modify t0
                       (fun o => TrackedObject.update o det0 (clock n)) objs,
                     S n)).
    { unfold update_matched. rewrite Hdet0. reflexivity. }
    rewrite Estep. cbn [fst snd].
    set (objs1 := Dict.modify t0
                    (fun o => TrackedObject.update o det0 (clock n)) objs).
    assert (Hk1 : NoDup (Dict.keys objs1))
      by (unfold objs1; rewrite keys_modify; exact Hk).
    pose proof (foldM_counter (update_matched clock dets) ms
                  (update_matched_counter dets) objs1 (S n)) as Hcnt.
    destruct (Z.eq_dec t0 tid) as [->|Hne].
    + assert (Hp1 : nth_error objs1 p =
                    Some (tid, TrackedObject.update obj det0 (clock n))).
      { unfold objs1.
        apply (nth_error_modify_same tid
                 (fun o => TrackedObject.update o det0 (clock n))
                 objs p obj Hk Hp). }
      destruct (IH objs1 _ (S n) Hms Hk1 Hp1 Hidx') as [I1 _].
      split.
      * intros Hnot. exfalso. apply Hnot. left. reflexivity.
      * intros i [E|Hin].
        -- injection E as ->. exists det0, n. split; [exact Hdet0|].
           split; [lia|]. apply I1. exact Hn.
        -- exfalso. apply Hn. apply (in_map snd) in Hin. exact Hin.
    + assert (Hp1 : nth_error objs1 p = Some (tid, obj)).
      { unfold objs1. apply nth_error_modify_other; assumption. }
      destruct (IH objs1 _ (S n) Hms Hk1 Hp1 Hidx') as [I1 I2].
      split.
      * intros Hnot. apply I1. intros Hin. apply Hnot. right. exact Hin.
      * intros i [E|Hin]; [congruence|].
        destruct (I2 i Hin) as (det & k & Hd & Hb & He).
        exists det, k. split; [exact Hd|]. split; [lia|exact He].
Qed.

(** The loop "Mark unmatched tracks as missed", seen from one track. *)
Lemma mark_missed_entry p tid :
  forall ids objs obj,
    NoDup ids -> NoDup (Dict.keys objs) ->
    nth_error objs p = Some (tid, obj) ->
    (In tid ids ->
     nth_error (mark_missed objs ids) p =
     Some (tid, TrackedObject.miss_frame obj)) /\
    (~ In tid ids -> nth_error (mark_missed objs ids) p = Some (tid, obj)).
Proof.
  unfold mark_missed.
  induction ids as [|k ids IH]; intros objs obj Hnd Hk Hp.
  - cbn [fold_left]. split; [intros []|auto].
  - inversion Hnd as [|? ? Hn Hids]; subst. cbn [fold_left].
    assert (Hk1 : NoDup (Dict.keys (Dict.modify k TrackedObject.miss_frame objs)))
      by (rewrite keys_modify; exact Hk).
    destruct (Z.eq_dec k tid) as [->|Hne].
    + pose proof (nth_error_modify_same tid TrackedObject.miss_frame
                    objs p obj Hk Hp) as Hp1.
      destruct (IH _ _ Hids Hk1 Hp1) as [_ I2].
      split; [intros _; apply I2; exact Hn|].
      intros Hnot. exfalso. apply Hnot. left. reflexivity.
    + pose proof (nth_error_modify_other k TrackedObject.miss_frame
                    objs p tid obj Hne Hp) as Hp1.
      destruct (IH _ _ Hids Hk1 Hp1) as [I1 I2].
      split.
      * intros [E|Hin]; [contradiction|apply I1; exact Hin].
      * intros Hnot. apply I2. intros Hin. apply Hnot. right. exact Hin.
Qed.

End FrameOfATrack.

Section FrameOfATrack2.

Import ClkMonad ObjectTracker.

Variable clock : nat -> Q.
Variable sqrt : Q -> Q.

(** The matching part of [update], seen from the track at position [p]
    of the table. *)
Lemma update_tracks_entry self dets n p tid obj :
  wf_tracker self ->
  nth_error (tracked_objects self) p = Some (tid, obj) ->
  let dets' := map (with_distance sqrt) dets in
  let r := fst (match_detections clock sqrt self dets' n) in
  let mid := fst (update_tracks clock sqrt self dets n) in
  let n1 := snd (update_tracks clock sqrt self dets n) in
  (forall i, In (i, tid) (matches r) ->
     exists det k,
       nth_error dets' i = Some det /\ (n <= k < n1)%nat /\
       nth_error (tracked_objects mid) p =
       Some (tid, TrackedObject.update obj det (clock k))) /\
  (In tid (unmatched_tracks r) ->
   nth_error (tracked_objects mid) p =
   Some (tid, TrackedObject.miss_frame obj)) /\
  (In tid (map snd (matches r)) \/ In tid (unmatched_tracks r)).
Proof.
  intros Hwf Hp dets' r mid n1. subst r mid n1.
  destruct Hwf as [Hnd Hlt].
  destruct (match_detections_greedy clock sqrt self dets' n Hnd)
    as (matrix & g & Hrows & Hg & Er).
  pose proof (match_detections_counter clock sqrt self dets' n) as Hcnt0.
  unfold update_tracks, bind. fold dets'.
  destruct (match_detections clock sqrt self dets' n) as [mr n0].
  cbn [fst snd] in Er, Hcnt0 |- *. subst mr.
  cbn [matches unmatched_detections unmatched_tracks].
  destruct Hg as (Hm & Hu & Hndm & Hndu & Hun & Hperm).
  assert (Hidx : forall i, In i (map fst (g_matches g)) ->
                           exists det, nth_error dets' i = Some det).
  { intros i Hi.
    assert (Hin : In i (seq 0 (List.length dets'))).
    { eapply Permutation_in; [exact Hperm|]. apply in_or_app. left. exact Hi. }
    apply in_seq in Hin.
    destruct (nth_error dets' i) as [det|] eqn:E; [exists det; reflexivity|].
    apply nth_error_None in E. lia. }
  assert (Hrange : Forall (fun i => (i < List.length dets')%nat)
                     (g_unmatched_detections g)).
  { apply Forall_forall. intros i Hi.
    assert (Hin : In i (seq 0 (List.length dets'))).
    { eapply Permutation_in; [exact Hperm|]. apply in_or_app. right. exact Hi. }
    apply in_seq in Hin. lia. }
  destruct (update_matched_loop_entry clock dets' p tid (g_matches g)
              (tracked_objects self) obj n0 Hndm Hnd Hp Hidx) as [L1 L2].
  pose proof (update_matched_loop_keys clock dets' (g_matches g)
                (tracked_objects self) n0) as Hk.
  destruct (foldM (update_matched clock dets') (g_matches g)
              (tracked_objects self) n0) as [objs n1a].
  cbn [fst snd] in L1, L2, Hk.
  assert (Hwf0 : wf_tracker (with_objects self objs)).
  { unfold wf_tracker. cbn [with_objects tracked_objects next_track_id].
    rewrite Hk. split; assumption. }
  destruct (create_tracks_spec clock dets' (g_unmatched_detections g)
              (with_objects self objs) n1a Hwf0 Hrange)
    as (created & Hobjs & _).
  pose proof (foldM_invariant wf_tracker (create_track clock dets')
                (g_unmatched_detections g)
                (fun s a k Hs => create_track_wf clock dets' s a k Hs)
                (with_objects self objs) n1a Hwf0) as Hwf1.
  pose proof (foldM_counter (create_track clock dets')
                (g_unmatched_detections g)
                (create_track_counter clock dets')
                (with_objects self objs) n1a) as Hcnt1.
  destruct (foldM (create_track clock dets') (g_unmatched_detections g)
              (with_objects self objs) n1a) as [self1 n2].
  cbn [fst snd with_objects tracked_objects] in Hobjs, Hwf1, Hcnt1.
  unfold ret. cbn [fst snd with_objects tracked_objects].
  assert (Hplen : (p < List.length objs)%nat).
  { assert (Hl : List.length objs = List.length (tracked_objects self)).
    { rewrite <- (length_map fst objs), <- (length_map fst (tracked_objects self)).
      fold (Dict.keys objs). rewrite Hk. reflexivity. }
    rewrite Hl. apply nth_error_Some. rewrite Hp. discriminate. }
  assert (Hmatched : In tid (map snd (g_matches g)) \/
                     In tid (g_unmatched_tracks g)).
  { destruct (In_dec Z.eq_dec tid (map snd (g_matches g))) as [Hin|Hnin];
      [left; exact Hin|right].
    apply Hun. split.
    - apply nth_error_In in Hp. apply (in_map fst) in Hp. exact Hp.
    - intros Hused. apply Hnin, Hu, Hused. }
  split; [|split; [|exact Hmatched]].
  - intros i Hi. destruct (L2 i Hi) as (det & k & Hd & Hb & He).
    exists det, k. split; [exact Hd|]. split; [lia|].
    assert (Hp1 : nth_error (tracked_objects self1) p =
                  Some (tid, TrackedObject.update obj det (clock k))).
    { rewrite Hobjs, nth_error_app1 by exact Hplen. exact He. }
    apply (mark_missed_entry p tid (g_unmatched_tracks g) _ _ Hndu
             (proj1 Hwf1) Hp1).
    intros Hin. apply Hun in Hin as [_ Hnu]. apply Hnu, Hu.
    apply (in_map snd) in Hi. exact Hi.
  - intros Hin. pose proof Hin as Hin'. apply Hun in Hin' as [_ Hnu].
    assert (Hp1 : nth_error (tracked_objects self1) p = Some (tid, obj)).
    { rewrite Hobjs, nth_error_app1 by exact Hplen. apply L1.
      intros Hm'. apply Hnu, Hu, Hm'. }
    apply (mark_missed_entry p tid (g_unmatched_tracks g) _ _ Hndu
             (proj1 Hwf1) Hp1). exact Hin.
Qed.

End FrameOfATrack2.

(** ** Expiry *)

Section Expiry.

Import ClkMonad ObjectTracker.

Variable clock : nat -> Q.
Variable sqrt : Q -> Q.

(** A pair of the matching is a detection and a track of its class,
    more similar than the threshold. *)
Lemma match_detections_sound self dets n i tid :
  NoDup (Dict.keys (tracked_objects self)) ->
  In (i, tid) (matches (fst (match_detections clock sqrt self dets n))) ->
  exists detection obj,
    nth_error dets i = Some detection /\
    Dict.get tid (tracked_objects self) = Some obj /\
    Detection.class_id detection = TrackedObject.class_id obj /\
    forall now,
      0.3 < similarity sqrt self detection
              (TrackedObject.get_current_detection obj now).
Proof.
  intros Hnd Hin.
  destruct (match_detections_greedy clock sqrt self dets n Hnd)
    as (matrix & g & Hrows & Hg & E).
  rewrite E in Hin. cbn [matches] in Hin.
  destruct Hg as (Hm & _). rewrite Forall_forall in Hm.
  destruct (Hm _ Hin) as (row & j & s & Hrow & Hj & Hs & Hgt).
  cbn [fst snd] in *.
  destruct (Forall2_nth_error_r _ _ _ _ _ Hrows Hrow) as (det & Hdet & Hrowof).
  destruct (Forall2_nth_error_r _ _ _ _ _ Hrowof Hs)
    as ([k obj] & Hentry & now0 & ->).
  cbn [snd] in *.
  assert (k = tid).
  { unfold Dict.keys in Hj. rewrite nth_error_map, Hentry in Hj.
    cbn in Hj. congruence. }
  subst k. exists det, obj. split; [exact Hdet|].
  split; [apply (nth_error_get j _ tid obj Hnd Hentry)|].
  split; [apply (similarity_above_threshold sqrt self det obj now0 Hgt)|].
  intros now. rewrite (similarity_any_time sqrt self det obj now now0).
  exact Hgt.
Qed.

Lemma expired_after_update obj det t now :
  expired_now (TrackedObject.update obj det t) now = true <-> 5 < now - t.
Proof.
  rewrite is_expired_iff.
  cbn [TrackedObject.update TrackedObject.last_seen
       TrackedObject.missed_frames].
  split; [intros [H|H]; [exact H|lia]|auto].
Qed.

Lemma expired_after_miss obj now :
  expired_now (TrackedObject.miss_frame obj) now = true <->
  5 < now - TrackedObject.last_seen obj \/
  (10 < TrackedObject.missed_frames obj + 1)%Z.
Proof.
  rewrite is_expired_iff.
  cbn [TrackedObject.miss_frame TrackedObject.last_seen
       TrackedObject.missed_frames]. reflexivity.
Qed.

(** C7.  [is_expired] holds exactly when the track was last seen more
    than 5 seconds before the clock reading or has more than 10 missed
    frames.  Let [mid] be the table of a well-formed tracker after the
    matching part of [update] and [final] the table [update] leaves: a
    track of [mid] is absent from [final] exactly when it is expired at
    its reading of the clock, and is kept unchanged otherwise; in
    particular one with 11 missed frames is removed and one with 9 missed
    frames last seen less than 5 seconds ago is kept; no other track
    appears; and in a frame without detections [mid] is the table of the
    tracker with every track missed once more.  In every frame each
    track of the tracker is matched with a detection or is among the
    unmatched tracks.  An unmatched track reaches the expiry check with
    one more missed frame and its time of last sight unchanged: it is
    removed exactly when it was last seen more than 5 seconds before its
    reading of the clock or this was its eleventh miss or a later one,
    and is kept, missed once more, otherwise; in particular at its
    eleventh miss it is removed, and at its ninth, last seen less than 5
    seconds ago, it survives.  A matched track reaches the check with
    its time of last sight set to a clock reading of this update and no
    missed frame: it is removed only when more than 5 seconds lie
    between that reading and the reading of its check, and survives,
    updated, otherwise.  A matched pair is a detection of the frame and a
    track of its class more similar than 0.3, and no unmatched detection
    is more similar than 0.3 to an unmatched track. *)
Theorem expiry_in_update self dets n :
  wf_tracker self ->
  let dets' := map (with_distance sqrt) dets in
  let r := fst (match_detections clock sqrt self dets' n) in
  let mid := fst (update_tracks clock sqrt self dets n) in
  let n1 := snd (update_tracks clock sqrt self dets n) in
  let final := snd (fst (update clock sqrt self dets n)) in
  (forall obj now,
     expired_now obj now = true <->
     5 < now - TrackedObject.last_seen obj \/
     (10 < TrackedObject.missed_frames obj)%Z) /\
  (forall k tid obj,
     nth_error (tracked_objects mid) k = Some (tid, obj) ->
     let now := clock (n1 + k)%nat in
     (5 < now - TrackedObject.last_seen obj \/
      (10 < TrackedObject.missed_frames obj)%Z ->
      Dict.get tid (tracked_objects final) = None) /\
     (~ (5 < now - TrackedObject.last_seen obj \/
         (10 < TrackedObject.missed_frames obj)%Z) ->
      Dict.get tid (tracked_objects final) = Some obj) /\
     (TrackedObject.missed_frames obj = 11%Z ->
      Dict.get tid (tracked_objects final) = None) /\
     (TrackedObject.missed_frames obj = 9%Z ->
      now - TrackedObject.last_seen obj < 5 ->
      Dict.get tid (tracked_objects final) = Some obj)) /\
  (forall tid,
     Dict.get tid (tracked_objects mid) = None ->
     Dict.get tid (tracked_objects final) = None) /\
  (dets = [] ->
   tracked_objects mid = all_missed (tracked_objects self) /\ n1 = n) /\
  (forall p tid obj,
     nth_error (tracked_objects self) p = Some (tid, obj) ->
     let now := clock (n1 + p)%nat in
     (In tid (map snd (matches r)) \/ In tid (unmatched_tracks r)) /\
     (In tid (unmatched_tracks r) ->
      let missed := TrackedObject.miss_frame obj in
      Dict.get tid (tracked_objects mid) = Some missed /\
      TrackedObject.last_seen missed = TrackedObject.last_seen obj /\
      TrackedObject.missed_frames missed =
        (TrackedObject.missed_frames obj + 1)%Z /\
      (5 < now - TrackedObject.last_seen obj \/
       (10 < TrackedObject.missed_frames obj + 1)%Z ->
       Dict.get tid (tracked_objects final) = None) /\
      (~ (5 < now - TrackedObject.last_seen obj \/
          (10 < TrackedObject.missed_frames obj + 1)%Z) ->
       Dict.get tid (tracked_objects final) = Some missed) /\
      (TrackedObject.missed_frames obj = 10%Z ->
       Dict.get tid (tracked_objects final) = None) /\
      (TrackedObject.missed_frames obj = 8%Z ->
       now - TrackedObject.last_seen obj < 5 ->
       Dict.get tid (tracked_objects final) = Some missed)) /\
     (forall i, In (i, tid) (matches r) ->
        exists det k,
          nth_error dets' i = Some det /\ (n <= k < n1)%nat /\
          let seen := TrackedObject.update obj det (clock k) in
          Dict.get tid (tracked_objects mid) = Some seen /\
          TrackedObject.last_seen seen = clock k /\
          TrackedObject.missed_frames seen = 0%Z /\
          (5 < now - clock k ->
           Dict.get tid (tracked_objects final) = None) /\
          (now - clock k <= 5 ->
           Dict.get tid (tracked_objects final) = Some seen))) /\
  (forall i tid,
     In (i, tid) (matches r) ->
     exists det obj,
       nth_error dets' i = Some det /\
       Dict.get tid (tracked_objects self) = Some obj /\
       Detection.class_id det = TrackedObject.class_id obj /\
       forall now,
         0.3 < similarity sqrt self det
                 (TrackedObject.get_current_detection obj now)) /\
  (forall i tid det obj now,
     In i (unmatched_detections r) -> In tid (unmatched_tracks r) ->
     nth_error dets' i = Some det ->
     Dict.get tid (tracked_objects self) = Some obj ->
     similarity sqrt self det (TrackedObject.get_current_detection obj now)
     <= 0.3).
Proof.
  intros Hwf dets' r mid n1 final.
  pose proof (update_tracks_wf clock sqrt self dets n Hwf) as [Hnd _].
  fold mid in Hnd.
  assert (Hfinal : final = fst (remove_expired clock mid n1))
    by apply update_final.
  assert (Hexp : forall k tid obj,
            nth_error (tracked_objects mid) k = Some (tid, obj) ->
            Dict.get tid (tracked_objects final) =
            if expired_now obj (clock (n1 + k)) then None else Some obj).
  { intros k tid obj Hk. rewrite Hfinal.
    apply (remove_expired_get clock mid n1 k tid obj Hnd Hk). }
  split; [apply is_expired_iff|]. split; [|split; [|split; [|split; [|split]]]].
  - intros k tid obj Hk now.
    pose proof (Hexp k tid obj Hk) as Hget. fold now in Hget.
    pose proof (is_expired_iff obj now) as Hiff.
    destruct (expired_now obj now) eqn:E.
    + assert (Hyes : 5 < now - TrackedObject.last_seen obj \/
                     (10 < TrackedObject.missed_frames obj)%Z)
        by (apply Hiff; reflexivity).
      repeat split; intros; try exact Hget; exfalso.
      * tauto.
      * destruct Hyes as [Hy|Hy]; [lra|lia].
    + assert (Hno : ~ (5 < now - TrackedObject.last_seen obj \/
                       (10 < TrackedObject.missed_frames obj)%Z)).
      { intros Hy. apply Hiff in Hy. discriminate. }
      repeat split; intros; try exact Hget; exfalso.
      * tauto.
      * apply Hno. right. lia.
  - intros tid Hnone. rewrite Hfinal. apply remove_expired_absent. exact Hnone.
  - intros ->. subst mid n1.
    rewrite update_tracks_empty_frame by apply Hwf. split; reflexivity.
  - intros p tid obj Hp now.
    destruct (update_tracks_entry clock sqrt self dets n p tid obj Hwf Hp)
      as (Hseen & Hmiss & Hcover).
    fold dets' r mid n1 in Hseen, Hmiss, Hcover.
    split; [exact Hcover|]. split.
    + intros Hin missed. specialize (Hmiss Hin). fold missed in Hmiss.
      pose proof (Hexp p tid missed Hmiss) as Hget. fold now in Hget.
      pose proof (expired_after_miss obj now) as Hiff. fold missed in Hiff.
      split; [apply (nth_error_get p _ tid missed Hnd Hmiss)|].
      split; [reflexivity|]. split; [reflexivity|].
      destruct (expired_now missed now) eqn:E.
      * assert (Hyes : 5 < now - TrackedObject.last_seen obj \/
                       (10 < TrackedObject.missed_frames obj + 1)%Z)
          by (apply Hiff; reflexivity).
        repeat split; intros; try exact Hget; exfalso.
        -- tauto.
        -- destruct Hyes as [Hy|Hy]; [lra|lia].
      * assert (Hno : ~ (5 < now - TrackedObject.last_seen obj \/
                         (10 < TrackedObject.missed_frames obj + 1)%Z)).
        { intros Hy. apply Hiff in Hy. discriminate. }
        repeat split; intros; try exact Hget; exfalso.
        -- tauto.
        -- apply Hno. right. lia.
    + intros i Hi. destruct (Hseen i Hi) as (det & k & Hd & Hb & He).
      exists det, k. split; [exact Hd|]. split; [exact Hb|].
      intros seen. fold seen in He.
      pose proof (Hexp p tid seen He) as Hget. fold now in Hget.
      pose proof (expired_after_update obj det (clock k) now) as Hiff.
      fold seen in Hiff.
      split; [apply (nth_error_get p _ tid seen Hnd He)|].
      split; [reflexivity|]. split; [reflexivity|].
      destruct (expired_now seen now) eqn:E.
      * assert (Hyes : 5 < now - clock k) by (apply Hiff; reflexivity).
        split; intros; [exact Hget|exfalso; lra].
      * assert (Hno : ~ 5 < now - clock k).
        { intros Hy. apply Hiff in Hy. discriminate. }
        split; intros; [exfalso; tauto|exact Hget].
  - intros i tid Hi.
    apply (match_detections_sound self dets' n i tid (proj1 Hwf) Hi).
  - intros i tid det obj now Hi Ht Hdet Hobj.
    apply (match_detections_complete clock sqrt self dets' n i tid det obj now
             (proj1 Hwf) Hi Ht Hdet Hobj).
Qed.

End Expiry.

(** A frame with a car, which matches neither track of
    [ageing_tracker]: the track at its eleventh miss is removed, the one
    at its ninth is kept.  A frame with the person [near_tracker]
    follows, eight seconds after the track was last seen: the track is
    kept, seen at the time of the frame. *)
Lemma expiry_in_update_witness :
  (let final :=
     snd (fst (ObjectTracker.update still_clock (fun x => x)
                 ageing_tracker [car_box] 0%nat)) in
   Dict.get 1%Z (ObjectTracker.tracked_objects final) = None /\
   Dict.get 2%Z (ObjectTracker.tracked_objects final) =
   Some (missed_track 2 9)) /\
  (let final :=
     snd (fst (ObjectTracker.update late_clock (fun x => x)
                 near_tracker [near_person] 0%nat)) in
   exists seen,
     Dict.get 1%Z (ObjectTracker.tracked_objects final) = Some seen /\
     TrackedObject.last_seen near_track = 2 /\
     TrackedObject.last_seen seen = 10 /\
     TrackedObject.missed_frames seen = 0%Z).
Proof.
  split.
  - assert (Hwf : wf_tracker ageing_tracker).
    { split; cbn.
      - constructor; [intros [H|[]]; discriminate|].
        constructor; [intros []|constructor].
      - constructor; [reflexivity|]. constructor; [reflexivity|constructor]. }
    destruct (expiry_in_update still_clock (fun x => x) ageing_tracker
                [car_box] 0%nat Hwf)
      as (_ & _ & _ & _ & Hk & _).
    split.
    + destruct (Hk 0%nat 1%Z (missed_track 1 10) eq_refl) as (_ & H & _).
      apply H; [vm_compute; auto|reflexivity].
    + destruct (Hk 1%nat 2%Z (missed_track 2 8) eq_refl) as (_ & H & _).
      apply H; [vm_compute; auto|reflexivity|reflexivity].
  - assert (Hwf : wf_tracker near_tracker).
    { split; cbn.
      - constructor; [intros []|constructor].
      - constructor; [reflexivity|constructor]. }
    destruct (expiry_in_update late_clock (fun x => x) near_tracker
                [near_person] 0%nat Hwf)
      as (_ & _ & _ & _ & Hk & _).
    destruct (Hk 0%nat 1%Z near_track eq_refl) as (_ & _ & H).
    destruct (H 0%nat) as (det & k & _ & _ & _ & Hl & Hm & _ & Hkeep).
    { vm_compute. auto. }
    eexists. split; [apply Hkeep; unfold late_clock; discriminate|].
    split; [reflexivity|]. split; [exact Hl|exact Hm].
Defined.

(** ** Where the 3, 6 and 10 second ladder lives *)

Section Runner.

Import WindowsRunner.

Lemma get_set_same {V} k (v : V) d : Dict.get k (Dict.set k v d) = Some v.
Proof.
  induction d as [|[k' v'] r IH]; cbn [Dict.set Dict.get].
  - rewrite Z.eqb_refl. reflexivity.
  - destruct (k =? k')%Z eqn:E; cbn [Dict.get]; rewrite E; [reflexivity|exact IH].
Qed.

(** The runner's own throttle is the ladder of 3, 6 and 10 seconds. *)
Lemma continuous_alert_intervals last d id dist now :
  is_stable_flag d = Some true ->
  Detection.track_id d = Some id -> distance_meters d = Some dist ->
  let elapsed :=
    now - match Dict.get id last with Some t => t | None => 0 end in
  (dist < 3 -> (fst (continuous_alert last d now) = true <-> 3 <= elapsed)) /\
  (3 <= dist -> dist < 6 ->
   (fst (continuous_alert last d now) = true <-> 6 <= elapsed)) /\
  (6 <= dist ->
   (fst (continuous_alert last d now) = true <-> 10 <= elapsed)).
Proof.
  intros Hs Hid Hd elapsed. subst elapsed.
  unfold continuous_alert, alert_interval. rewrite Hs, Hid, Hd.
  set (lt := match Dict.get id last with Some t => t | None => 0 end).
  qcase (Qltb dist 3) H3; qcase (Qltb dist 6) H6;
    match goal with
    | |- context [Qgeb ?a ?b] => qcase (Qgeb a b) HG
    end; cbn [fst];
    repeat split; intros; try reflexivity; try discriminate;
    try (exfalso; lra); lra.
Qed.

(** Two passes of the runner over the track two metres away: 2.9
    seconds apart the second is refused, 3.1 seconds apart it is
    sent. *)
Lemma continuous_alert_near_track :
  let first := continuous_alert [] (near_view 100) 100 in
  fst first = true /\
  fst (continuous_alert (snd first) (near_view 102.9) 102.9) = false /\
  fst (continuous_alert (snd first) (near_view 103.1) 103.1) = true.
Proof. repeat split. Qed.

Lemma get_set_other {V} k k' (v : V) d :
  k' <> k -> Dict.get k' (Dict.set k v d) = Dict.get k' d.
Proof.
  intros Hne. induction d as [|[k0 v0] r IH]; cbn [Dict.set Dict.get].
  - destruct (k' =? k)%Z eqn:E; [apply Z.eqb_eq in E; contradiction|].
    reflexivity.
  - destruct (k =? k0)%Z eqn:E; cbn [Dict.get].
    + apply Z.eqb_eq in E. subst k0.
      destruct (k' =? k)%Z eqn:E'; [apply Z.eqb_eq in E'; contradiction|].
      reflexivity.
    + destruct (k' =? k0)%Z; [reflexivity|exact IH].
Qed.

Lemma alert_interval_ladder dist :
  (dist < 3 -> alert_interval dist = 3.0) /\
  (3 <= dist -> dist < 6 -> alert_interval dist = 6.0) /\
  (6 <= dist -> alert_interval dist = 10.0).
Proof.
  unfold alert_interval.
  qcase (Qltb dist 3) H3; qcase (Qltb dist 6) H6;
    repeat split; intros; try reflexivity; exfalso; lra.
Qed.

(** What one pass of the runner does for a stable detection. *)
Lemma continuous_alert_stable last d now :
  is_stable_flag d = Some true ->
  let id := match Detection.track_id d with Some i => i | None => 0%Z end in
  let dist := match distance_meters d with Some x => x | None => 10 end in
  let last_time := match Dict.get id last with Some t => t | None => 0 end in
  (fst (continuous_alert last d now) = true <->
   alert_interval dist <= now - last_time) /\
  (fst (continuous_alert last d now) = true ->
   snd (continuous_alert last d now) = Dict.set id now last) /\
  (fst (continuous_alert last d now) = false ->
   snd (continuous_alert last d now) = last).
Proof.
  intros Hs id dist last_time. unfold continuous_alert. rewrite Hs.
  fold id dist last_time.
  qcase (Qgeb (now - last_time) (alert_interval dist)) HG; cbn [fst snd].
  - repeat split; auto; discriminate.
  - repeat split; try discriminate; auto. intros H. exfalso. lra.
Qed.

(** C2.  The runner sends a continuous alert for a stable tracked
    detection exactly when the last alert it sent for the track id of
    the detection is at least 3 seconds old for a distance below 3 m, 6
    seconds old from 3 m to below 6 m, and 10 seconds old at 6 m or more
    (a track never alerted counts from time 0, a detection without
    distance counts as 10 m away).  An alert that is sent is recorded
    under the track id at the current time, the times of the other track
    ids are left alone, and a query that is refused records nothing; a
    detection that is not stable is never alerted.  Consequently, after
    an alert for a track, a second query for the same track at a
    distance below 3 m is accepted exactly when it comes 3 seconds or
    more later: 2.9 seconds apart one alert, 3.1 seconds apart two.  For
    the dict the tracker builds for a stable track with a distance
    history, the track id is the id of the track and the distance the
    average of the distances the track keeps. *)
Theorem continuous_alert_ladder last d now :
  let id := match Detection.track_id d with Some i => i | None => 0%Z end in
  let dist := match distance_meters d with Some x => x | None => 10 end in
  let elapsed :=
    now - match Dict.get id last with Some t => t | None => 0 end in
  let accepted := fst (continuous_alert last d now) in
  let last' := snd (continuous_alert last d now) in
  (forall obj t,
     TrackedObject.get_current_detection obj t = Some d ->
     TrackedObject.is_stable obj = true ->
     TrackedObject.distances obj <> [] ->
     is_stable_flag d = Some true /\ id = TrackedObject.track_id obj /\
     dist = Qmean (TrackedObject.distances obj)) /\
  (is_stable_flag d <> Some true -> accepted = false /\ last' = last) /\
  (is_stable_flag d = Some true ->
   (dist < 3 -> (accepted = true <-> 3 <= elapsed)) /\
   (3 <= dist -> dist < 6 -> (accepted = true <-> 6 <= elapsed)) /\
   (6 <= dist -> (accepted = true <-> 10 <= elapsed)) /\
   (accepted = true -> Dict.get id last' = Some now) /\
   (accepted = false -> last' = last) /\
   (forall id', id' <> id -> Dict.get id' last' = Dict.get id' last) /\
   (accepted = true ->
    forall d' dist' gap,
      is_stable_flag d' = Some true ->
      Detection.track_id d' = Detection.track_id d ->
      distance_meters d' = Some dist' -> dist' < 3 ->
      (fst (continuous_alert last' d' (now + gap)) = true <-> 3 <= gap) /\
      (gap == 2.9 -> fst (continuous_alert last' d' (now + gap)) = false) /\
      (gap == 3.1 -> fst (continuous_alert last' d' (now + gap)) = true))).
Proof.
  intros id dist elapsed accepted last'. split; [|split].
  - intros obj t Hview Hst Hdist. subst id dist.
    unfold TrackedObject.get_current_detection in Hview.
    destruct (TrackedObject.positions obj); [discriminate|].
    injection Hview as <-. cbn. rewrite Hst.
    destruct (TrackedObject.distances obj); [contradiction|].
    repeat split.
  - intros Hns. subst accepted last'. unfold continuous_alert.
    destruct (is_stable_flag d) as [[|]|]; try (split; reflexivity).
    contradiction.
  - intros Hs.
    destruct (continuous_alert_stable last d now Hs) as (Hacc & Hyes & Hno).
    fold id dist accepted last' in Hacc, Hyes, Hno. fold elapsed in Hacc.
    destruct (alert_interval_ladder dist) as (I3 & I6 & I10).
    split; [intros H; rewrite Hacc, (I3 H); split; intros; lra|].
    split; [intros H H'; rewrite Hacc, (I6 H H'); split; intros; lra|].
    split; [intros H; rewrite Hacc, (I10 H); split; intros; lra|].
    split; [intros H; rewrite (Hyes H); apply get_set_same|].
    split; [exact Hno|]. split.
    + intros id' Hne. destruct accepted eqn:E.
      * rewrite (Hyes eq_refl). apply get_set_other. exact Hne.
      * rewrite (Hno eq_refl). reflexivity.
    + intros Hok d' dist' gap Hs' Hid' Hd' Hlt.
      assert (El : last' = Dict.set id now last) by exact (Hyes Hok).
      rewrite El.
      destruct (continuous_alert_stable (Dict.set id now last) d'
                  (now + gap) Hs') as (Hacc' & _ & _).
      rewrite Hid', Hd' in Hacc'. fold id in Hacc'.
      rewrite get_set_same in Hacc'.
      destruct (alert_interval_ladder dist') as (I3' & _ & _).
      rewrite (I3' Hlt) in Hacc'.
      assert (Hiff : fst (continuous_alert (Dict.set id now last) d'
                            (now + gap)) = true <-> 3 <= gap).
      { rewrite Hacc'. split; intros; lra. }
      split; [exact Hiff|]. split.
      * intros Hg.
        destruct (fst (continuous_alert (Dict.set id now last) d'
                        (now + gap))) eqn:E; [|reflexivity].
        exfalso. assert (3 <= gap) by (apply Hiff; reflexivity). lra.
      * intros Hg. apply Hiff. lra.
Qed.

(** Two passes of the runner over the track two metres away, the first
    at 100 seconds: 2.9 seconds later the second is refused, 3.1 seconds
    later it is sent. *)
Lemma continuous_alert_ladder_witness :
  let first := continuous_alert [] (near_view 100) 100 in
  fst first = true /\
  fst (continuous_alert (snd first) (near_view 102.9) (100 + 2.9)) = false /\
  fst (continuous_alert (snd first) (near_view 103.1) (100 + 3.1)) = true.
Proof.
  destruct (continuous_alert_ladder [] (near_view 100) 100) as (_ & _ & H).
  destruct (H eq_refl) as (H3 & _ & _ & _ & _ & _ & Hgap).
  assert (Hfirst : fst (continuous_alert [] (near_view 100) 100) = true).
  { apply H3; [reflexivity|discriminate]. }
  split; [exact Hfirst|]. split.
  - destruct (Hgap Hfirst (near_view 102.9) _ 2.9 eq_refl eq_refl eq_refl)
      as (_ & H29 & _); [reflexivity|].
    apply H29. reflexivity.
  - destruct (Hgap Hfirst (near_view 103.1) _ 3.1 eq_refl eq_refl eq_refl)
      as (_ & _ & H31); [reflexivity|].
    apply H31. reflexivity.
Defined.

End Runner.

(** Asked twice, 3.1 seconds apart, [get_objects_for_alerts] marks the
    track two metres away the first time and returns nothing the second
    time: the distance throttle is consulted only after the
    [ALERT_INTERVAL] throttle of [should_alert] has accepted. *)
Lemma get_objects_for_alerts_gated :
  let first := ObjectTracker.get_objects_for_alerts ticking_clock near_tracker 0%nat in
  map should_distance_alert_flag (fst (fst first)) = [Some true] /\
  fst (fst (ObjectTracker.get_objects_for_alerts ticking_clock
              (snd (fst first)) 31%nat)) = [].
Proof. split; reflexivity. Qed.

(* ================================================================= *)
(** * Further properties *)

(** ** History and counters of a track *)

Section TrackHistory.

Import TrackedObject.

Lemma append_bounded_length {A} (n : Z) (l : list A) (x : A) :
  (1 <= n)%Z -> (len l <= n)%Z ->
  List.length (append_bounded n l x) =
  Nat.min (S (List.length l)) (Z.to_nat n).
Proof.
  intros Hn Hl. unfold append_bounded, len in *.
  rewrite length_app. cbn [List.length].
  destruct (n <? Z.of_nat (List.length l + 1))%Z eqn:E.
  - apply Z.ltb_lt in E.
    destruct l as [|a l]; cbn [app tl List.length] in *; [lia|].
    rewrite length_app. cbn [List.length]. lia.
  - apply Z.ltb_ge in E. rewrite length_app. cbn [List.length]. lia.
Qed.

Lemma append_bounded_last {A} (n : Z) (l : list A) (x d : A) :
  (1 <= n)%Z -> List.last (append_bounded n l x) d = x.
Proof.
  intros Hn. unfold append_bounded, len. rewrite length_app.
  cbn [List.length].
  destruct (n <? Z.of_nat (List.length l + 1))%Z eqn:E.
  - apply Z.ltb_lt in E.
    destruct l as [|a l]; cbn [app tl List.length] in *; [lia|].
    apply last_last.
  - apply last_last.
Qed.

Lemma track_after_snoc' d id t1 t2 evs e :
  track_after d id t1 t2 (evs ++ [e]) =
  track_step (track_after d id t1 t2 evs) e.
Proof. unfold track_after. rewrite fold_left_app. reflexivity. Qed.

Lemma last_detection_snoc_matched d evs d' now :
  last_detection d (evs ++ [Matched d' now]) = d'.
Proof.
  revert d. induction evs as [|e evs IH]; intros d; [reflexivity|].
  destruct e; cbn [app last_detection]; apply IH.
Qed.

Lemma last_detection_snoc_missed d evs :
  last_detection d (evs ++ [Missed]) = last_detection d evs.
Proof.
  revert d. induction evs as [|e evs IH]; intros d; [reflexivity|].
  destruct e; cbn [app last_detection]; apply IH.
Qed.



Lemma track_after_histories d id t1 t2 evs :
  histories_aligned (track_after d id t1 t2 evs)
    (Nat.min (S (matched_frames evs)) 10) /\
  List.last (positions (track_after d id t1 t2 evs)) (0, 0)%Z =
    center (last_detection d evs) /\
  List.last (bboxes (track_after d id t1 t2 evs)) (0, 0, 0, 0)%Z =
    bbox (last_detection d evs) /\
  List.last (areas (track_after d id t1 t2 evs)) 0%Z =
    area (last_detection d evs).
Proof.
  induction evs as [|e evs IH] using rev_ind.
  - cbn. repeat split.
  - rewrite track_after_snoc'. destruct IH as ((Hp & Hb & Ha & Hc) & Lp & Lb & La).
    destruct e as [d' now|].
    + rewrite last_detection_snoc_matched. unfold matched_frames.
      rewrite filter_app, length_app. cbn [filter is_matched List.length].
      unfold histories_aligned.
      cbn [track_step update positions bboxes areas confidences].
      rewrite !append_bounded_last by lia.
      rewrite !append_bounded_length by (unfold len; lia).
      rewrite Hp, Hb, Ha, Hc. unfold matched_frames.
      repeat split; lia.
    + rewrite last_detection_snoc_missed. unfold matched_frames.
      rewrite filter_app, length_app. cbn [filter is_matched List.length].
      rewrite Nat.add_0_r. cbn [track_step miss_frame]. unfold histories_aligned.
      cbn [positions bboxes areas confidences].
      repeat split; assumption.
Qed.

Lemma last_default {A} (l : list A) (d d' : A) :
  l <> [] -> List.last l d = List.last l d'.
Proof.
  induction l as [|a l IH]; [contradiction|]. intros _.
  destruct l as [|b l]; [reflexivity|].
  change (List.last (b :: l) d = List.last (b :: l) d').
  apply IH. discriminate.
Qed.

Lemma track_after_distances d id t1 t2 evs :
  (List.length (distances (track_after d id t1 t2 evs)) <= 5)%nat.
Proof.
  induction evs as [|e evs IH] using rev_ind; [cbn; lia|].
  rewrite track_after_snoc'. destruct e as [d' now|]; [|exact IH].
  cbn [track_step update distances].
  destruct (distance_meters d'); [|exact IH].
  rewrite append_bounded_length by (unfold len; lia). lia.
Qed.

Lemma track_after_identity d id t1 t2 evs :
  track_id (track_after d id t1 t2 evs) = id /\
  class_id (track_after d id t1 t2 evs) = Detection.class_id d /\
  class_name (track_after d id t1 t2 evs) = Detection.class_name d /\
  first_seen (track_after d id t1 t2 evs) = t1.
Proof.
  induction evs as [|e evs IH] using rev_ind; [repeat split|].
  rewrite track_after_snoc'. destruct e; exact IH.
Qed.

(** X7.  After any sequence of matched and missed frames the histories of
    positions, boxes, areas and confidences of a track have the same
    length: the number of frames the track was seen in, the one that
    created it included, but at most 10; the distances kept are at most
    5.  [get_current_detection] returns a dict: it has the box, centre and
    area of the last detection the track was matched with, the id and
    the class the track was created with, its stability flag, and as age
    the time since its creation. *)
Theorem track_histories_bounded d id t1 t2 evs now :
  let t := track_after d id t1 t2 evs in
  histories_aligned t (Nat.min (S (matched_frames evs)) 10) /\
  (List.length (distances t) <= 5)%nat /\
  exists view,
    get_current_detection t now = Some view /\
    bbox view = bbox (last_detection d evs) /\
    center view = center (last_detection d evs) /\
    area view = area (last_detection d evs) /\
    Detection.track_id view = Some id /\
    Detection.class_id view = Detection.class_id d /\
    Detection.class_name view = Detection.class_name d /\
    is_stable_flag view = Some (is_stable t) /\
    age view = Some (now - t1).
Proof.
  intros t. subst t.
  destruct (track_after_histories d id t1 t2 evs) as (Hal & Lp & Lb & La).
  destruct (track_after_identity d id t1 t2 evs) as (Hid & Hc & Hn & Hf).
  split; [exact Hal|]. split; [apply track_after_distances|].
  unfold get_current_detection.
  destruct Hal as (Hp & _).
  destruct (positions (track_after d id t1 t2 evs)) as [|p0 ps] eqn:Ep.
  { cbn in Hp. lia. }
  eexists. split; [reflexivity|]. cbn.
  rewrite Hid, Hc, Hn, Hf. unfold last_or. rewrite Lb, La.
  repeat split.
  rewrite <- Lp. change (last (p0 :: ps) p0 = last (p0 :: ps) (0, 0)%Z).
  apply last_default. discriminate.
Qed.






End TrackHistory.

(** ** Boxes and distances *)

Section Geometry.

Import ObjectTracker.

Lemma ratio_unit (a b : Z) :
  (0 <= a)%Z -> (a <= b)%Z -> (0 < b)%Z ->
  0 <= inject_Z a / inject_Z b /\ inject_Z a / inject_Z b <= 1.
Proof.
  intros Ha Hab Hb. destruct b as [|p|p]; try lia.
  unfold Qle, Qdiv, Qmult, Qinv, inject_Z; simpl. split; nia.
Qed.

(** X9.  For all boxes, well-formed or not, [calculate_iou] lies between 0
    and 1. *)
Theorem calculate_iou_range (a b : BBox) :
  0 <= calculate_iou a b /\ calculate_iou a b <= 1.
Proof.
  destruct a as [[[ax1 ay1] ax2] ay2]. destruct b as [[[bx1 by1] bx2] by2].
  unfold calculate_iou.
  destruct ((Z.min ax2 bx2 <=? Z.max ax1 bx1) ||
            (Z.min ay2 by2 <=? Z.max ay1 by1))%Z eqn:E.
  - split; lra.
  - apply orb_false_iff in E as [Ex Ey].
    apply Z.leb_gt in Ex. apply Z.leb_gt in Ey.
    destruct (0 <? _)%Z eqn:Eu; [|split; lra].
    apply Z.ltb_lt in Eu.
    apply ratio_unit; [nia| |exact Eu].
    assert (H1 : ((Z.min ax2 bx2 - Z.max ax1 bx1) *
                  (Z.min ay2 by2 - Z.max ay1 by1) <=
                  (ax2 - ax1) * (ay2 - ay1))%Z).
    { apply Z.mul_le_mono_nonneg; lia. }
    assert (H2 : ((Z.min ax2 bx2 - Z.max ax1 bx1) *
                  (Z.min ay2 by2 - Z.max ay1 by1) <=
                  (bx2 - bx1) * (by2 - by1))%Z).
    { apply Z.mul_le_mono_nonneg; lia. }
    lia.
Qed.

Variable sqrt : Q -> Q.

(** X10.  Whatever [math.sqrt] returns, [estimate_distance] lies between 1
    and 50, and it is 5 for a class without a typical area.  After the
    first loop of [update] every detection has a distance, and a
    detection that had one keeps it with all its other keys. *)
Theorem estimate_distance_range (d : Detection.t) :
  1 <= estimate_distance sqrt d /\ estimate_distance sqrt d <= 50 /\
  (DistanceChecker.dict_get (Detection.class_name d) typical_areas = None ->
   estimate_distance sqrt d == 5) /\
  distance_meters (with_distance sqrt d) <> None /\
  (distance_meters d <> None -> with_distance sqrt d = d).
Proof.
  unfold estimate_distance.
  destruct (DistanceChecker.dict_get (Detection.class_name d) typical_areas)
    as [ta|] eqn:E.
  - set (e := sqrt _ * 3).
    assert (H1 : 1.0 <= Qmax 1.0 (Qmin 50.0 e)) by apply Q.le_max_l.
    assert (H2 : Qmax 1.0 (Qmin 50.0 e) <= 50.0).
    { apply Q.max_lub; [discriminate|apply Q.le_min_l]. }
    split; [lra|]. split; [lra|]. split; [discriminate|].
    split.
    + unfold with_distance. destruct (distance_meters d) eqn:Ed;
        [rewrite Ed|cbn]; discriminate.
    + intros H. unfold with_distance. destruct (distance_meters d);
        [reflexivity|contradiction].
  - split; [discriminate|]. split; [discriminate|]. split; [reflexivity|].
    split.
    + unfold with_distance. destruct (distance_meters d) eqn:Ed;
        [rewrite Ed|cbn]; discriminate.
    + intros H. unfold with_distance. destruct (distance_meters d);
        [reflexivity|contradiction].
Qed.

End Geometry.

(** A detection that carries its distance keeps it. *)
Lemma estimate_distance_range_witness :
  ObjectTracker.with_distance (fun x => x) near_person = near_person.
Proof.
  destruct (estimate_distance_range (fun x => x) near_person)
    as (_ & _ & _ & _ & H).
  apply H. discriminate.
Defined.

(** ** The frame queries of the risk classifier *)

Section FrameQueries.

Import DistanceChecker DistanceCheckerOps.

Lemma insert_by_size_perm x l : Permutation (x :: l) (insert_by_size x l).
Proof.
  induction l as [|y l IH]; [apply Permutation_refl|].
  cbn [insert_by_size]. destruct (Qgeb _ _); [|apply Permutation_refl].
  eapply perm_trans; [apply perm_swap|]. apply perm_skip. exact IH.
Qed.

Lemma insert_by_size_sorted x l :
  StronglySorted larger_first l ->
  StronglySorted larger_first (insert_by_size x l).
Proof.
  induction l as [|y l IH]; intros Hs.
  - repeat constructor.
  - inversion Hs as [|? ? Hl Hy]; subst. cbn [insert_by_size].
    destruct (Qgeb (close_relative_size y) (close_relative_size x)) eqn:E.
    + apply Qgeb_true in E. constructor; [apply IH; exact Hl|].
      apply Forall_forall. intros z Hz.
      apply (Permutation_in _ (Permutation_sym (insert_by_size_perm x l)))
        in Hz.
      destruct Hz as [<-|Hz]; [exact E|].
      rewrite Forall_forall in Hy. apply Hy. exact Hz.
    + apply Qgeb_false in E. constructor; [exact Hs|].
      assert (Hxy : larger_first x y) by (unfold larger_first; lra).
      constructor; [exact Hxy|].
      eapply Forall_impl; [|exact Hy]. unfold larger_first in *.
      intros z Hz. lra.
Qed.

Lemma insert_by_size_last x l :
  Forall (fun y => larger_first y x) l -> insert_by_size x l = l ++ [x].
Proof.
  induction 1 as [|y l Hy _ IH]; [reflexivity|].
  cbn [insert_by_size app]. unfold larger_first in Hy.
  apply Qgeb_true in Hy. rewrite Hy, IH. reflexivity.
Qed.

Lemma sort_loop_spec l :
  forall acc,
    StronglySorted larger_first acc ->
    let r := fold_left (fun acc x => insert_by_size x acc) l acc in
    StronglySorted larger_first r /\ Permutation (acc ++ l) r /\
    (StronglySorted larger_first (acc ++ l) -> r = acc ++ l).
Proof.
  induction l as [|x l IH]; intros acc Hacc r; subst r.
  - cbn [fold_left]. rewrite app_nil_r.
    split; [exact Hacc|]. split; [apply Permutation_refl|reflexivity].
  - cbn [fold_left].
    destruct (IH (insert_by_size x acc) (insert_by_size_sorted x acc Hacc))
      as (Hs & Hp & He).
    split; [exact Hs|]. split.
    + eapply perm_trans; [|exact Hp].
      eapply perm_trans; [apply Permutation_sym, Permutation_middle|].
      change (Permutation ((x :: acc) ++ l) (insert_by_size x acc ++ l)).
      apply Permutation_app_tail, insert_by_size_perm.
    + intros Hall.
      assert (Hx : insert_by_size x acc = acc ++ [x]).
      { apply insert_by_size_last. clear - Hall.
        induction acc as [|a acc IHa]; [constructor|].
        cbn [app] in Hall. inversion Hall as [|? ? Hl Ha]; subst.
        constructor; [|apply IHa; exact Hl].
        rewrite Forall_forall in Ha. apply Ha.
        apply in_or_app. right. left. reflexivity. }
      rewrite Hx in He |- *. rewrite He.
      * rewrite <- app_assoc. reflexivity.
      * rewrite <- app_assoc. exact Hall.
Qed.

(** The sort of [check_distances]. *)
Lemma sort_by_size_spec l :
  StronglySorted larger_first (sort_by_size l) /\
  Permutation l (sort_by_size l) /\
  (StronglySorted larger_first l -> sort_by_size l = l).
Proof. apply (sort_loop_spec l []). constructor. Qed.

Lemma collect_close_spec fa dets :
  fa <> 0%Z ->
  forall acc, collect_close dets fa acc = Ok (acc ++ close_entries fa dets).
Proof.
  intros Hfa. induction dets as [|d dets IH]; intros acc.
  - cbn. rewrite app_nil_r. reflexivity.
  - cbn [collect_close close_entries flat_map].
    rewrite (calculate_distance_info_ok d fa Hfa). cbn [Py.bind].
    destruct (is_close _).
    + rewrite IH, <- app_assoc. reflexivity.
    + rewrite IH. reflexivity.
Qed.


Lemma classify_urgency_range th rs :
  (0 <= info_urgency (classify th rs) <= 3)%Z.
Proof.
  unfold classify.
  destruct (Qgeb rs (th_very_close th)); [cbn; lia|].
  destruct (Qgeb rs (th_close th)); [cbn; lia|].
  destruct (Qgeb rs (th_medium th)); cbn; lia.
Qed.



Lemma check_distances_ok dets (h w : Z) :
  (h * w <> 0)%Z ->
  exists l,
    check_distances dets (h, w) = Ok l /\
    StronglySorted larger_first l /\
    Permutation (close_entries (h * w) dets) l /\
    (StronglySorted larger_first (close_entries (h * w) dets) ->
     l = close_entries (h * w) dets).
Proof.
  intros Hfa.
  destruct (sort_by_size_spec (close_entries (h * w) dets)) as (Hs & Hp & He).
  destruct dets as [|d dets].
  - exists []. cbn. repeat split; constructor.
  - exists (sort_by_size (close_entries (h * w) (d :: dets))).
    unfold check_distances.
    rewrite (collect_close_spec (h * w) (d :: dets) Hfa). cbn [Py.bind app].
    repeat split; assumption.
Qed.


(** X12.  In a frame whose area is not zero [get_closest_object] does not
    fail; the object it returns is a close detection of the frame, and no
    close detection has a larger relative size; it returns None exactly
    when no detection is close. *)
Theorem get_closest_object_largest dets (h w : Z) :
  (h * w <> 0)%Z ->
  match get_closest_object dets (h, w) with
  | Ok (Some c) =>
    In c (close_entries (h * w) dets) /\
    Forall (fun c' => close_relative_size c' <= close_relative_size c)
           (close_entries (h * w) dets)
  | Ok None => close_entries (h * w) dets = []
  | Raise _ => False
  end.
Proof.
  intros Hfa. unfold get_closest_object.
  destruct (check_distances_ok dets h w Hfa) as (l & -> & Hs & Hp & _).
  cbn [Py.bind]. destruct l as [|c l].
  - apply Permutation_sym, Permutation_nil in Hp. exact Hp.
  - split.
    + apply (Permutation_in _ (Permutation_sym Hp)). left. reflexivity.
    + apply Forall_forall. intros c' Hc'.
      apply (Permutation_in _ Hp) in Hc'. inversion Hs as [|? ? _ Hall]; subst.
      destruct Hc' as [<-|Hc']; [lra|].
      rewrite Forall_forall in Hall. apply (Hall c' Hc').
Qed.


Lemma urgency_in_ok fa d :
  fa <> 0%Z ->
  calculate_distance_info d fa = Ok (classify (thresholds_for (class_name d))
                                       (inject_Z (area d) / inject_Z fa)) /\
  urgency_in fa d =
  info_urgency (classify (thresholds_for (class_name d))
                  (inject_Z (area d) / inject_Z fa)).
Proof.
  intros Hfa. unfold urgency_in.
  rewrite (calculate_distance_info_ok d fa Hfa). split; reflexivity.
Qed.

Lemma collect_risks_spec fa dets :
  fa <> 0%Z ->
  forall hi me,
    collect_risks dets fa (hi, me) =
    Ok (hi ++ filter (fun d => (3 <=? urgency_in fa d)%Z) dets,
        me ++ filter (fun d => (urgency_in fa d =? 2)%Z) dets).
Proof.
  intros Hfa. induction dets as [|d dets IH]; intros hi me.
  - cbn. rewrite !app_nil_r. reflexivity.
  - cbn [collect_risks filter].
    destruct (urgency_in_ok fa d Hfa) as [-> ->]. cbn [Py.bind].
    pose proof (classify_urgency_range (thresholds_for (class_name d))
                  (inject_Z (area d) / inject_Z fa)) as Hr.
    destruct (3 <=? _)%Z eqn:E3.
    + rewrite IH, <- app_assoc.
      replace (_ =? 2)%Z with false by (symmetry; lia). reflexivity.
    + destruct (2 <=? _)%Z eqn:E2.
      * rewrite IH, <- app_assoc.
        replace (_ =? 2)%Z with true by (symmetry; lia). reflexivity.
      * rewrite IH. replace (_ =? 2)%Z with false by (symmetry; lia).
        reflexivity.
Qed.

Lemma filter_disjoint_length {A} (p q : A -> bool) (l : list A) :
  (forall x, p x = true -> q x = false) ->
  (List.length (filter p l) + List.length (filter q l) <= List.length l)%nat.
Proof.
  intros H. induction l as [|x l IH]; [cbn; lia|].
  cbn [filter]. specialize (H x).
  destruct (p x); [rewrite H by reflexivity|destruct (q x)];
    cbn [List.length]; lia.
Qed.

(** X13.  In a frame whose area is not zero [check_collision_risk] does not
    fail.  Its high risk objects are the detections of urgency 3, its
    medium risk objects those of urgency 2, both in detection order; the
    counts are the lengths of these lists and together at most the total,
    which is the number of detections; the overall risk is high exactly
    when some detection has urgency 3, and low exactly when every
    detection has urgency 1 or 0. *)
Theorem check_collision_risk_partition dets (h w : Z) :
  (h * w <> 0)%Z ->
  exists r,
    check_collision_risk dets (h, w) = Ok r /\
    high_risk_objects r =
      filter (fun d => (3 <=? urgency_in (h * w) d)%Z) dets /\
    medium_risk_objects r =
      filter (fun d => (urgency_in (h * w) d =? 2)%Z) dets /\
    high_risk_count r = len (high_risk_objects r) /\
    medium_risk_count r = len (medium_risk_objects r) /\
    total_objects r = len dets /\
    (high_risk_count r + medium_risk_count r <= total_objects r)%Z /\
    (overall_risk r = overall_high <->
     exists d, In d dets /\ (3 <= urgency_in (h * w) d)%Z) /\
    (overall_risk r = overall_low <->
     forall d, In d dets -> (urgency_in (h * w) d <= 1)%Z).
Proof.
  intros Hfa. unfold check_collision_risk.
  rewrite (collect_risks_spec (h * w) dets Hfa). cbn [Py.bind app].
  set (hi := filter _ dets). set (me := filter _ dets).
  eexists. split; [reflexivity|].
  cbn [high_risk_objects medium_risk_objects high_risk_count
       medium_risk_count total_objects overall_risk].
  repeat (split; [reflexivity|]).
  assert (Hhi : forall d, In d hi <-> In d dets /\ (3 <= urgency_in (h * w) d)%Z).
  { intros d. unfold hi. rewrite filter_In, Z.leb_le. reflexivity. }
  assert (Hme : forall d, In d me <-> In d dets /\ urgency_in (h * w) d = 2%Z).
  { intros d. unfold me. rewrite filter_In, Z.eqb_eq. reflexivity. }
  assert (Hrange : forall d, (0 <= urgency_in (h * w) d <= 3)%Z).
  { intros d. destruct (urgency_in_ok (h * w) d Hfa) as [_ ->].
    apply classify_urgency_range. }
  split.
  { unfold len.
    pose proof (filter_disjoint_length
                  (fun d => (3 <=? urgency_in (h * w) d)%Z)
                  (fun d => (urgency_in (h * w) d =? 2)%Z) dets) as Hl.
    fold hi me in Hl.
    assert (Hd : forall x, (3 <=? urgency_in (h * w) x)%Z = true ->
                           (urgency_in (h * w) x =? 2)%Z = false).
    { intros x H. apply Z.leb_le in H. apply Z.eqb_neq. lia. }
    specialize (Hl Hd). lia. }
  split.
  - split.
    + intros H. destruct hi as [|d hi'] eqn:E.
      * destruct me; discriminate.
      * exists d. apply Hhi. left. reflexivity.
    + intros (d & Hd). apply Hhi in Hd. destruct hi; [destruct Hd|reflexivity].
  - split.
    + intros H d Hd. destruct hi as [|x hi'] eqn:E; [|discriminate].
      destruct me as [|y me'] eqn:E'; [|discriminate].
      specialize (Hrange d).
      destruct (Z_le_gt_dec (urgency_in (h * w) d) 1) as [Hle|Hgt];
        [exact Hle|exfalso].
      destruct (Z.eq_dec (urgency_in (h * w) d) 2) as [H2|H2].
      * apply (proj2 (Hme d)). split; assumption.
      * apply (proj2 (Hhi d)). split; [exact Hd|lia].
    + intros H. destruct hi as [|x hi'] eqn:E.
      * destruct me as [|y me'] eqn:E'; [reflexivity|exfalso].
        assert (Hy : In y (y :: me')) by (left; reflexivity).
        apply Hme in Hy as [Hy1 Hy2]. specialize (H y Hy1). lia.
      * exfalso. assert (Hx : In x (x :: hi')) by (left; reflexivity).
        apply Hhi in Hx as [Hx1 Hx2]. specialize (H x Hx1). lia.
Qed.

(** *** Safe zones *)

Lemma count_in_zone_spec u z :
  unsafe_iff_high z ->
  unsafe_iff_high (count_in_zone u z) /\
  zone_object_count (count_in_zone u z) = (zone_object_count z + 1)%Z /\
  ((3 <= u)%Z -> safe (count_in_zone u z) = false) /\
  (safe z = false -> safe (count_in_zone u z) = false).
Proof.
  unfold unsafe_iff_high, count_in_zone. intros [H1 H2].
  destruct (3 <=? u)%Z eqn:E3.
  { cbn. repeat split; auto. }
  apply Z.leb_gt in E3.
  destruct (2 <=? u)%Z.
  { cbn. repeat split; try lia; try tauto.
    - intros H. rewrite (H1 H). reflexivity.
    - destruct (zone_risk_level z) eqn:Er; try discriminate. auto. }
  destruct (1 <=? u)%Z.
  { cbn. repeat split; try lia; try tauto.
    - intros H. rewrite (H1 H). reflexivity.
    - destruct (zone_risk_level z) eqn:Er; try discriminate. auto. }
  cbn. repeat split; try lia; tauto.
Qed.

Lemma count_in_zone_unsafe u z :
  safe (count_in_zone u z) = false -> safe z = false \/ (3 <= u)%Z.
Proof.
  unfold count_in_zone. destruct (3 <=? u)%Z eqn:E3.
  { intros _. right. apply Z.leb_le. exact E3. }
  destruct (2 <=? u)%Z; [cbn; auto|].
  destruct (1 <=? u)%Z; cbn; auto.
Qed.

Lemma zone_name_eq_dec (a b : NavigationGuide.ZoneName) : {a = b} + {a <> b}.
Proof. decide equality. Qed.

Lemma zone_set_get_other {A} (z : NavigationGuide.Zones A) n0 n a :
  n0 <> n -> NavigationGuide.zone_get (zone_set z n0 a) n =
             NavigationGuide.zone_get z n.
Proof. destruct n0, n; intros H; try reflexivity; contradiction. Qed.

Lemma counted_zone_set zones n a :
  counted (zone_set zones n a) =
  (counted zones - zone_object_count (NavigationGuide.zone_get zones n) +
   zone_object_count a)%Z.
Proof. unfold counted. destruct n; cbn; lia. Qed.

Lemma zone_set_get {A} (z : NavigationGuide.Zones A) n a :
  NavigationGuide.zone_get (zone_set z n a) n = a.
Proof. destruct n; reflexivity. Qed.

Lemma fill_zones_spec (h w : Z) dets :
  (h * w <> 0)%Z ->
  forall zones,
    (forall n, unsafe_iff_high (NavigationGuide.zone_get zones n)) ->
    exists z,
      fill_zones dets h w zones = Ok z /\
      counted z = (counted zones + len dets)%Z /\
      (forall n, unsafe_iff_high (NavigationGuide.zone_get z n)) /\
      (forall n,
         safe (NavigationGuide.zone_get z n) = false <->
         safe (NavigationGuide.zone_get zones n) = false \/
         exists d, In d dets /\ zone_of (fst (center d)) w = n /\
                   (3 <= urgency_in (h * w) d)%Z).
Proof.
  intros Hfa. induction dets as [|d dets IH]; intros zones Hz.
  - exists zones. cbn [fill_zones]. split; [reflexivity|].
    split; [unfold len; cbn; lia|]. split; [exact Hz|].
    intros n. split; [auto|]. intros [H|(d & [] & _)]. exact H.
  - cbn [fill_zones].
    destruct (urgency_in_ok (h * w) d Hfa) as [Hok Hu]. rewrite Hok.
    cbn [Py.bind]. rewrite <- Hu.
    set (n0 := zone_of (fst (center d)) w).
    set (u := urgency_in (h * w) d).
    destruct (count_in_zone_spec u (NavigationGuide.zone_get zones n0)
                (Hz n0)) as (Hc1 & Hc2 & Hc3 & Hc4).
    set (zones' := zone_set zones n0
                     (count_in_zone u (NavigationGuide.zone_get zones n0))).
    assert (Hz' : forall n, unsafe_iff_high (NavigationGuide.zone_get zones' n)).
    { intros n. subst zones'. destruct (zone_name_eq_dec n0 n) as [En|En].
      - rewrite <- En, zone_set_get. exact Hc1.
      - rewrite (zone_set_get_other _ _ _ _ En). apply Hz. }
    destruct (IH zones' Hz') as (z & E & Hcount & Hinv & Hsafe).
    exists z. split; [exact E|]. split.
    { rewrite Hcount. subst zones'. rewrite counted_zone_set, Hc2.
      unfold len. cbn [List.length]. lia. }
    split; [exact Hinv|].
    intros n. rewrite Hsafe. cbn [In]. split.
    + intros [H|(d' & Hd' & Hn & Hu')].
      * subst zones'. destruct (zone_name_eq_dec n0 n) as [En|En].
        -- rewrite <- En in H |- *. rewrite zone_set_get in H.
           apply count_in_zone_unsafe in H as [H|H]; [left; exact H|].
           right. exists d. split; [left; reflexivity|]. split; auto.
        -- rewrite (zone_set_get_other _ _ _ _ En) in H. left. exact H.
      * right. exists d'. auto.
    + intros [H|(d' & [<-|Hd'] & Hn & Hu')].
      * left. subst zones'. destruct (zone_name_eq_dec n0 n) as [En|En].
        -- rewrite <- En in H |- *. rewrite zone_set_get. apply Hc4. exact H.
        -- rewrite (zone_set_get_other _ _ _ _ En). exact H.
      * left. subst zones'. fold n0 in Hn. rewrite <- Hn.
        rewrite zone_set_get. apply Hc3. exact Hu'.
      * right. exists d'. auto.
Qed.

(** X14.  In a frame whose area is not zero [get_safe_zones] does not fail
    and counts every detection in exactly one zone: the three object
    counts add up to the number of detections.  A zone is unsafe exactly
    when its risk level is high, which is exactly when a detection of
    urgency 3 has its centre column in the zone. *)
Theorem get_safe_zones_counts dets (h w : Z) :
  (h * w <> 0)%Z ->
  exists z,
    get_safe_zones dets (h, w) = Ok z /\
    counted z = len dets /\
    (forall n, unsafe_iff_high (NavigationGuide.zone_get z n)) /\
    (forall n,
       safe (NavigationGuide.zone_get z n) = false <->
       exists d, In d dets /\ zone_of (fst (center d)) w = n /\
                 (3 <= urgency_in (h * w) d)%Z).
Proof.
  intros Hfa. unfold get_safe_zones.
  set (fresh := {| safe := true; zone_object_count := 0;
                   zone_risk_level := zr_low |}).
  assert (H0 : forall n,
            unsafe_iff_high
              (NavigationGuide.zone_get
                 (NavigationGuide.mkZones fresh fresh fresh) n)).
  { intros n. destruct n; cbn; split; discriminate. }
  destruct (fill_zones_spec h w dets Hfa _ H0) as (z & E & Hc & Hi & Hs).
  exists z. split; [exact E|]. split; [rewrite Hc; cbn; lia|].
  split; [exact Hi|]. intros n. rewrite Hs. split.
  - intros [H|H]; [destruct n; discriminate|exact H].
  - auto.
Qed.


(** *** The alert decision of the classifier *)



End FrameQueries.


Lemma get_closest_object_largest_witness :
  match DistanceCheckerOps.get_closest_object crowded_frame (480, 640)%Z with
  | Ok (Some c) =>
    In c (close_entries (480 * 640) crowded_frame) /\
    Forall (fun c' => DistanceCheckerOps.close_relative_size c' <=
                      DistanceCheckerOps.close_relative_size c)
           (close_entries (480 * 640) crowded_frame)
  | Ok None => close_entries (480 * 640) crowded_frame = []
  | Raise _ => False
  end.
Proof. apply (get_closest_object_largest crowded_frame 480 640). discriminate. Defined.

Lemma check_collision_risk_partition_witness :
  exists r,
    DistanceCheckerOps.check_collision_risk crowded_frame (480, 640)%Z = Ok r /\
    DistanceCheckerOps.total_objects r = 6%Z /\
    (DistanceCheckerOps.high_risk_count r +
     DistanceCheckerOps.medium_risk_count r <= 6)%Z.
Proof.
  destruct (check_collision_risk_partition crowded_frame 480 640)
    as (r & E & _ & _ & _ & _ & Ht & Hc & _); [discriminate|].
  exists r. split; [exact E|]. split; [exact Ht|].
  rewrite Ht in Hc. exact Hc.
Defined.

Lemma get_safe_zones_counts_witness :
  exists z,
    DistanceCheckerOps.get_safe_zones crowded_frame (480, 640)%Z = Ok z /\
    counted z = 6%Z.
Proof.
  destruct (get_safe_zones_counts crowded_frame 480 640)
    as (z & E & Hc & _); [discriminate|].
  exists z. split; [exact E|exact Hc].
Defined.

(** ** The decision and its zones *)

Section Decision.

Import NavigationGuide.

Lemma zone_score_nonneg z : 0 <= _calculate_zone_score z.
Proof.
  unfold _calculate_zone_score. destruct (blocked z); [lra|].
  apply Qle_trans with 0.0; [lra|apply Q.le_max_l].
Qed.

Lemma zone_score_blocked z :
  blocked z = true -> _calculate_zone_score z = 0.0.
Proof. intros H. unfold _calculate_zone_score. rewrite H. reflexivity. Qed.

Lemma zone_score_le_one z :
  (0 <= object_count z)%Z -> 0 <= density z -> _calculate_zone_score z <= 1.
Proof.
  intros Hc Hd. unfold _calculate_zone_score. destruct (blocked z); [lra|].
  assert (Hr : 0 <= risk_penalty (risk_level z))
    by (destruct (risk_level z); cbn; lra).
  assert (Ho : 0 <= Qmin 0.2 (inject_Z (object_count z) * 0.05)).
  { apply Q.min_glb; [lra|].
    assert (0 <= inject_Z (object_count z))
      by (change 0 with (inject_Z 0); rewrite <- Zle_Qle; exact Hc).
    nra. }
  assert (Hp : 0 <= Qmin 0.3 (density z * 0.5))
    by (apply Q.min_glb; lra).
  apply Q.max_lub; lra.
Qed.

Lemma decision_safe_zones za :
  safe_zones (_make_navigation_decision za) =
  (if passable (at_left za) then [zone_left] else []) ++
  (if passable (at_center za) then [zone_center] else []) ++
  (if passable (at_right za) then [zone_right] else []).
Proof.
  unfold _make_navigation_decision.
  match goal with
  | |- context [let '(a, b) := ?X in _] => destruct X
  end. reflexivity.
Qed.

Lemma decision_overall_risk za :
  risk_rank (overall_risk (_make_navigation_decision za)) =
  Z.max (risk_rank (risk_level (at_left za)))
        (Z.max (risk_rank (risk_level (at_center za)))
               (risk_rank (risk_level (at_right za)))).
Proof.
  unfold _make_navigation_decision.
  match goal with
  | |- context [let '(a, b) := ?X in _] => destruct X
  end. cbn [overall_risk existsb].
  destruct (risk_level (at_left za)), (risk_level (at_center za)),
    (risk_level (at_right za)); reflexivity.
Qed.

Lemma side_direction_cases (za : Zones ZoneAnalysis) :
  let d := _make_navigation_decision za in
  let left_score := _calculate_zone_score (at_left za) in
  let right_score := _calculate_zone_score (at_right za) in
  (direction d = Some left <->
   passable (at_center za) = false /\ blocked (at_center za) = true /\
   passable (at_left za) = true /\
   (passable (at_right za) = true -> right_score <= left_score)) /\
  (direction d = Some right <->
   passable (at_center za) = false /\ blocked (at_center za) = true /\
   passable (at_right za) = true /\
   (passable (at_left za) = true -> left_score < right_score)) /\
  (direction d = Some stop ->
   passable (at_center za) = false /\ passable (at_left za) = false /\
   passable (at_right za) = false).
Proof.
  intros d left_score right_score.
  subst d left_score right_score. unfold _make_navigation_decision.
  destruct (passable (at_center za)) eqn:Ec;
    [cbn [direction]; decide_direction|].
  destruct (blocked (at_center za)) eqn:Eb;
    [|cbn [direction]; decide_direction].
  qcase (Qgtb (_calculate_zone_score (at_left za))
              (_calculate_zone_score (at_right za))) Hlr;
  qcase (Qgtb (_calculate_zone_score (at_right za))
              (_calculate_zone_score (at_left za))) Hrl;
  destruct (passable (at_left za)) eqn:El;
  destruct (passable (at_right za)) eqn:Er;
  cbn [andb direction]; decide_direction.
Qed.

Lemma decision_safe_zones_in za n :
  In n (safe_zones (_make_navigation_decision za)) <->
  passable (zone_get za n) = true.
Proof.
  rewrite decision_safe_zones.
  destruct (passable (at_left za)) eqn:El,
           (passable (at_center za)) eqn:Ec,
           (passable (at_right za)) eqn:Er;
    destruct n; cbn [zone_get app In]; rewrite ?El, ?Ec, ?Er;
    intuition (try discriminate; try congruence).
Qed.

Lemma side_direction_facts (za : Zones ZoneAnalysis) :
  let d := _make_navigation_decision za in
  (forall n, In n (safe_zones d) <-> passable (zone_get za n) = true) /\
  (forall dir n, direction d = Some dir -> zone_of_direction dir = Some n ->
                 In n (safe_zones d)) /\
  (direction d = Some stop -> safe_zones d = []).
Proof.
  intros d. destruct (side_direction_cases za) as (Hl & Hr & Hs).
  fold d in Hl, Hr, Hs.
  split; [apply decision_safe_zones_in|]. split.
  - intros dir n Hd Hz. apply decision_safe_zones_in. destruct dir; cbn in Hz;
      try discriminate; injection Hz as <-; cbn [zone_get].
    + apply decision_forward_iff. exact Hd.
    + apply Hl in Hd. tauto.
    + apply Hr in Hd. tauto.
  - intros H. apply Hs in H as (Hc & Hl' & Hr').
    subst d. rewrite decision_safe_zones.
    rewrite Hc, Hl', Hr'. reflexivity.
Qed.

(** X16.  The decision is left or right only when the centre zone is
    blocked and not passable and the zone of that side is passable; it is
    stop exactly when the centre zone is blocked and no zone is passable.
    With the centre zone blocked and not passable, a single passable side
    is the direction, and with both sides passable the direction is one
    of them.  The safe zones of the decision are the passable zones; the
    zone a direction leads into is one of them; and a decision to stop
    has no safe zone. *)
Theorem side_direction_choice (za : Zones ZoneAnalysis) :
  let d := _make_navigation_decision za in
  (direction d = Some left ->
   passable (at_center za) = false /\ blocked (at_center za) = true /\
   passable (at_left za) = true) /\
  (direction d = Some right ->
   passable (at_center za) = false /\ blocked (at_center za) = true /\
   passable (at_right za) = true) /\
  (direction d = Some stop <->
   passable (at_center za) = false /\ blocked (at_center za) = true /\
   passable (at_left za) = false /\ passable (at_right za) = false) /\
  (passable (at_center za) = false -> blocked (at_center za) = true ->
   (passable (at_left za) = true -> passable (at_right za) = false ->
    direction d = Some left) /\
   (passable (at_left za) = false -> passable (at_right za) = true ->
    direction d = Some right) /\
   (passable (at_left za) = true -> passable (at_right za) = true ->
    direction d = Some left \/ direction d = Some right)) /\
  (forall n, In n (safe_zones d) <-> passable (zone_get za n) = true) /\
  (forall dir n, direction d = Some dir -> zone_of_direction dir = Some n ->
                 In n (safe_zones d)) /\
  (direction d = Some stop -> safe_zones d = []).
Proof.
  intros d.
  destruct (side_direction_cases za) as (Hl & Hr & Hs).
  destruct (side_direction_facts za) as (Hsafe & Hdir & Hstop).
  fold d in Hl, Hr, Hs, Hsafe, Hdir, Hstop.
  split; [intros H; apply Hl in H; tauto|].
  split; [intros H; apply Hr in H; tauto|].
  split.
  { split.
    - intros H. pose proof (Hs H) as (Hc & Hl' & Hr').
      repeat split; try assumption.
      destruct (blocked (at_center za)) eqn:Eb; [reflexivity|].
      destruct (decision_null za Hc Eb) as [Hn _]. fold d in Hn. congruence.
    - intros (Hc & Hb & Hl' & Hr').
      apply (decision_stop za Hc Hb Hl' Hr'). }
  split.
  { intros Hc Hb. split; [|split].
    - intros Hl' Hr'. apply Hl. repeat split; try assumption.
      intros H. congruence.
    - intros Hl' Hr'. apply Hr. repeat split; try assumption.
      intros H. congruence.
    - intros Hl' Hr'.
      destruct (Qlt_le_dec (_calculate_zone_score (at_left za))
                           (_calculate_zone_score (at_right za))) as [Hlt|Hle].
      + right. apply Hr. repeat split; try assumption. intros _. exact Hlt.
      + left. apply Hl. repeat split; try assumption. intros _. exact Hle. }
  split; [exact Hsafe|]. split; [exact Hdir|exact Hstop].
Qed.

Lemma min_score_positive (s : Q) :
  0 < s -> 0 < Qmin 0.8 s /\ Qmin 0.8 s <= 0.9.
Proof.
  intros H. split; [apply Q.min_glb_lt; lra|].
  eapply Qle_trans; [apply Q.le_min_l|lra].
Qed.

Lemma decision_confidence_facts (za : Zones ZoneAnalysis) :
  let d := _make_navigation_decision za in
  0 <= nav_confidence d /\ nav_confidence d <= 0.9 /\
  (direction d = None <-> nav_confidence d == 0) /\
  (direction d = None <->
   passable (at_center za) = false /\ blocked (at_center za) = false).
Proof.
  intros d. subst d.
  unfold _make_navigation_decision.
  pose proof (zone_score_nonneg (at_left za)) as Hl0.
  pose proof (zone_score_nonneg (at_right za)) as Hr0.
  destruct (passable (at_center za)) eqn:Ec;
    [cbn [direction nav_confidence]; decide_direction|].
  destruct (blocked (at_center za)) eqn:Eb;
    [|cbn [direction nav_confidence]; decide_direction].
  qcase (Qgtb (_calculate_zone_score (at_left za))
              (_calculate_zone_score (at_right za))) Hlr;
  qcase (Qgtb (_calculate_zone_score (at_right za))
              (_calculate_zone_score (at_left za))) Hrl;
  destruct (passable (at_left za)) eqn:El;
  destruct (passable (at_right za)) eqn:Er;
  cbn [andb direction nav_confidence];
  try (pose proof (min_score_positive (_calculate_zone_score (at_left za)))
        as Hml);
  try (pose proof (min_score_positive (_calculate_zone_score (at_right za)))
        as Hmr);
  decide_direction;
  try (specialize (Hml ltac:(lra)); lra);
  try (specialize (Hmr ltac:(lra)); lra).
Qed.

(** X17.  The confidence of a decision lies between 0 and 0.9, and it is 0
    exactly when no direction is given, which happens exactly when the
    centre zone is neither passable nor blocked.  The overall risk is the
    highest risk level of the three zones.  The score of a zone is never
    negative, is 0 for a blocked zone, and is at most 1 when the object
    count and the density of the zone are not negative. *)
Theorem decision_confidence (za : Zones ZoneAnalysis) :
  let d := _make_navigation_decision za in
  0 <= nav_confidence d /\ nav_confidence d <= 0.9 /\
  (direction d = None <-> nav_confidence d == 0) /\
  (direction d = None <->
   passable (at_center za) = false /\ blocked (at_center za) = false) /\
  risk_rank (overall_risk d) =
    Z.max (risk_rank (risk_level (at_left za)))
          (Z.max (risk_rank (risk_level (at_center za)))
                 (risk_rank (risk_level (at_right za)))) /\
  (forall z,
     0 <= _calculate_zone_score z /\
     (blocked z = true -> _calculate_zone_score z == 0) /\
     ((0 <= object_count z)%Z -> 0 <= density z ->
      _calculate_zone_score z <= 1)).
Proof.
  intros d.
  destruct (decision_confidence_facts za) as (H1 & H2 & H3 & H4).
  fold d in H1, H2, H3, H4.
  repeat (split; [assumption|]). split.
  - apply decision_overall_risk.
  - intros z. split; [apply zone_score_nonneg|]. split.
    + intros H. rewrite (zone_score_blocked z H). reflexivity.
    + apply zone_score_le_one.
Qed.


(** *** The analysis of a zone *)

(** The loop of [_analyze_zone], when it does not raise. *)
Lemma collect_zone_spec dets zb shape :
  forall objs total scores r,
    collect_zone dets zb shape (objs, total, scores) = Ok r ->
    r = (objs ++ members dets zb,
         (total + Zsum (map area (members dets zb)))%Z,
         snd r) /\
    List.length (snd r) =
    (List.length scores + List.length (members dets zb))%nat.
Proof.
  induction dets as [|d dets IH]; intros objs total scores r H.
  - cbn in H. injection H as <-. cbn. rewrite app_nil_r, Z.add_0_r.
    split; [reflexivity|lia].
  - cbn [collect_zone members filter] in *.
    destruct (_is_object_in_zone d zb).
    + destruct (risk_score_of d shape) as [score|]; [|discriminate].
      cbn [Py.bind] in H. apply IH in H as [H1 H2]. fold (members dets zb).
      split.
      * rewrite H1 at 1. cbn [map]. rewrite <- app_assoc.
        change (area d :: map area (members dets zb))
          with ([area d] ++ map area (members dets zb)).
        unfold Zsum at 2. rewrite fold_left_app. cbn [fold_left].
        f_equal. f_equal.
        assert (Hs : forall l a, fold_left Z.add l a = (a + Zsum l)%Z).
        { clear. unfold Zsum. induction l as [|x l IHl]; intros a;
            [cbn; lia|].
          cbn [fold_left]. rewrite IHl, (IHl (0 + x)%Z). lia. }
        rewrite (Hs _ (0 + area d)%Z). lia.
      * rewrite H2, length_app. cbn [List.length]. lia.
    + apply IH in H. exact H.
Qed.

Lemma risk_level_of_zero : risk_level_of 0 0 = risk_safe.
Proof. reflexivity. Qed.

Lemma risk_level_of_proper a d d' :
  d == d' -> risk_level_of a d = risk_level_of a d'.
Proof.
  intros H. unfold risk_level_of, Qgtb, Qltb.
  assert (Hb : forall t : Q, Qle_bool d t = Qle_bool d' t).
  { intros t. destruct (Qle_bool d t) eqn:E1, (Qle_bool d' t) eqn:E2;
      try reflexivity.
    - apply Qle_bool_iff in E1. rewrite H in E1. apply Qle_bool_iff in E1.
      congruence.
    - apply Qle_bool_iff in E2. rewrite <- H in E2. apply Qle_bool_iff in E2.
      congruence. }
  rewrite !Hb. reflexivity.
Qed.

Lemma _analyze_zone_members cfg dets zb shape z :
  _analyze_zone cfg dets zb shape = Ok z -> objects z = members dets zb.
Proof.
  unfold _analyze_zone. intros H.
  destruct (collect_zone dets zb shape ([], 0%Z, [])) as [[[objs total] scores]|]
    eqn:E; [|discriminate].
  cbn [Py.bind] in H. injection H as <-.
  apply collect_zone_spec in E as [E _]. cbn [snd app] in E.
  injection E as -> _. reflexivity.
Qed.

(** X18.  When [_analyze_zone] returns, the objects of the zone are the
    detections [_is_object_in_zone] accepts, in detection order; the
    object count is their number and the total area the sum of their
    areas; a blocked zone is not passable and a passable zone has risk
    level safe or low; a zone without objects is not blocked, safe,
    passable and of density 0; and a zone with objects, at least
    [MAX_OBJECTS_PER_ZONE] of them, is blocked. *)
Theorem analyze_zone_invariants cfg dets zb shape z :
  _analyze_zone cfg dets zb shape = Ok z ->
  objects z = members dets zb /\
  object_count z = len (objects z) /\
  total_area z = Zsum (map area (objects z)) /\
  (blocked z = true -> passable z = false) /\
  (passable z = true ->
   risk_level z = risk_safe \/ risk_level z = risk_low) /\
  (objects z = [] ->
   blocked z = false /\ risk_level z = risk_safe /\ passable z = true /\
   density z == 0) /\
  (objects z <> [] -> (MAX_OBJECTS_PER_ZONE cfg <= object_count z)%Z ->
   blocked z = true).
Proof.
  unfold _analyze_zone. intros H.
  destruct (collect_zone dets zb shape ([], 0%Z, [])) as [[[objs total] scores]|]
    eqn:E; [|discriminate].
  cbn [Py.bind] in H. injection H as <-.
  apply collect_zone_spec in E as [E Hlen]. cbn [snd app List.length] in E, Hlen.
  injection E as -> ->. cbn [Z.add] in *.
  cbn [objects object_count total_area blocked passable risk_level density].
  split; [reflexivity|]. split; [reflexivity|]. split; [reflexivity|].
  split; [intros ->; reflexivity|]. split.
  { intros Hp. apply andb_true_iff in Hp as [_ Hp].
    destruct (risk_level_of _ _); try discriminate; auto. }
  split.
  - intros Hnil. rewrite Hnil in *. cbn [List.length Nat.add] in Hlen.
    destruct scores; [|discriminate]. cbn [map Zsum fold_left].
    cbn [_is_zone_blocked negb andb].
    assert (Hd : (if (0 <? (x_max zb - x_min zb) * (y_max zb - y_min zb))%Z
                  then inject_Z 0 /
                       inject_Z ((x_max zb - x_min zb) * (y_max zb - y_min zb))
                  else 0) == 0).
    { destruct (0 <? _)%Z; [|reflexivity]. unfold Qdiv. 
      change (inject_Z 0) with 0. ring. }
    rewrite (risk_level_of_proper 0 _ 0 Hd).
    repeat split; try reflexivity. exact Hd.
  - intros Hne Hmax. unfold _is_zone_blocked.
    destruct (members dets zb) as [|o os] eqn:Em; [contradiction|].
    destruct (Qgtb _ density_high); [reflexivity|].
    destruct (match scores with [] => false | _ :: _ => _ end);
      [reflexivity|].
    apply Z.leb_le in Hmax. rewrite Hmax. reflexivity.
Qed.


(** *** When the analysis raises *)

Lemma risk_score_of_ok d shape :
  (fst shape * snd shape <> 0)%Z \/ urgency d <> None ->
  exists score, risk_score_of d shape = Ok score.
Proof.
  intros H. unfold risk_score_of. destruct (urgency d) as [u|].
  - exists u. reflexivity.
  - destruct H as [H|H]; [|contradiction]. unfold true_div.
    apply Z.eqb_neq in H. rewrite H. cbn [Py.bind].
    destruct (Qgtb _ 0.15); [eexists; reflexivity|].
    destruct (Qgtb _ 0.08); eexists; reflexivity.
Qed.

Lemma collect_zone_ok dets zb shape :
  (fst shape * snd shape <> 0)%Z \/ Forall (fun d => urgency d <> None) dets ->
  forall acc, exists r, collect_zone dets zb shape acc = Ok r.
Proof.
  induction dets as [|d dets IH]; intros H acc.
  - exists acc. reflexivity.
  - destruct acc as [[objs total] scores]. cbn [collect_zone].
    assert (Hd : (fst shape * snd shape <> 0)%Z \/ urgency d <> None).
    { destruct H as [H|H]; [left; exact H|right].
      inversion H; assumption. }
    assert (Hr : (fst shape * snd shape <> 0)%Z \/
                 Forall (fun d => urgency d <> None) dets).
    { destruct H as [H|H]; [left; exact H|right].
      inversion H; assumption. }
    destruct (_is_object_in_zone d zb); [|apply IH; exact Hr].
    destruct (risk_score_of_ok d shape Hd) as [score ->]. cbn [Py.bind].
    apply IH. exact Hr.
Qed.

Lemma _analyze_zone_ok cfg dets zb shape :
  (fst shape * snd shape <> 0)%Z \/ Forall (fun d => urgency d <> None) dets ->
  exists z, _analyze_zone cfg dets zb shape = Ok z.
Proof.
  intros H. unfold _analyze_zone.
  destruct (collect_zone_ok dets zb shape H ([], 0%Z, []))
    as [[[objs total] scores] ->].
  cbn [Py.bind]. eexists. reflexivity.
Qed.

(** X19.  [analyze_regions] does not fail when the frame area is not zero,
    nor when every detection carries its urgency.  Its total is the
    number of detections; the objects of each zone are the detections
    [_is_object_in_zone] accepts for the bounds of the zone; its safe
    zones are the passable zones; for a frame without detections the
    direction is forward with confidence 1.0, and otherwise the
    confidence is at most 0.9. *)
Theorem analyze_regions_outcome cfg dets (h w : Z) :
  (h * w <> 0)%Z \/ Forall (fun d => urgency d <> None) dets ->
  exists a,
     analyze_regions cfg dets (h, w) = Ok a /\
     total_objects a = len dets /\
     (forall n, objects (zone_get (zones a) n) =
                members dets (zone_get (_calculate_zone_boundaries w h) n)) /\
     (forall n, In n (analysis_safe_zones a) <->
                passable (zone_get (zones a) n) = true) /\
     (dets = [] ->
      recommended_direction a = Some forward /\
      analysis_confidence a = 1.0) /\
     (dets <> [] -> analysis_confidence a <= 0.9).
Proof.
  intros H. destruct dets as [|d0 dets].
  { eexists. split; [reflexivity|]. cbn.
    split; [reflexivity|]. split; [intros n; destruct n; reflexivity|].
    split; [intros n; destruct n; cbn; intuition congruence|].
    split; [auto|]. intros Hne. contradiction. }
  unfold analyze_regions.
  set (zb := _calculate_zone_boundaries w h).
  destruct (_analyze_zone_ok cfg (d0 :: dets) (at_left zb) (h, w) H)
    as [l El].
  destruct (_analyze_zone_ok cfg (d0 :: dets) (at_center zb) (h, w) H)
    as [c Ec].
  destruct (_analyze_zone_ok cfg (d0 :: dets) (at_right zb) (h, w) H)
    as [r Er].
  rewrite El. cbn [Py.bind]. rewrite Ec. cbn [Py.bind]. rewrite Er.
  cbn [Py.bind]. eexists. split; [reflexivity|].
  cbn [total_objects zones analysis_safe_zones recommended_direction
       analysis_confidence].
  split; [reflexivity|]. split.
  { intros n.
    destruct n; cbn [zone_get at_left at_center at_right].
    - apply (_analyze_zone_members cfg _ _ _ _ El).
    - apply (_analyze_zone_members cfg _ _ _ _ Ec).
    - apply (_analyze_zone_members cfg _ _ _ _ Er). }
  split.
  { intros n. rewrite decision_safe_zones.
    cbn [at_left at_center at_right].
    destruct (passable l) eqn:Pl, (passable c) eqn:Pc, (passable r) eqn:Pr;
      destruct n; cbn [zone_get app In at_left at_center at_right];
      rewrite ?Pl, ?Pc, ?Pr; intuition congruence. }
  split; [discriminate|]. intros _.
  apply (decision_confidence_facts (mkZones l c r)).
Qed.

(** X20.  The risk level [_analyze_zone] derives from the average risk
    score and the density of a zone never falls when the average or the
    density rises. *)
Theorem risk_level_of_monotone (a1 d1 a2 d2 : Q) :
  a1 <= a2 -> d1 <= d2 ->
  (risk_rank (risk_level_of a1 d1) <= risk_rank (risk_level_of a2 d2))%Z.
Proof.
  intros Ha Hd. unfold risk_level_of, density_high, density_medium, density_low.
  qcase (Qgeb a1 2.5) A1; qcase (Qgtb d1 0.4) D1;
  qcase (Qgeb a2 2.5) A2; qcase (Qgtb d2 0.4) D2;
  cbn [orb risk_rank]; try lia; try (exfalso; lra);
  qcase (Qgeb a1 1.5) A3; qcase (Qgtb d1 0.2) D3;
  qcase (Qgeb a2 1.5) A4; qcase (Qgtb d2 0.2) D4;
  cbn [orb risk_rank]; try lia; try (exfalso; lra);
  qcase (Qgeb a1 0.5) A5; qcase (Qgtb d1 0.1) D5;
  qcase (Qgeb a2 0.5) A6; qcase (Qgtb d2 0.1) D6;
  cbn [orb risk_rank]; try lia; try (exfalso; lra).
Qed.


(** *** The recommendation built on an analysis *)

Lemma analyze_regions_carries_decision cfg dets shape a :
  analyze_regions cfg dets shape = Ok a ->
  recommended_direction a = direction (_make_navigation_decision (zones a)) /\
  analysis_safe_zones a = safe_zones (_make_navigation_decision (zones a)).
Proof.
  intros H. unfold analyze_regions in H. destruct dets as [|d0 dets].
  - injection H as <-. split; reflexivity.
  - destruct shape as [h w].
    destruct (_analyze_zone cfg (d0 :: dets) _ (h, w)) as [l|]; [|discriminate].
    cbn [Py.bind] in H.
    destruct (_analyze_zone cfg (d0 :: dets) _ (h, w)) as [c|]; [|discriminate].
    cbn [Py.bind] in H.
    destruct (_analyze_zone cfg (d0 :: dets) _ (h, w)) as [r|]; [|discriminate].
    cbn [Py.bind] in H. injection H as <-. split; reflexivity.
Qed.

(** X21.  The recommendation built on an analysis [analyze_regions]
    returned has the direction and the confidence of the analysis; its
    alternative paths are the passable side zones, and the count of safe
    zones is from 0 to 3; its urgency is high exactly for the direction
    stop, and then there is neither a safe zone nor an alternative path;
    a recommendation to turn left or right has that side among its
    alternative paths. *)
Theorem path_recommendation_follows_analysis cfg dets shape a :
  analyze_regions cfg dets shape = Ok a ->
  let p := PathRecommendation.get_path_recommendation a in
  PathRecommendation.direction p = recommended_direction a /\
  PathRecommendation.confidence p = analysis_confidence a /\
  (forall n, In n (PathRecommendation.alternative_paths p) <->
             n <> zone_center /\ passable (zone_get (zones a) n) = true) /\
  (0 <= PathRecommendation.safe_zone_count p <= 3)%Z /\
  (PathRecommendation.urgency p = "high"%string <->
   PathRecommendation.direction p = Some stop) /\
  (PathRecommendation.direction p = Some stop ->
   PathRecommendation.alternative_paths p = [] /\
   PathRecommendation.safe_zone_count p = 0%Z) /\
  (forall dir n, PathRecommendation.direction p = Some dir ->
     zone_of_direction dir = Some n -> n <> zone_center ->
     In n (PathRecommendation.alternative_paths p)).
Proof.
  intros H p.
  destruct (analyze_regions_carries_decision cfg dets shape a H) as [Hd Hs].
  destruct (side_direction_facts (zones a)) as (Hsafe & Hdir & Hstop).
  assert (Hp : PathRecommendation.direction p = recommended_direction a /\
               PathRecommendation.confidence p = analysis_confidence a /\
               PathRecommendation.safe_zone_count p =
                 len (analysis_safe_zones a) /\
               PathRecommendation.alternative_paths p =
                 filter (fun zone => negb (PathRecommendation.is_center zone))
                        (analysis_safe_zones a) /\
               (PathRecommendation.urgency p = "high"%string <->
                recommended_direction a = Some stop)).
  { subst p. unfold PathRecommendation.get_path_recommendation.
    destruct (recommended_direction a) as [[| | |]|]; cbn;
      repeat split; intros; congruence. }
  destruct Hp as (P1 & P2 & P3 & P4 & P5).
  split; [exact P1|]. split; [exact P2|]. split.
  { intros n. rewrite P4, filter_In, Hs, Hsafe.
    destruct n; cbn [PathRecommendation.is_center negb];
      intuition congruence. }
  split.
  { rewrite P3, Hs, decision_safe_zones. unfold len.
    destruct (passable (at_left (zones a))),
      (passable (at_center (zones a))), (passable (at_right (zones a)));
      cbn; lia. }
  split; [rewrite P1; exact P5|]. split.
  { rewrite P1, Hd. intros Hst. apply Hstop in Hst.
    rewrite P3, P4, Hs, Hst. split; reflexivity. }
  intros dir n Hdn Hz Hne. rewrite P4, filter_In, Hs. split.
  - apply (Hdir dir n); [rewrite <- Hd, <- P1; exact Hdn|exact Hz].
  - destruct n; [reflexivity|contradiction|reflexivity].
Qed.

End Decision.

(** A very close person in the middle of the frame: the walker is sent
    to a side, and that side is passable. *)
Lemma side_direction_choice_witness :
  let za := zones_of [with_urgency person_box 3] in
  NavigationGuide.direction (NavigationGuide._make_navigation_decision za) =
    Some NavigationGuide.left \/
  NavigationGuide.direction (NavigationGuide._make_navigation_decision za) =
    Some NavigationGuide.right.
Proof.
  destruct (side_direction_choice (zones_of [with_urgency person_box 3]))
    as (_ & _ & _ & H & _).
  destruct (H eq_refl eq_refl) as (_ & _ & H2).
  apply H2; reflexivity.
Defined.

Lemma decision_confidence_witness :
  NavigationGuide._calculate_zone_score NavigationGuide.empty_zone <= 1.
Proof.
  destruct (decision_confidence (zones_of crowded_frame))
    as (_ & _ & _ & _ & _ & H).
  destruct (H NavigationGuide.empty_zone) as (_ & _ & H1).
  apply H1; discriminate.
Defined.

Lemma analyze_zone_invariants_witness :
  exists z,
    NavigationGuide._analyze_zone default_config crowded_frame
      (NavigationGuide.at_center
         (NavigationGuide._calculate_zone_boundaries 640 480))
      (480, 640)%Z = Ok z /\
    NavigationGuide.object_count z = len (NavigationGuide.objects z) /\
    NavigationGuide.objects z =
      members crowded_frame
        (NavigationGuide.at_center
           (NavigationGuide._calculate_zone_boundaries 640 480)).
Proof.
  destruct (_analyze_zone_ok default_config crowded_frame
              (NavigationGuide.at_center
                 (NavigationGuide._calculate_zone_boundaries 640 480))
              (480, 640)%Z) as [z E]; [left; discriminate|].
  exists z. split; [exact E|].
  destruct (analyze_zone_invariants default_config crowded_frame _ _ z E)
    as (H1 & H2 & _).
  split; [exact H2|exact H1].
Defined.

Lemma analyze_regions_outcome_witness :
  exists a,
    NavigationGuide.analyze_regions default_config crowded_frame
      (480, 640)%Z = Ok a /\
    NavigationGuide.total_objects a = 6%Z.
Proof.
  destruct (analyze_regions_outcome default_config crowded_frame 480 640)
    as (a & E & Ht & _); [left; discriminate|].
  exists a. split; [exact E|exact Ht].
Defined.

Lemma risk_level_of_monotone_witness :
  (risk_rank (NavigationGuide.risk_level_of 1 0.05) <=
   risk_rank (NavigationGuide.risk_level_of 2 0.3))%Z.
Proof. apply risk_level_of_monotone; discriminate. Defined.

(** Two very close persons, to the left and in the middle: the
    recommendation is to turn right, the right zone being an alternative
    path. *)
Lemma path_recommendation_follows_analysis_witness :
  exists a,
    NavigationGuide.analyze_regions default_config left_and_center
      (480, 640)%Z = Ok a /\
    In NavigationGuide.zone_right
       (PathRecommendation.alternative_paths
          (PathRecommendation.get_path_recommendation a)).
Proof.
  destruct (NavigationGuide.analyze_regions default_config left_and_center
              (480, 640)%Z) as [a|e] eqn:E; [|discriminate E].
  exists a. split; [reflexivity|].
  destruct (path_recommendation_follows_analysis default_config
              left_and_center (480, 640)%Z a E)
    as (Hd & _ & _ & _ & _ & _ & H).
  apply (H NavigationGuide.right); [|reflexivity|discriminate].
  rewrite Hd. injection E as <-. reflexivity.
Defined.
